(** * Madras Masala Lab: the kitchen orchestration engine

    A shallow embedding of [src/App.tsx] and of the constants file it
    imports ([./constants]): the ingredient-name normalizer, the inventory,
    the order ledger, the verification matcher and the planning agent's
    tool-call dispatcher, followed by the properties of the specification
    that were checked against them.

    Conventions of the embedding.
    - A JavaScript string is a [string] holding its UTF-8 bytes.
    - React state ([useState]) and refs ([useRef]) are fields of one record,
      [World]; a [setX (prev => f prev)] is the state transformer [f],
      applied in program order.
    - An [async] function is a computation in the monad [M]: it threads the
      [World] and either returns a value or throws.
    - The outside world (the clock, the completion service, the agent chat
      session) is an [Env] of oracles indexed by the number of interactions
      made so far, so that every sequence of answers is covered. *)

From Stdlib Require Import ZArith String Ascii List Bool Arith Lia NArith.
From Stdlib Require Import DecimalString Floats.
Import ListNotations.

Set Warnings "-inexact-float".
Local Open Scope string_scope.
Local Open Scope list_scope.

(* ================================================================== *)
(** ** JavaScript strings *)
(* ================================================================== *)

Module Js.

(** The characters that cannot be typed inside a string literal. *)
Definition dquote : string := String "034"%char EmptyString.
Definition newline : string := String "010"%char EmptyString.

Definition between (lo hi : nat) (c : ascii) : bool :=
  (lo <=? nat_of_ascii c)%nat && (nat_of_ascii c <=? hi)%nat.

Definition is_upper (c : ascii) : bool := between 65 90 c.
Definition is_lower (c : ascii) : bool := between 97 122 c.
Definition is_digit (c : ascii) : bool := between 48 57 c.

(** [/[a-z0-9]/] *)
Definition is_lower_alnum (c : ascii) : bool := is_lower c || is_digit c.

(** [/[a-zA-Z0-9_]/] *)
Definition is_word (c : ascii) : bool :=
  is_lower c || is_upper c || is_digit c || Ascii.eqb c "_"%char.

(** [/\s/] on the ASCII range: tab, line feed, vertical tab, form feed,
    carriage return and space. *)
Definition is_space (c : ascii) : bool :=
  between 9 13 c || Ascii.eqb c " "%char.

Definition lower_ascii (c : ascii) : ascii :=
  if is_upper c then ascii_of_nat (nat_of_ascii c + 32) else c.

(** [String.prototype.toLowerCase] on a UTF-8 string.  ASCII letters are
    mapped exactly.  Outside ASCII, exactly two code points have a
    lower-case form that contains an ASCII character, and both are mapped
    exactly: U+0130 (bytes C4 B0) becomes [i] followed by U+0307 (bytes
    CC 87), and U+212A, the Kelvin sign (bytes E2 84 AA), becomes [k].
    Every other non-ASCII code point is left as it is: JavaScript maps it
    to a code point that is again outside ASCII. *)
Fixpoint toLowerCase (s : string) : string :=
  match s with
  | EmptyString => EmptyString
  | String c1 r1 =>
      match r1 with
      | String c2 r2 =>
          if (nat_of_ascii c1 =? 196)%nat && (nat_of_ascii c2 =? 176)%nat then
            String "i"%char
              (String (ascii_of_nat 204) (String (ascii_of_nat 135) (toLowerCase r2)))
          else
            match r2 with
            | String c3 r3 =>
                if (nat_of_ascii c1 =? 226)%nat && (nat_of_ascii c2 =? 132)%nat
                   && (nat_of_ascii c3 =? 170)%nat
                then String "k"%char (toLowerCase r3)
                else String (lower_ascii c1) (toLowerCase r1)
            | EmptyString => String (lower_ascii c1) (toLowerCase r1)
            end
      | EmptyString => String (lower_ascii c1) EmptyString
      end
  end.

(** [s.replace(/[^...]/g, '')]: keep the characters of the class. *)
Fixpoint keep (p : ascii -> bool) (s : string) : string :=
  match s with
  | EmptyString => EmptyString
  | String c r => if p c then String c (keep p r) else keep p r
  end.

(** [s.replace(/\s+/g, '_')]: every maximal run of white space becomes one
    underscore.  [in_run] tells whether the previous character was white
    space. *)
Fixpoint replace_spaces (in_run : bool) (s : string) : string :=
  match s with
  | EmptyString => EmptyString
  | String c r =>
      if is_space c then
        if in_run then replace_spaces true r
        else String "_"%char (replace_spaces true r)
      else String c (replace_spaces false r)
  end.

(** [a || b] on strings: the empty string and [undefined] are falsy. *)
Definition or_else (a : option string) (b : string) : string :=
  match a with
  | Some EmptyString | None => b
  | Some s => s
  end.

(** [a || undefined] *)
Definition or_undefined (a : option string) : option string :=
  match a with
  | Some EmptyString | None => None
  | Some s => Some s
  end.

(** [String(n)] for a non-negative integer. *)
Definition of_N (n : N) : string := NilZero.string_of_uint (N.to_uint n).

(** [xs.join(sep)] *)
Definition join (sep : string) (xs : list string) : string :=
  String.concat sep xs.

End Js.

(* ================================================================== *)
(** ** Data model ([constants]: the types) *)
(* ================================================================== *)

Module Ingredient.
Record t : Type := make { name : string; emoji : string }.
End Ingredient.

Module KitchenAction.
Record t : Type := make
  { name : string;          (* function name *)
    displayName : string;   (* human-readable name *)
    emoji : string }.
End KitchenAction.

Module CombinationResult.
Record t : Type := make { result_name : string; emoji : string }.
End CombinationResult.

Module VerificationResult.
Record t : Type := make
  { matches : bool; confidence : float; explanation : string }.
End VerificationResult.

(** [result?: Ingredient | null]: the field is absent, [null] while the
    attempt is outstanding, or an ingredient. *)
Inductive ResultSlot : Type :=
| Absent
| Pending
| Resolved (result : Ingredient.t).

Module TimelineEntry.
(** [type] is not a field of the interface, but the narration entries of
    the verification agent and of the manual serve carry it. *)
Record t : Type := make
  { id : string;
    timestamp : N;
    type : option string;
    text : option string;
    action : option string;
    ingredients : option (list string);
    result : ResultSlot }.

(** [{ ...entry, result: r }] *)
Definition with_result (r : Ingredient.t) (e : t) : t :=
  make (id e) (timestamp e) (type e) (text e) (action e) (ingredients e)
       (Resolved r).
End TimelineEntry.

Inductive OrderDifficulty : Type := easy | intermediate | difficult.

Inductive OrderStatus : Type := not_started | in_progress | completed | failed.

Definition status_eqb (a b : OrderStatus) : bool :=
  match a, b with
  | not_started, not_started | in_progress, in_progress
  | completed, completed | failed, failed => true
  | _, _ => false
  end.

Module Order.
Record t : Type := make
  { id : string;
    name : string;
    emoji : string;
    difficulty : OrderDifficulty;
    status : OrderStatus;
    servedDish : option string }.

(** [{ ...order, status: s }] *)
Definition with_status (s : OrderStatus) (o : t) : t :=
  make (id o) (name o) (emoji o) (difficulty o) s (servedDish o).
End Order.

(* ================================================================== *)
(** ** Constants ([constants]: the catalogs) *)
(* ================================================================== *)

Definition EXAMPLE_ORDERS : list Order.t :=
  [ Order.make "order-1" "Filter Coffee" "☕" easy not_started None;
    Order.make "order-2" "Ghee Roast Dosa" "🥞" intermediate not_started None;
    Order.make "order-3" "Madras Fish Curry" "🥘" difficult not_started None;
    Order.make "order-4" "Masala Dosa" "🥞" difficult not_started None;
    Order.make "order-5" "Idly" "🥞" difficult not_started None;
    Order.make "order-6" "Poori" "🥞" difficult not_started None;
    Order.make "order-7" "Masala Dosa, Idly & Poori Combo" "🥞" difficult
      not_started None ].

Definition sanitizeName (name : string) : string :=
  Js.keep Js.is_word (Js.replace_spaces false name).

Definition createAction (name emoji : string) : KitchenAction.t :=
  KitchenAction.make (sanitizeName name) name emoji.

Definition COOKING_ACTIONS : list KitchenAction.t :=
  [ (* Regional Techniques *)
    createAction "temper tadka" "🔥"; createAction "stone grind" "🪨";
    createAction "ferment" "🫧"; createAction "steam idli" "🥟";
    createAction "deep fry vada" "🍩"; createAction "shallow fry" "🍳";
    createAction "dry roast" "🥘"; createAction "soak" "💧";
    createAction "pound" "🔨"; createAction "banana leaf wrap" "🍃";
    createAction "simmer sambar" "🍲"; createAction "boil" "🫧";
    (* Preparation Methods *)
    createAction "chop" "🔪"; createAction "dice" "🔪";
    createAction "mince" "🔪"; createAction "grate coconut" "🥥";
    createAction "peel" "🥔"; createAction "wash" "💧";
    createAction "extract tamarind" "🍶"; createAction "squeeze lemon" "🍋";
    (* Mixing & Combining *)
    createAction "mix batter" "🥣"; createAction "whisk" "🥄";
    createAction "stir" "🥄"; createAction "combine" "🥣";
    createAction "toss" "🥗";
    (* Advanced Techniques *)
    createAction "caramelize" "🍯"; createAction "reduce" "🍲";
    createAction "infuse" "🍵"; createAction "smoke" "💨";
    createAction "pickle" "🥒"; createAction "rest" "⏰";
    (* Serving/Finishing *)
    createAction "serve on leaf" "🍽️"; createAction "pass" "🏳️" ].

Definition STARTING_INGREDIENTS : list Ingredient.t :=
  [ (* Grains & Legumes *)
    Ingredient.make "ponni rice" "🌾"; Ingredient.make "urad dal" "⚪";
    Ingredient.make "toor dal" "🟡"; Ingredient.make "chana dal" "🟠";
    Ingredient.make "semolina" "🌾";
    (* Vegetables *)
    Ingredient.make "drumstick murungakkai" "🥢";
    Ingredient.make "pearl onions" "🧅";
    Ingredient.make "okra bendakaya" "🥒"; Ingredient.make "brinjal" "🍆";
    Ingredient.make "raw banana" "🍌"; Ingredient.make "curry leaves" "🍃";
    Ingredient.make "coriander leaves" "🌿";
    Ingredient.make "green chilies" "🌶️";
    Ingredient.make "ginger" "🫚"; Ingredient.make "garlic" "🧄";
    Ingredient.make "tomato" "🍅"; Ingredient.make "potato" "🥔";
    (* Pantry & Spices *)
    Ingredient.make "mustard seeds" "⚫"; Ingredient.make "cumin seeds" "🤎";
    Ingredient.make "asafetida hing" "🧂"; Ingredient.make "tamarind" "🤎";
    Ingredient.make "sambar powder" "🌶️"; Ingredient.make "turmeric" "🟡";
    Ingredient.make "salt" "🧂"; Ingredient.make "black pepper" "⚫";
    Ingredient.make "dry red chilies" "🌶️";
    Ingredient.make "fenugreek seeds" "🟤";
    (* Dairy & Fats *)
    Ingredient.make "gingelly oil" "🍶"; Ingredient.make "coconut oil" "🥥";
    Ingredient.make "ghee" "🍯"; Ingredient.make "curd yogurt" "🥛";
    Ingredient.make "milk" "🥛";
    (* Proteins *)
    Ingredient.make "king fish" "🐟"; Ingredient.make "chicken" "🍗";
    Ingredient.make "shrimp" "🦐"; Ingredient.make "mutton" "🍖";
    Ingredient.make "eggs" "🥚";
    (* Others *)
    Ingredient.make "fresh coconut" "🥥"; Ingredient.make "jaggery" "🤎";
    Ingredient.make "coffee decoction" "☕"; Ingredient.make "sugar" "🍯";
    Ingredient.make "water" "💧" ].

(* ================================================================== *)
(** ** Normalizer and inventory ([App.tsx], lines 51-62) *)
(* ================================================================== *)

Definition normalizeIngredientName (name : string) : string :=
  Js.keep Js.is_lower_alnum (Js.toLowerCase name).

(** [inventory.find(...) || null]: an ingredient is an object, hence truthy,
    so the result is [null] exactly when nothing is found. *)
Definition findIngredientInInventory (name : string)
    (inventory : list Ingredient.t) : option Ingredient.t :=
  let normalizedSearch := normalizeIngredientName name in
  find (fun ing =>
          normalizeIngredientName (Ingredient.name ing) =? normalizedSearch)
       inventory.

Definition isDuplicateIngredient (name : string)
    (inventory : list Ingredient.t) : bool :=
  match findIngredientInInventory name inventory with
  | Some _ => true
  | None => false
  end.

(** The updater handed to [setInventory] by [executeAction] (lines 503-506)
    and by [handleApprovedFunctionCalls] (lines 952-955). *)
Definition insertIngredient (newIngredient : Ingredient.t)
    (prev : list Ingredient.t) : list Ingredient.t :=
  if isDuplicateIngredient (Ingredient.name newIngredient) prev then prev
  else newIngredient :: prev.

(** The validation loop of [handleApprovedFunctionCalls] (lines 910-919);
    [validatedIngredients] is the array built so far. *)
Fixpoint validateIngredients (requestedIngredients : list string)
    (inventory : list Ingredient.t) (validatedIngredients : list string)
  : list string :=
  match requestedIngredients with
  | [] => validatedIngredients
  | requestedName :: rest =>
      match findIngredientInInventory requestedName inventory with
      | Some found =>
          let normalizedFound := normalizeIngredientName (Ingredient.name found) in
          if existsb (fun v => normalizeIngredientName v =? normalizedFound)
                     validatedIngredients
          then validateIngredients rest inventory validatedIngredients
          else validateIngredients rest inventory
                 (validatedIngredients ++ [Ingredient.name found])
      | None => validateIngredients rest inventory validatedIngredients
      end
  end.

(* ================================================================== *)
(** ** Order ledger: the updaters handed to [setOrders] *)
(* ================================================================== *)

(** [handlePickUp] (lines 1083-1088). *)
Definition pickUp (orderId : string) (prev : list Order.t) : list Order.t :=
  map (fun order =>
         if Order.id order =? orderId
         then Order.with_status in_progress order
         else order)
      prev.

(** [handleCookBatchWithGemini] (lines 1107-1110). *)
Definition pickUpBatch (selectedOrders prev : list Order.t) : list Order.t :=
  map (fun order =>
         if existsb (fun so => Order.id so =? Order.id order) selectedOrders
         then Order.with_status in_progress order
         else order)
      prev.

(** [handlePass] (lines 1157-1161). *)
Definition passOrders (prev : list Order.t) : list Order.t :=
  map (fun order =>
         if status_eqb (Order.status order) in_progress
         then Order.make (Order.id order) (Order.name order) (Order.emoji order)
                (Order.difficulty order) failed (Some "Vanished")
         else order)
      prev.

(** The verification agent's success update (line 1043). *)
Definition completeOrder (orderId servedEmoji servedDishName : string)
    (prev : list Order.t) : list Order.t :=
  map (fun o =>
         if Order.id o =? orderId
         then Order.make (Order.id o) (Order.name o) servedEmoji
                (Order.difficulty o) completed (Some servedDishName)
         else o)
      prev.

(** [handlePerformClearSummary] (line 1152). *)
Definition clearSummary (prev : list Order.t) : list Order.t :=
  filter (fun order =>
            negb (status_eqb (Order.status order) completed)
            && negb (status_eqb (Order.status order) failed))
         prev.

(** [handleAddOrder] (lines 1136-1145); [now] is [Date.now()]. *)
Definition addOrder (now : N) (orderName : string) (prev : list Order.t)
  : list Order.t :=
  prev ++ [Order.make ("order-" ++ Js.of_N now) orderName "📜" intermediate
             not_started None].

Definition inProgress (orders : list Order.t) : list Order.t :=
  filter (fun o => status_eqb (Order.status o) in_progress) orders.

(* ================================================================== *)
(** ** Messages exchanged with the agent chat session *)
(* ================================================================== *)

Module ToolResponse.
(** The [response] object of a [functionResponse] part. *)
Record t : Type := make
  { success : bool;
    message : option string;
    error : option string;
    result : option string;
    emoji : option string }.

Definition succeeded (message : string) : t :=
  make true (Some message) None None None.
Definition produced (result emoji : string) : t :=
  make true None None (Some result) (Some emoji).
Definition failure (error : string) : t :=
  make false None (Some error) None None.
End ToolResponse.

(** One part of a message handed to [sendMessage]. *)
Inductive Part : Type :=
| textPart (text : string)
| functionResponse (name : string) (response : ToolResponse.t).

Module Args.
Record t : Type := make
  { ingredients : option (list string); dish : option string }.
Definition empty : t := make None None.
End Args.

Module FunctionCall.
Record t : Type := make { name : option string; args : option Args.t }.
End FunctionCall.

(* ================================================================== *)
(** ** The world: React state, refs and the record of interactions *)
(* ================================================================== *)

(** What the program did to the outside world, in order.  [trace] is ghost
    state: the program never reads it. *)
Inductive Event : Type :=
| TimelineAppended (entry : TimelineEntry.t)
| ResolverInvoked (action : KitchenAction.t) (ingredientNames : list string)
| ContentRequested (prompt : string)
| MessageSent (parts : list Part).

(** The state of [KitchenAppContainer] (lines 1064-1081), the ref of the
    cooking agent (line 848), the number of interactions with the outside
    world so far and their record.  A ref to a function is [true] when the
    component that provides the function is mounted. *)
Record World : Type := mkWorld
  { inventory : list Ingredient.t;
    selectedIngredients : list string;
    timeline : list TimelineEntry.t;
    activeAction : option string;
    actionTriggerCount : nat;
    activeIngredients : list string;
    orders : list Order.t;
    isCooking : bool;
    pendingTextRef : option string;
    executeCombinationRef : bool;
    verifyServedDishRef : bool;
    sendCookingMessageRef : bool;
    tick : nat;
    trace : list Event }.

Definition update_inventory (f : list Ingredient.t -> list Ingredient.t) (w : World) : World :=
  mkWorld (f (inventory w)) (selectedIngredients w) (timeline w)
      (activeAction w) (actionTriggerCount w) (activeIngredients w)
      (orders w) (isCooking w) (pendingTextRef w) (executeCombinationRef w)
      (verifyServedDishRef w) (sendCookingMessageRef w) (tick w) (trace w).

Definition update_selectedIngredients (f : list string -> list string) (w : World) : World :=
  mkWorld (inventory w) (f (selectedIngredients w)) (timeline w)
      (activeAction w) (actionTriggerCount w) (activeIngredients w)
      (orders w) (isCooking w) (pendingTextRef w) (executeCombinationRef w)
      (verifyServedDishRef w) (sendCookingMessageRef w) (tick w) (trace w).

Definition update_timeline (f : list TimelineEntry.t -> list TimelineEntry.t) (w : World) : World :=
  mkWorld (inventory w) (selectedIngredients w) (f (timeline w))
      (activeAction w) (actionTriggerCount w) (activeIngredients w)
      (orders w) (isCooking w) (pendingTextRef w) (executeCombinationRef w)
      (verifyServedDishRef w) (sendCookingMessageRef w) (tick w) (trace w).

Definition update_activeAction (f : option string -> option string) (w : World) : World :=
  mkWorld (inventory w) (selectedIngredients w) (timeline w)
      (f (activeAction w)) (actionTriggerCount w) (activeIngredients w)
      (orders w) (isCooking w) (pendingTextRef w) (executeCombinationRef w)
      (verifyServedDishRef w) (sendCookingMessageRef w) (tick w) (trace w).

Definition update_actionTriggerCount (f : nat -> nat) (w : World) : World :=
  mkWorld (inventory w) (selectedIngredients w) (timeline w)
      (activeAction w) (f (actionTriggerCount w)) (activeIngredients w)
      (orders w) (isCooking w) (pendingTextRef w) (executeCombinationRef w)
      (verifyServedDishRef w) (sendCookingMessageRef w) (tick w) (trace w).

Definition update_activeIngredients (f : list string -> list string) (w : World) : World :=
  mkWorld (inventory w) (selectedIngredients w) (timeline w)
      (activeAction w) (actionTriggerCount w) (f (activeIngredients w))
      (orders w) (isCooking w) (pendingTextRef w) (executeCombinationRef w)
      (verifyServedDishRef w) (sendCookingMessageRef w) (tick w) (trace w).

Definition update_orders (f : list Order.t -> list Order.t) (w : World) : World :=
  mkWorld (inventory w) (selectedIngredients w) (timeline w)
      (activeAction w) (actionTriggerCount w) (activeIngredients w)
      (f (orders w)) (isCooking w) (pendingTextRef w)
      (executeCombinationRef w) (verifyServedDishRef w)
      (sendCookingMessageRef w) (tick w) (trace w).

Definition update_isCooking (f : bool -> bool) (w : World) : World :=
  mkWorld (inventory w) (selectedIngredients w) (timeline w)
      (activeAction w) (actionTriggerCount w) (activeIngredients w)
      (orders w) (f (isCooking w)) (pendingTextRef w)
      (executeCombinationRef w) (verifyServedDishRef w)
      (sendCookingMessageRef w) (tick w) (trace w).

Definition update_pendingTextRef (f : option string -> option string) (w : World) : World :=
  mkWorld (inventory w) (selectedIngredients w) (timeline w)
      (activeAction w) (actionTriggerCount w) (activeIngredients w)
      (orders w) (isCooking w) (f (pendingTextRef w))
      (executeCombinationRef w) (verifyServedDishRef w)
      (sendCookingMessageRef w) (tick w) (trace w).

Definition update_executeCombinationRef (f : bool -> bool) (w : World) : World :=
  mkWorld (inventory w) (selectedIngredients w) (timeline w)
      (activeAction w) (actionTriggerCount w) (activeIngredients w)
      (orders w) (isCooking w) (pendingTextRef w)
      (f (executeCombinationRef w)) (verifyServedDishRef w)
      (sendCookingMessageRef w) (tick w) (trace w).

Definition update_verifyServedDishRef (f : bool -> bool) (w : World) : World :=
  mkWorld (inventory w) (selectedIngredients w) (timeline w)
      (activeAction w) (actionTriggerCount w) (activeIngredients w)
      (orders w) (isCooking w) (pendingTextRef w) (executeCombinationRef w)
      (f (verifyServedDishRef w)) (sendCookingMessageRef w) (tick w)
      (trace w).

Definition update_sendCookingMessageRef (f : bool -> bool) (w : World) : World :=
  mkWorld (inventory w) (selectedIngredients w) (timeline w)
      (activeAction w) (actionTriggerCount w) (activeIngredients w)
      (orders w) (isCooking w) (pendingTextRef w) (executeCombinationRef w)
      (verifyServedDishRef w) (f (sendCookingMessageRef w)) (tick w)
      (trace w).

Definition update_tick (f : nat -> nat) (w : World) : World :=
  mkWorld (inventory w) (selectedIngredients w) (timeline w)
      (activeAction w) (actionTriggerCount w) (activeIngredients w)
      (orders w) (isCooking w) (pendingTextRef w) (executeCombinationRef w)
      (verifyServedDishRef w) (sendCookingMessageRef w) (f (tick w))
      (trace w).

Definition update_trace (f : list Event -> list Event) (w : World) : World :=
  mkWorld (inventory w) (selectedIngredients w) (timeline w)
      (activeAction w) (actionTriggerCount w) (activeIngredients w)
      (orders w) (isCooking w) (pendingTextRef w) (executeCombinationRef w)
      (verifyServedDishRef w) (sendCookingMessageRef w) (tick w)
      (f (trace w)).

(* ================================================================== *)
(** ** Asynchronous computations *)
(* ================================================================== *)

(** How a call ends: with a value, or with a thrown error (a rejected
    promise), of which [String(error)] is kept. *)
Inductive Completion (A : Type) : Type :=
| Returned (value : A)
| Threw (error : string).
Arguments Returned {A} value.
Arguments Threw {A} error.

(** The outside world.  Each oracle is asked with the number of
    interactions made before the call, so an oracle may answer the same
    question differently each time.
    - [clock]: [Date.now()] and [new Date()], in milliseconds.
    - [combination]: [generateContent] followed by [JSON.parse] in the
      combination agent, for a prompt; [Threw] is a rejected call or a text
      that does not parse, and a parsed reply has the fields of its
      TypeScript interface.
    - [verification]: the same in the verification agent.
    - [delivery]: whether [sendMessage] resolves or rejects. *)
Record Env : Type := mkEnv
  { clock : nat -> N;
    combination : nat -> string -> Completion CombinationResult.t;
    verification : nat -> string -> Completion VerificationResult.t;
    delivery : nat -> list Part -> Completion unit }.

Definition M (A : Type) : Type := World -> Completion A * World.

Definition ret {A} (a : A) : M A := fun w => (Returned a, w).

Definition bind {A B} (m : M A) (k : A -> M B) : M B :=
  fun w =>
    match m w with
    | (Returned a, w') => k a w'
    | (Threw e, w') => (Threw e, w')
    end.

Declare Scope kitchen_scope.
Delimit Scope kitchen_scope with kitchen.
Notation "x <- m ;; k" := (bind m (fun x => k))
  (at level 61, m at next level, right associativity) : kitchen_scope.
Notation "m ;; k" := (bind m (fun _ => k))
  (at level 61, right associativity) : kitchen_scope.
Local Open Scope kitchen_scope.

(** [try { body } catch (error) { handler }] *)
Definition try_catch {A} (body : M A) (handler : string -> M A) : M A :=
  fun w =>
    match body w with
    | (Returned a, w') => (Returned a, w')
    | (Threw e, w') => handler e w'
    end.

(** [try { body } finally { cleanup }] *)
Definition try_finally {A} (body : M A) (cleanup : M unit) : M A :=
  fun w =>
    match body w with
    | (r, w') =>
        match cleanup w' with
        | (Returned _, w'') => (r, w'')
        | (Threw e, w'') => (Threw e, w'')
        end
    end.

(** A promise that is not awaited: its rejection does not reach the
    caller. *)
Definition detached {A} (m : M A) : M unit :=
  fun w => (Returned tt, snd (m w)).

Definition gets {A} (f : World -> A) : M A := fun w => (Returned (f w), w).

Definition modify (f : World -> World) : M unit := fun w => (Returned tt, f w).

Definition interact (ev : list Event) (w : World) : World :=
  update_trace (fun t => t ++ ev) (update_tick S w).

(** The prompt of [executeCombination] (line 432). *)
Definition combinationPrompt (action : KitchenAction.t)
    (ingredientNames : list string) : string :=
  "Action: " ++ KitchenAction.displayName action ++ Js.newline
  ++ "Ingredients: " ++ Js.join ", " ingredientNames
  ++ Js.newline ++ Js.newline
  ++ "What is the result in South Indian cuisine?".

(** The prompt of the verification loop (line 1033). *)
Definition verificationPrompt (order : Order.t) (servedDishName : string)
  : string :=
  "Order: " ++ Js.dquote ++ Order.name order ++ Js.dquote ++ Js.newline
  ++ "Served: " ++ Js.dquote ++ servedDishName ++ Js.dquote
  ++ Js.newline ++ Js.newline
  ++ "Is this valid South Indian cuisine?".

Section Kitchen.

Variable env : Env.

(** [Date.now()], also [new Date()]. *)
Definition Date_now : M N :=
  fun w => (Returned (clock env (tick w)), interact [] w).

Definition generateCombination (prompt : string) : M CombinationResult.t :=
  fun w => (combination env (tick w) prompt,
            interact [ContentRequested prompt] w).

Definition generateVerification (prompt : string) : M VerificationResult.t :=
  fun w => (verification env (tick w) prompt,
            interact [ContentRequested prompt] w).

Definition sendMessage (parts : list Part) : M unit :=
  fun w => (delivery env (tick w) parts, interact [MessageSent parts] w).

(** *** State setters *)

Definition setInventory f : M unit := modify (update_inventory f).
Definition setSelectedIngredients v : M unit :=
  modify (update_selectedIngredients (fun _ => v)).
Definition setActiveAction v : M unit :=
  modify (update_activeAction (fun _ => v)).
Definition setActionTriggerCount f : M unit :=
  modify (update_actionTriggerCount f).
Definition setActiveIngredients v : M unit :=
  modify (update_activeIngredients (fun _ => v)).
Definition setOrders f : M unit := modify (update_orders f).
Definition setIsCooking v : M unit := modify (update_isCooking (fun _ => v)).

(** [setTimeline(prev => [...prev, entry])] *)
Definition appendTimeline (entry : TimelineEntry.t) : M unit :=
  modify (fun w =>
            update_trace (fun t => t ++ [TimelineAppended entry])
              (update_timeline (fun prev => prev ++ [entry]) w)).

(** [setTimeline(prev => prev.map(entry => entry.id === timelineId
    ? { ...entry, result } : entry))] *)
Definition completeEntry (timelineId : string) (result : Ingredient.t)
    (prev : list TimelineEntry.t) : list TimelineEntry.t :=
  map (fun entry =>
         if TimelineEntry.id entry =? timelineId
         then TimelineEntry.with_result result entry
         else entry)
      prev.

Definition completeTimeline (timelineId : string) (result : Ingredient.t)
  : M unit :=
  modify (update_timeline (completeEntry timelineId result)).

(** A narration entry as the verification agent and the manual serve
    write it: [{ id, type: 'text', action: '', ingredients: [],
    result: null, text, timestamp }]. *)
Definition narration (id : string) (text : string) (timestamp : N)
  : TimelineEntry.t :=
  TimelineEntry.make id timestamp (Some "text") (Some text)
    (Some EmptyString) (Some []) Pending.

(** A narration entry as the cooking agent writes it:
    [{ id, timestamp, text }]. *)
Definition note (id : string) (timestamp : N) (text : string)
  : TimelineEntry.t :=
  TimelineEntry.make id timestamp None (Some text) None None Absent.

Definition errorIngredient : Ingredient.t := Ingredient.make "error" "❌".

(** *** Combination agent *)

(** [executeCombination] (lines 427-450). *)
Definition executeCombination (action : KitchenAction.t)
    (ingredientNames : list string) : M (option Ingredient.t) :=
  modify (update_trace (fun t => t ++ [ResolverInvoked action ingredientNames])) ;;
  try_catch
    (let prompt := combinationPrompt action ingredientNames in
     result <- generateCombination prompt ;;
     ret (Some (Ingredient.make (CombinationResult.result_name result)
                  (CombinationResult.emoji result))))
    (fun error => ret None).

(** *** Verification agent *)

Definition accepted (result : VerificationResult.t) : bool :=
  VerificationResult.matches result
  && PrimFloat.ltb 0.7%float (VerificationResult.confidence result).

(** One turn of the loop of [verifyServedDishRef.current] (lines
    1031-1048): [true] when the turn returned [true] from the function,
    [false] when the loop goes on. *)
Definition verifyOrder (servedDishName : string) (order : Order.t) : M bool :=
  try_catch
    (let prompt := verificationPrompt order servedDishName in
     result <- generateVerification prompt ;;
     if accepted result then
       inventoryRef <- gets inventory ;;
       let servedIngredient :=
         findIngredientInInventory servedDishName inventoryRef in
       let servedEmoji :=
         Js.or_else (option_map Ingredient.emoji servedIngredient) "✅" in
       setOrders (completeOrder (Order.id order) servedEmoji servedDishName) ;;
       now <- Date_now ;;
       timestamp <- Date_now ;;
       appendTimeline
         (narration ("verify-" ++ Js.of_N now)
            ("✅ Delicious! " ++ Js.dquote ++ servedDishName ++ Js.dquote
             ++ " is a perfect match for " ++ Js.dquote ++ Order.name order
             ++ Js.dquote ++ ".")
            timestamp) ;;
       ret true
     else ret false)
    (fun error => ret false).

Fixpoint verifyLoop (servedDishName : string) (inProgressOrders : list Order.t)
  : M bool :=
  match inProgressOrders with
  | [] =>
      now <- Date_now ;;
      timestamp <- Date_now ;;
      appendTimeline
        (narration ("verify-fail-" ++ Js.of_N now)
           "❌ That's not part of the current feast!" timestamp) ;;
      ret false
  | order :: rest =>
      matched <- verifyOrder servedDishName order ;;
      if matched then ret true else verifyLoop servedDishName rest
  end.

(** [verifyServedDishRef.current] (lines 1021-1052). *)
Definition verifyServedDish (servedDishName : string) : M bool :=
  currentOrders <- gets orders ;;
  let inProgressOrders := inProgress currentOrders in
  if (length inProgressOrders =? 0)%nat then
    now <- Date_now ;;
    timestamp <- Date_now ;;
    appendTimeline
      (narration ("verify-noorder-" ++ Js.of_N now)
         ("✅ Served " ++ Js.dquote ++ servedDishName ++ Js.dquote)
         timestamp) ;;
    ret true
  else verifyLoop servedDishName inProgressOrders.

(** *** Container callbacks *)

(** [handleVerifyServedDish] (lines 1121-1134). *)
Definition handleVerifyServedDish (servedDishName : string) : M bool :=
  wired <- gets verifyServedDishRef ;;
  if wired then
    result <- verifyServedDish servedDishName ;;
    currentOrders <- gets orders ;;
    (if (length (inProgress currentOrders) =? 0)%nat
     then setIsCooking false else ret tt) ;;
    ret result
  else
    setIsCooking false ;;
    ret false.

(** [handlePickUp] (lines 1083-1088). *)
Definition handlePickUp (orderId : string) : M unit :=
  setOrders (pickUp orderId).

(** [sendCookingMessageRef.current], when set (lines 976-978). *)
Definition sendCookingMessage (message : string) : M unit :=
  wired <- gets sendCookingMessageRef ;;
  if wired then detached (sendMessage [textPart message]) else ret tt.

(** [handleCookWithGemini] (lines 1090-1103); the panel that opens on a
    wide window is presentation and is left out. *)
Definition handleCookWithGemini (order : Order.t) : M unit :=
  (if status_eqb (Order.status order) not_started
   then handlePickUp (Order.id order) else ret tt) ;;
  setIsCooking true ;;
  sendCookingMessage ("Please prepare: " ++ Order.name order).

(** [handleCookBatchWithGemini] (lines 1105-1119), without the panel. *)
Definition handleCookBatchWithGemini (selectedOrders : list Order.t) : M unit :=
  setOrders (pickUpBatch selectedOrders) ;;
  setIsCooking true ;;
  sendCookingMessage
    ("Vanakkam! Today we are preparing a grand feast! Please prepare the following items in sequence or together: "
     ++ Js.join ", " (map Order.name selectedOrders)
     ++ ". Serve each one on the banana leaf when ready.").

(** [handlePass] (lines 1156-1163). *)
Definition handlePass : M unit :=
  setOrders passOrders ;;
  setIsCooking false.

(** *** Manual cooking: [executeAction] (lines 459-516) *)

Definition executeAction (action : KitchenAction.t) : M unit :=
  selected <- gets selectedIngredients ;;
  if (length selected =? 0)%nat then ret tt
  else
    let ingredientNames := selected in
    setSelectedIngredients [] ;;
    if KitchenAction.name action =? "serve_on_leaf" then
      let dishName := hd EmptyString ingredientNames in
      now <- Date_now ;;
      timestamp <- Date_now ;;
      appendTimeline
        (narration ("serve-" ++ Js.of_N now)
           ("🍽️ Served on Banana Leaf: " ++ dishName) timestamp) ;;
      detached (handleVerifyServedDish dishName)
    else
      now <- Date_now ;;
      let timelineId := Js.of_N now in
      timestamp <- Date_now ;;
      let loadingEntry :=
        TimelineEntry.make timelineId timestamp None None
          (Some (KitchenAction.name action)) (Some ingredientNames) Pending in
      appendTimeline loadingEntry ;;
      setActiveAction (Some (KitchenAction.name action)) ;;
      newIngredient <- executeCombination action ingredientNames ;;
      match newIngredient with
      | Some newIngredient =>
          completeTimeline timelineId newIngredient ;;
          setInventory (insertIngredient newIngredient)
      | None => completeTimeline timelineId errorIngredient
      end ;;
      setActiveAction None.

(** *** Cooking agent: [handleApprovedFunctionCalls] (lines 873-970) *)

(** The [try] block (lines 943-962). *)
Definition applyCombination (actionName timelineId : string)
    (action : KitchenAction.t) (validatedIngredients : list string) : M unit :=
  wired <- gets executeCombinationRef ;;
  newIngredient <-
    (if wired then executeCombination action validatedIngredients
     else ret None) ;;
  let newIngredient :=
    match newIngredient with
    | Some i => i
    | None =>
        Ingredient.make (KitchenAction.displayName action ++ "ed items")
          (KitchenAction.emoji action)
    end in
  completeTimeline timelineId newIngredient ;;
  setInventory (insertIngredient newIngredient) ;;
  sendMessage
    [functionResponse actionName
       (ToolResponse.produced (Ingredient.name newIngredient)
          (Ingredient.emoji newIngredient))].

(** The [catch] block (lines 963-965). *)
Definition reportFailure (actionName timelineId error : string) : M unit :=
  completeTimeline timelineId errorIngredient ;;
  sendMessage [functionResponse actionName (ToolResponse.failure error)].

(** The [finally] block (lines 966-969). *)
Definition releaseAction : M unit :=
  setActiveAction None ;;
  setActiveIngredients [].

(** Validation and execution of a regular action (lines 910-969). *)
Definition cookAction (actionName timelineId : string)
    (action : KitchenAction.t) (requestedIngredients : list string) : M unit :=
  inventory <- gets inventory ;;
  let validatedIngredients :=
    validateIngredients requestedIngredients inventory [] in
  if (length validatedIngredients =? 0)%nat
     && (0 <? length requestedIngredients)%nat
  then
    sendMessage
      [functionResponse actionName
         (ToolResponse.failure "Ingredients missing from pantry.")]
  else
    pendingText <- gets pendingTextRef ;;
    modify (update_pendingTextRef (fun _ => None)) ;;
    timestamp <- Date_now ;;
    let loadingEntry :=
      TimelineEntry.make timelineId timestamp None
        (Js.or_undefined pendingText) (Some actionName)
        (Some validatedIngredients) Pending in
    appendTimeline loadingEntry ;;
    setActiveAction (Some actionName) ;;
    setActionTriggerCount S ;;
    setActiveIngredients validatedIngredients ;;
    try_finally
      (try_catch
         (applyCombination actionName timelineId action validatedIngredients)
         (reportFailure actionName timelineId))
      releaseAction.

Definition handleApprovedFunctionCalls (functionCalls : list FunctionCall.t)
  : M unit :=
  match functionCalls with
  | [] => ret tt
  | fc :: _ =>
      let actionName := Js.or_else (FunctionCall.name fc) EmptyString in
      let args :=
        match FunctionCall.args fc with
        | Some a => a
        | None => Args.empty
        end in
      if actionName =? "serve_on_leaf" then
        let dishName := Js.or_else (Args.dish args) "dish" in
        now <- Date_now ;;
        timestamp <- Date_now ;;
        appendTimeline
          (note ("serve-" ++ Js.of_N now) timestamp
             ("🍽️ Serving on Banana Leaf: " ++ dishName)) ;;
        verificationSuccess <- handleVerifyServedDish dishName ;;
        sendMessage
          [functionResponse "serve_on_leaf"
             (if verificationSuccess
              then ToolResponse.succeeded
                     (dishName ++ " served! Romba nalla iruku!")
              else ToolResponse.failure
                     (dishName ++ " is not what was ordered. Try again!"))]
      else if actionName =? "pass" then
        handlePass ;;
        now <- Date_now ;;
        timestamp <- Date_now ;;
        appendTimeline
          (note ("pass-" ++ Js.of_N now) timestamp "🏳️ Gave up on the order") ;;
        sendMessage
          [functionResponse "pass" (ToolResponse.succeeded "Order abandoned.")]
      else
        let requestedIngredients :=
          match Args.ingredients args with
          | Some l => l
          | None => []
          end in
        now <- Date_now ;;
        let timelineId := ("cooking-" ++ Js.of_N now)%string in
        match find (fun a => KitchenAction.name a =? actionName)
                   COOKING_ACTIONS with
        | None =>
            sendMessage
              [functionResponse actionName
                 (ToolResponse.failure ("Unknown action: " ++ actionName))]
        | Some action =>
            cookAction actionName timelineId action requestedIngredients
        end
  end.

End Kitchen.

(* ================================================================== *)
(** ** Vocabulary of the statements *)
(* ================================================================== *)

(** Every character of [s] is in the class [p]. *)
Fixpoint all_chars (p : ascii -> bool) (s : string) : bool :=
  match s with
  | EmptyString => true
  | String c r => p c && all_chars p r
  end.

Definition is_ascii (c : ascii) : bool := (nat_of_ascii c <? 128)%nat.

(** [/[a-zA-Z0-9]/] *)
Definition is_alnum (c : ascii) : bool :=
  Js.is_lower c || Js.is_upper c || Js.is_digit c.

Fixpoint map_chars (f : ascii -> ascii) (s : string) : string :=
  match s with
  | EmptyString => EmptyString
  | String c r => String (f c) (map_chars f r)
  end.

(** The canonical key of an ingredient. *)
Definition key (i : Ingredient.t) : string :=
  normalizeIngredientName (Ingredient.name i).

(** No two entries of the inventory have colliding normalized names. *)
Definition collision_free (inventory : list Ingredient.t) : Prop :=
  NoDup (map key inventory).

(** The state of [KitchenAppContainer] at start-up, with the three agents
    mounted. *)
Definition initialWorld : World :=
  mkWorld STARTING_INGREDIENTS [] [] None 0 [] EXAMPLE_ORDERS false None
    true true true 0 [].

(** The verification service's answer does not accept the order: the call
    threw, or the result is not a match above the threshold. *)
Definition declined (c : Completion VerificationResult.t) : bool :=
  match c with
  | Returned r => negb (accepted r)
  | Threw _ => true
  end.

(** Asked about the orders of [l] one after the other, from interaction
    [t] on, the verification service accepts none. *)
Fixpoint allDeclined (env : Env) (servedDishName : string) (t : nat)
    (l : list Order.t) : bool :=
  match l with
  | [] => true
  | o :: r =>
      declined (verification env t (verificationPrompt o servedDishName))
      && allDeclined env servedDishName (S t) r
  end.

(** An answer of the verification service that the matcher is to pass
    over, by the fields of the reply: the call threw, or the reply reports
    no match, or its confidence is 0.7 or less. *)
Definition passedOver (c : Completion VerificationResult.t) : Prop :=
  match c with
  | Returned r =>
      VerificationResult.matches r = false
      \/ PrimFloat.leb (VerificationResult.confidence r) 0.7%float = true
  | Threw _ => True
  end.

(** The world after the verification service was asked about the orders of
    [l] and nothing else happened. *)
Definition asked (servedDishName : string) (l : list Order.t) (w : World)
  : World :=
  fold_left
    (fun w o =>
       interact [ContentRequested (verificationPrompt o servedDishName)] w)
    l w.

(** A regular action of the catalog: neither the serve nor the abandon
    pseudo-action. *)
Definition regularAction (actionName : string) (action : KitchenAction.t)
  : Prop :=
  (actionName =? "serve_on_leaf") = false
  /\ (actionName =? "pass") = false
  /\ find (fun a => KitchenAction.name a =? actionName) COOKING_ACTIONS
     = Some action.

(** What [handlePass] makes of an order that is in progress. *)
Definition vanished (o : Order.t) : Order.t :=
  Order.make (Order.id o) (Order.name o) (Order.emoji o) (Order.difficulty o)
    failed (Some "Vanished").

(** What the verification agent makes of the order it accepts. *)
Definition served (servedEmoji servedDishName : string) (o : Order.t)
  : Order.t :=
  Order.make (Order.id o) (Order.name o) servedEmoji (Order.difficulty o)
    completed (Some servedDishName).

(** [args.ingredients || []], where [args] is [fc.args || {}]. *)
Definition requested (args : option Args.t) : list string :=
  match args with
  | Some a =>
      match Args.ingredients a with
      | Some l => l
      | None => []
      end
  | None => []
  end.

(** The id the dispatcher gives to the timeline entry of a regular action
    that arrives in world [w]. *)
Definition cookingId (env : Env) (w : World) : string :=
  "cooking-" ++ Js.of_N (clock env (tick w)).

(** The pending entry the dispatcher appends for a regular action that
    arrives in world [w]. *)
Definition pendingEntry (env : Env) (w : World) (actionName : string)
    (validatedIngredients : list string) : TimelineEntry.t :=
  TimelineEntry.make (cookingId env w) (clock env (S (tick w))) None
    (Js.or_undefined (pendingTextRef w)) (Some actionName)
    (Some validatedIngredients) Pending.

(** The ingredient the dispatcher makes up when the resolver gives none. *)
Definition fallbackIngredient (action : KitchenAction.t) : Ingredient.t :=
  Ingredient.make (KitchenAction.displayName action ++ "ed items")
    (KitchenAction.emoji action).

(** What [executeCombination] returns when the completion service is asked
    at interaction [t]: the decoded ingredient, or [null] when the call
    threw. *)
Definition resolved (env : Env) (action : KitchenAction.t)
    (ingredientNames : list string) (t : nat) : option Ingredient.t :=
  match combination env t (combinationPrompt action ingredientNames) with
  | Returned r =>
      Some (Ingredient.make (CombinationResult.result_name r)
              (CombinationResult.emoji r))
  | Threw _ => None
  end.

(** The world after [executeCombination]: only the record of interactions
    has grown. *)
Definition afterResolver (action : KitchenAction.t)
    (ingredientNames : list string) (w : World) : World :=
  interact [ContentRequested (combinationPrompt action ingredientNames)]
    (update_trace (fun t => t ++ [ResolverInvoked action ingredientNames]) w).

(** The world in which the [try] block of a regular action starts: the
    pending text is consumed, the pending entry is appended and the action
    is marked active.  [w] is the world in which the call arrived. *)
Definition started (env : Env) (w : World) (actionName : string)
    (validatedIngredients : list string) : World :=
  update_activeIngredients (fun _ => validatedIngredients)
    (update_actionTriggerCount S
       (update_activeAction (fun _ => Some actionName)
          (update_trace
             (fun t => t ++ [TimelineAppended
                               (pendingEntry env w actionName validatedIngredients)])
             (update_timeline
                (fun prev => prev ++ [pendingEntry env w actionName
                                        validatedIngredients])
                (interact []
                   (update_pendingTextRef (fun _ => None) (interact [] w))))))).

(** The response that reports a produced ingredient. *)
Definition producedReply (actionName : string) (i : Ingredient.t) : list Part :=
  [functionResponse actionName
     (ToolResponse.produced (Ingredient.name i) (Ingredient.emoji i))].

(** The pending entry [executeAction] appends for the ingredients selected
    in world [w]. *)
Definition manualEntry (env : Env) (w : World) (action : KitchenAction.t)
  : TimelineEntry.t :=
  TimelineEntry.make (Js.of_N (clock env (tick w))) (clock env (S (tick w)))
    None None (Some (KitchenAction.name action)) (Some (selectedIngredients w))
    Pending.

(** The emoji the verification agent gives to a completed order: that of
    the served dish when the inventory holds it, a check mark otherwise. *)
Definition servedEmoji (servedDishName : string)
    (inventory : list Ingredient.t) : string :=
  Js.or_else
    (option_map Ingredient.emoji
       (findIngredientInInventory servedDishName inventory))
    "✅".

(** The narration of a match, written after the service was asked at
    interaction [t]. *)
Definition matchNarration (env : Env) (t : nat) (servedDishName : string)
    (order : Order.t) : TimelineEntry.t :=
  narration ("verify-" ++ Js.of_N (clock env (S t)))
    ("✅ Delicious! " ++ Js.dquote ++ servedDishName ++ Js.dquote
     ++ " is a perfect match for " ++ Js.dquote ++ Order.name order
     ++ Js.dquote ++ ".")
    (clock env (S (S t))).

(** The world after the service, asked in world [w], accepted [order]: the
    order is completed and the match is narrated. *)
Definition matchedWorld (env : Env) (servedDishName : string)
    (order : Order.t) (w : World) : World :=
  update_trace
    (fun t => t ++ [TimelineAppended
                      (matchNarration env (tick w) servedDishName order)])
    (update_timeline
       (fun prev => prev ++ [matchNarration env (tick w) servedDishName order])
       (interact []
          (interact []
             (update_orders
                (completeOrder (Order.id order)
                   (servedEmoji servedDishName (inventory w)) servedDishName)
                (interact
                   [ContentRequested (verificationPrompt order servedDishName)]
                   w))))).

(** The narration of a verification that matched no order, written from
    interaction [t] on. *)
Definition failNarration (env : Env) (t : nat) : TimelineEntry.t :=
  narration ("verify-fail-" ++ Js.of_N (clock env t))
    "❌ That's not part of the current feast!" (clock env (S t)).

(** The requests to the verification service for the orders of [l]. *)
Definition requests (servedDishName : string) (l : list Order.t) : list Event :=
  map (fun o => ContentRequested (verificationPrompt o servedDishName)) l.

Definition isCompleted (o : Order.t) : bool :=
  status_eqb (Order.status o) completed.

(** *** Sample environments and worlds *)

Definition wallClock (n : nat) : N := 1767225600000 + N.of_nat n.

(** The completion service is down; messages to the agent are delivered. *)
Definition offline : Env :=
  mkEnv wallClock
    (fun _ _ => Threw "Error: service unavailable")
    (fun _ _ => Threw "Error: service unavailable")
    (fun _ _ => Returned tt).

(** The judge of the specification's example: it reports a match with
    confidence 0.9 for the order "Filter Coffee" and no match otherwise. *)
Definition coffeeJudge : Env :=
  mkEnv wallClock
    (fun _ _ => Threw "Error: service unavailable")
    (fun _ prompt =>
       if prompt
          =? verificationPrompt
               (Order.make "order-1" "Filter Coffee" "☕" easy in_progress None)
               "Degree Coffee"
       then Returned (VerificationResult.make true 0.9%float "same drink")
       else Returned (VerificationResult.make false 0.1%float "another dish"))
    (fun _ _ => Returned tt).

Definition with_orders (l : list Order.t) (w : World) : World :=
  update_orders (fun _ => l) w.

(** A ledger with one order served, one in progress and one pending. *)
Definition sampleLedger : list Order.t :=
  [ Order.make "order-1" "Filter Coffee" "☕" easy completed
      (Some "Degree Coffee");
    Order.make "order-4" "Masala Dosa" "🥞" difficult in_progress None;
    Order.make "order-5" "Idly" "🥞" difficult not_started None ].

(** The ledger of the specification's verification example. *)
Definition feastLedger : list Order.t :=
  [ Order.make "order-1" "Filter Coffee" "☕" easy in_progress None;
    Order.make "order-4" "Masala Dosa" "🥞" difficult in_progress None;
    Order.make "order-5" "Idly" "🥞" difficult not_started None ].

(** A ledger with four orders in progress around a served one. *)
Definition banquetLedger : list Order.t :=
  [ Order.make "order-1" "Filter Coffee" "☕" easy in_progress None;
    Order.make "order-3" "Madras Fish Curry" "🥘" difficult completed
      (Some "Meen Kuzhambu");
    Order.make "order-4" "Masala Dosa" "🥞" difficult in_progress None;
    Order.make "order-2" "Ghee Roast Dosa" "🥞" intermediate in_progress None;
    Order.make "order-5" "Idly" "🥞" difficult in_progress None ].

(** A judge of "Neyyi Roast": for "Filter Coffee" it is sure there is no
    match, for "Masala Dosa" it reports a match with confidence 0.7 exactly,
    for "Ghee Roast Dosa" a match with confidence 0.9, and for any other
    order a match with confidence 0.99. *)
Definition strictJudge : Env :=
  mkEnv wallClock
    (fun _ _ => Threw "Error: service unavailable")
    (fun _ prompt =>
       if prompt
          =? verificationPrompt
               (Order.make "order-1" "Filter Coffee" "☕" easy in_progress None)
               "Neyyi Roast"
       then Returned (VerificationResult.make false 0.95%float "a drink")
       else if prompt
          =? verificationPrompt
               (Order.make "order-4" "Masala Dosa" "🥞" difficult in_progress
                  None)
               "Neyyi Roast"
       then Returned (VerificationResult.make true 0.7%float "maybe")
       else if prompt
          =? verificationPrompt
               (Order.make "order-2" "Ghee Roast Dosa" "🥞" intermediate
                  in_progress None)
               "Neyyi Roast"
       then Returned (VerificationResult.make true 0.9%float "same dosa")
       else Returned (VerificationResult.make true 0.99%float "anything goes"))
    (fun _ _ => Returned tt).

(* ================================================================== *)
(** ** The rest of the kitchen: log, selection, cards and tools *)
(* ================================================================== *)

(** The three-byte UTF-8 encodings of the white space of [String.prototype.trim]
    outside Latin-1: U+1680, U+2000 to U+200A, the line and paragraph
    separators U+2028 and U+2029, U+202F, U+205F, U+3000 and U+FEFF. *)
Definition is_space3 (c1 c2 c3 : ascii) : bool :=
  let b1 := nat_of_ascii c1 in
  let b2 := nat_of_ascii c2 in
  let b3 := nat_of_ascii c3 in
  ((b1 =? 225) && (b2 =? 154) && (b3 =? 128))%nat
  || ((b1 =? 226) && (b2 =? 128)
      && (((128 <=? b3) && (b3 <=? 138)) || (b3 =? 168) || (b3 =? 169)
          || (b3 =? 175)))%nat
  || ((b1 =? 226) && (b2 =? 129) && (b3 =? 159))%nat
  || ((b1 =? 227) && (b2 =? 128) && (b3 =? 128))%nat
  || ((b1 =? 239) && (b2 =? 187) && (b3 =? 191))%nat.

(** [s.trim()] is the empty string: [s] holds white space only (the ASCII
    white space, the no-break space U+00A0 and [is_space3]). *)
Fixpoint blank (s : string) : bool :=
  match s with
  | EmptyString => true
  | String c1 r1 =>
      if Js.is_space c1 then blank r1
      else
        match r1 with
        | String c2 r2 =>
            if ((nat_of_ascii c1 =? 194) && (nat_of_ascii c2 =? 160))%nat
            then blank r2
            else
              match r2 with
              | String c3 r3 => if is_space3 c1 c2 c3 then blank r3 else false
              | EmptyString => false
              end
        | EmptyString => false
        end
  end.

(** [s.trimStart()] *)
Fixpoint trimStart (s : string) : string :=
  match s with
  | EmptyString => EmptyString
  | String c1 r1 =>
      if Js.is_space c1 then trimStart r1
      else
        match r1 with
        | String c2 r2 =>
            if ((nat_of_ascii c1 =? 194) && (nat_of_ascii c2 =? 160))%nat
            then trimStart r2
            else
              match r2 with
              | String c3 r3 => if is_space3 c1 c2 c3 then trimStart r3 else s
              | EmptyString => s
              end
        | EmptyString => s
        end
  end.

(** [s.trimEnd()]: the text up to the point from which only white space
    follows. *)
Fixpoint trimEnd (s : string) : string :=
  match s with
  | EmptyString => EmptyString
  | String c r => if blank s then EmptyString else String c (trimEnd r)
  end.

(** [s.trim()] *)
Definition trim (s : string) : string := trimEnd (trimStart s).

(** A JavaScript [Set] of strings, as the list of its elements in insertion
    order: the updater of [toggleIngredient] (lines 407-415) and of
    [toggleOrderSelection] (lines 419-424). *)
Definition toggle (x : string) (prev : list string) : list string :=
  if existsb (String.eqb x) prev
  then filter (fun y => negb (y =? x)) prev
  else prev ++ [x].

(** [TimelineItem] (lines 126-128). *)
Definition hasAction (entry : TimelineEntry.t) : bool :=
  match TimelineEntry.action entry, TimelineEntry.ingredients entry with
  | Some (String _ _), Some _ => true
  | _, _ => false
  end.

Definition isLoading (entry : TimelineEntry.t) : bool :=
  hasAction entry
  && match TimelineEntry.result entry with
     | Pending => true
     | _ => false
     end.

(** [hasInProgressOrder] (line 602). *)
Definition hasInProgressOrder (orders : list Order.t) : bool :=
  existsb (fun o => status_eqb (Order.status o) in_progress) orders.

(** The [isDisabled] prop of an order card (line 609). *)
Definition isDisabled (selectionMode : bool) (orders : list Order.t)
    (order : Order.t) : bool :=
  negb selectionMode && hasInProgressOrder orders
  && status_eqb (Order.status order) not_started.

(** The card shows its two buttons (line 225). *)
Definition buttonsShown (selectionMode : bool) (order : Order.t) : bool :=
  negb selectionMode && status_eqb (Order.status order) not_started.

(** The toggle of the card itself (line 205), on the set of selected ids. *)
Definition clickCard (selectionMode : bool) (orders : list Order.t)
    (order : Order.t) (batchSelectedOrderIds : list string) : list string :=
  if selectionMode && status_eqb (Order.status order) not_started
     && negb (isDisabled selectionMode orders order)
  then toggle (Order.id order) batchSelectedOrderIds
  else batchSelectedOrderIds.

(** The declaration of a tool, as [generateCookingTools] builds it: the
    parameters are an object whose properties have a name, a type and a
    description. *)
Inductive ParameterType : Type := stringType | arrayOfStrings.

Module FunctionDeclaration.
Record t : Type := make
  { name : string;
    description : string;
    properties : list (string * ParameterType * string);
    required : list string }.
End FunctionDeclaration.

(** [generateCookingTools] (constants, lines 210-259): the function
    declarations. *)
Definition generateCookingTools : list FunctionDeclaration.t :=
  map (fun action =>
         if KitchenAction.name action =? "serve_on_leaf" then
           FunctionDeclaration.make "serve_on_leaf"
             (KitchenAction.emoji action
              ++ " Serve the final South Indian dish on a traditional banana leaf.")
             [("dish", stringType, "Exact name of the dish from inventory")]
             ["dish"]
         else if KitchenAction.name action =? "pass" then
           FunctionDeclaration.make "pass"
             (KitchenAction.emoji action
              ++ " Pass on the order if you lack regional ingredients or tools.")
             [] []
         else
           FunctionDeclaration.make (KitchenAction.name action)
             (KitchenAction.emoji action ++ " Perform the '"
              ++ KitchenAction.displayName action ++ "' regional technique.")
             [("ingredients", arrayOfStrings, "Regional ingredient names")]
             ["ingredients"])
      COOKING_ACTIONS.

(** A message of the agent session as [handleLog] reads it: its text, the
    parts of its first candidate (each with its function call, if any) and
    its [functionCalls]. *)
Module LogMessage.
Record t : Type := make
  { text : option string;
    parts : option (list (option FunctionCall.t));
    functionCalls : option (list FunctionCall.t) }.
End LogMessage.

Module Log.
Record t : Type := make
  { type : string; direction : string; message : option LogMessage.t }.
End Log.

(** [hasFunctionCalls] (line 857). *)
Definition hasFunctionCalls (response : LogMessage.t) : bool :=
  match LogMessage.parts response with
  | Some parts =>
      existsb (fun part => match part with Some _ => true | None => false end)
              parts
  | None => false
  end
  || match LogMessage.functionCalls response with
     | Some calls => (0 <? length calls)%nat
     | None => false
     end.

(** [prev.some(e => e.text === text && !e.action)] (line 862). *)
Definition alreadyNarrated (text : string) (prev : list TimelineEntry.t) : bool :=
  existsb (fun e =>
             match TimelineEntry.text e with
             | Some t => t =? text
             | None => false
             end
             && match TimelineEntry.action e with
                | Some (String _ _) => false
                | _ => true
                end)
          prev.

Section Surroundings.

Variable env : Env.

(** [handleLog] (lines 851-867).  [random] is [String(Math.random())]. *)
Definition handleLog (log : Log.t) (random : string) : M unit :=
  if negb (Log.type log =? "send-message")
     || negb (Log.direction log =? "receive")
  then ret tt
  else
    match Log.message log with
    | None => ret tt
    | Some response =>
        match LogMessage.text response with
        | None => ret tt
        | Some text =>
            if blank text then ret tt
            else if hasFunctionCalls response then
              modify (update_pendingTextRef (fun _ => Some text))
            else
              prev <- gets timeline ;;
              if alreadyNarrated text prev then ret tt
              else
                now <- Date_now env ;;
                timestamp <- Date_now env ;;
                appendTimeline
                  (note ("text-" ++ Js.of_N now ++ "-" ++ random) timestamp text)
        end
    end.

(** [toggleIngredient] (lines 406-416). *)
Definition toggleIngredient (name : string) : M unit :=
  modify (update_selectedIngredients (toggle name)).

(** [handleAddOrder] (lines 1136-1145). *)
Definition handleAddOrder (orderName : string) : M unit :=
  now <- Date_now env ;;
  setOrders (addOrder now orderName).

(** [handleSubmit] of the add-order card (lines 268-274); the card's own
    editing state is left out. *)
Definition handleSubmit (orderName : string) : M unit :=
  if blank orderName then ret tt else handleAddOrder (trim orderName).

(** [handlePerformClearSummary] (lines 1151-1154), without the dialog. *)
Definition handlePerformClearSummary : M unit := setOrders clearSummary.

(** A click on the card's Manual button (lines 227-233): the button exists
    when [buttonsShown] and reacts unless the card is disabled. *)
Definition clickManual (selectionMode : bool) (order : Order.t) : M unit :=
  orders <- gets orders ;;
  if buttonsShown selectionMode order
     && negb (isDisabled selectionMode orders order)
  then handlePickUp (Order.id order)
  else ret tt.

(** A click on the card's agent button (lines 234-241). *)
Definition clickCook (selectionMode : bool) (order : Order.t) : M unit :=
  orders <- gets orders ;;
  if buttonsShown selectionMode order
     && negb (isDisabled selectionMode orders order)
  then handleCookWithGemini env order
  else ret tt.

End Surroundings.

(* ================================================================== *)
(** ** Vocabulary of the invariants *)
(* ================================================================== *)

(** A timeline entry without its result. *)
Definition frame (e : TimelineEntry.t) : TimelineEntry.t :=
  TimelineEntry.make (TimelineEntry.id e) (TimelineEntry.timestamp e)
    (TimelineEntry.type e) (TimelineEntry.text e) (TimelineEntry.action e)
    (TimelineEntry.ingredients e) Absent.

(** The world [w'] continues the world [w]: the inventory has only grown at
    its head and is collision-free if it was; the orders are the same ones,
    by id; the timeline has only grown at its end, and its entries differ
    from the old ones in their result at most; the record of interactions
    has only grown, and time has not gone back. *)
Definition continues (w w' : World) : Prop :=
  (exists added, inventory w' = added ++ inventory w)
  /\ (collision_free (inventory w) -> collision_free (inventory w'))
  /\ map Order.id (orders w') = map Order.id (orders w)
  /\ (exists added,
         map frame (timeline w') = map frame (timeline w) ++ added)
  /\ (exists added, trace w' = trace w ++ added)
  /\ tick w <= tick w'.

(** The computation [m] takes every world to one that is related to it by
    [R]. *)
Definition keeps (R : World -> World -> Prop) {A} (m : M A) : Prop :=
  forall w, R w (snd (m w)).

(** Whatever [m] throws satisfies [P]. *)
Definition escapes (P : string -> Prop) {A} (m : M A) : Prop :=
  forall w e, fst (m w) = Threw e -> P e.

(** The error is one that [sendMessage] was rejected with. *)
Definition rejection (env : Env) (e : string) : Prop :=
  exists t parts, delivery env t parts = Threw e.

(** The ingredient a regular action that arrives in world [w] ends up
    with: the resolver's, or the fallback when the resolver gives none or
    is not mounted. *)
Definition cooked (env : Env) (w : World) (action : KitchenAction.t)
    (validatedIngredients : list string) : Ingredient.t :=
  match (if executeCombinationRef w
         then resolved env action validatedIngredients (S (S (tick w)))
         else None) with
  | Some i => i
  | None => fallbackIngredient action
  end.

(** The interaction at which the response of a regular action is sent. *)
Definition replyTick (w : World) : nat :=
  if executeCombinationRef w then S (S (S (tick w))) else S (S (tick w)).

(** The request of the call passes validation in world [w]. *)
Definition passesValidation (args : option Args.t) (w : World) : Prop :=
  validateIngredients (requested args) (inventory w) [] <> []
  \/ requested args = [].

(** The narration of a serve while no order is in progress, written in
    world [w]. *)
Definition freeServeNarration (env : Env) (w : World) (servedDishName : string)
  : TimelineEntry.t :=
  narration ("verify-noorder-" ++ Js.of_N (clock env (tick w)))
    ("✅ Served " ++ Js.dquote ++ servedDishName ++ Js.dquote)
    (clock env (S (tick w))).

(** The narration of the agent's serve call that arrives in world [w]. *)
Definition serveNote (env : Env) (w : World) (dishName : string)
  : TimelineEntry.t :=
  note ("serve-" ++ Js.of_N (clock env (tick w))) (clock env (S (tick w)))
    ("🍽️ Serving on Banana Leaf: " ++ dishName).

(** What the kitchen reacts to, with the callback that each event runs:
    the agent session's approved function calls and log messages, and the
    clicks on an action tile, an ingredient tile, a card's Manual and agent
    buttons and the batch button.  (Adding an order and clearing the
    summary change the set of orders and are left out.) *)
Inductive Callback : Type :=
| ApprovedFunctionCalls (functionCalls : list FunctionCall.t)
| LogReceived (log : Log.t) (random : string)
| ActionClicked (action : KitchenAction.t)
| IngredientClicked (name : string)
| ManualClicked (selectionMode : bool) (order : Order.t)
| CookClicked (selectionMode : bool) (order : Order.t)
| BatchClicked (selectedOrders : list Order.t).

Definition react (env : Env) (c : Callback) : M unit :=
  match c with
  | ApprovedFunctionCalls functionCalls =>
      handleApprovedFunctionCalls env functionCalls
  | LogReceived log random => handleLog env log random
  | ActionClicked action => executeAction env action
  | IngredientClicked name => toggleIngredient name
  | ManualClicked selectionMode order => clickManual selectionMode order
  | CookClicked selectionMode order => clickCook env selectionMode order
  | BatchClicked selectedOrders => handleCookBatchWithGemini env selectedOrders
  end.

(** The world after the events of [cs], one after the other; a callback
    that throws leaves the world as it was when it threw. *)
Definition reactAll (env : Env) (cs : list Callback) (w : World) : World :=
  fold_left (fun w c => snd (react env c w)) cs w.

(** The agent session is closed: every [sendMessage] is rejected; the
    completion service works and answers "Idli Batter". *)
Definition deafAgent : Env :=
  mkEnv wallClock
    (fun _ _ => Returned (CombinationResult.make "Idli Batter" "🥣"))
    (fun _ _ => Threw "Error: service unavailable")
    (fun _ _ => Threw "Error: session closed").

(** The combination oracle of the specification's end-to-end example. *)
Definition idliKitchen : Env :=
  mkEnv wallClock
    (fun _ _ => Returned (CombinationResult.make "Idli Batter" "🥣"))
    (fun _ _ => Threw "Error: service unavailable")
    (fun _ _ => Returned tt).

(* ================================================================== *)
(** ** Tool calls with unchecked arguments *)
(* ================================================================== *)

(** The arguments of a tool call are the agent's JSON, and the cast of
    line 877 checks nothing.  [Untyped] is the dispatcher on calls whose
    [ingredients] argument is any JSON value; the [dish] argument is still
    taken to be a string when it is there. *)

Module Json.

#[local] Set Warnings "-register-all".

Inductive t : Type :=
| null
| boolean (b : bool)
| number (x : float)
| str (s : string)
| array (items : list t)
| object (properties : list (string * t)).

(** What [||] takes for true. *)
Definition truthy (v : t) : bool :=
  match v with
  | null => false
  | boolean b => b
  | number x => negb (PrimFloat.eqb x 0%float || PrimFloat.is_nan x)
  | str s => negb (s =? EmptyString)
  | array _ => true
  | object _ => true
  end.

(** A byte that continues a UTF-8 sequence. *)
Definition is_continuation (c : ascii) : bool := Js.between 128 191 c.

(** The strings a [for...of] over a string yields: one per code point. *)
Fixpoint codePoints (s : string) : list string :=
  match s with
  | EmptyString => []
  | String c rest =>
      let following := codePoints rest in
      match rest with
      | EmptyString => [String c EmptyString]
      | String d _ =>
          if is_continuation d then
            match following with
            | head :: tail => String c head :: tail
            | [] => [String c EmptyString]
            end
          else String c EmptyString :: following
      end
  end.

Definition is_str (v : t) : bool :=
  match v with
  | str _ => true
  | _ => false
  end.

End Json.

(** [String(error)] of a [TypeError].  Only the name of the error is kept:
    the message is the engine's. *)
Definition TypeError : string := "TypeError".

(** A completion as a computation that leaves the world alone. *)
Definition lift {A} (c : Completion A) : M A := fun w => (c, w).

Module Untyped.

Module Args.
Record t : Type := make
  { ingredients : option Json.t; dish : option string }.
Definition empty : t := make None None.
End Args.

Module FunctionCall.
Record t : Type := make { name : option string; args : option Args.t }.
End FunctionCall.

(** [args.ingredients || []] (line 901). *)
Definition requestedIngredients (args : Args.t) : Json.t :=
  match Args.ingredients args with
  | Some v => if Json.truthy v then v else Json.array []
  | None => Json.array []
  end.

(** What [for (const requestedName of requestedIngredients)] (line 911)
    goes through: the items of an array, the code points of a string; any
    other value is not iterable. *)
Definition iterate (requestedIngredients : Json.t)
  : Completion (list Json.t) :=
  match requestedIngredients with
  | Json.array items => Returned items
  | Json.str s => Returned (map Json.str (Json.codePoints s))
  | _ => Threw TypeError
  end.

(** [findIngredientInInventory] (lines 55-58) on any value:
    [name.toLowerCase()] (line 52) throws when [name] is not a string. *)
Definition findIngredientInInventory (name : Json.t)
    (inventory : list Ingredient.t) : Completion (option Ingredient.t) :=
  match name with
  | Json.str s => Returned (findIngredientInInventory s inventory)
  | _ => Threw TypeError
  end.

(** The validation loop (lines 910-919). *)
Fixpoint validateIngredients (requestedIngredients : list Json.t)
    (inventory : list Ingredient.t) (validatedIngredients : list string)
  : Completion (list string) :=
  match requestedIngredients with
  | [] => Returned validatedIngredients
  | requestedName :: rest =>
      match findIngredientInInventory requestedName inventory with
      | Threw error => Threw error
      | Returned (Some found) =>
          let normalizedFound := normalizeIngredientName (Ingredient.name found) in
          if existsb (fun v => normalizeIngredientName v =? normalizedFound)
                     validatedIngredients
          then validateIngredients rest inventory validatedIngredients
          else validateIngredients rest inventory
                 (validatedIngredients ++ [Ingredient.name found])
      | Returned None => validateIngredients rest inventory validatedIngredients
      end
  end.

Section Dispatch.

Variable env : Env.

(** Validation and execution of a regular action (lines 910-969). *)
Definition cookAction (actionName timelineId : string)
    (action : KitchenAction.t) (requestedIngredients : Json.t) : M unit :=
  inventory <- gets inventory ;;
  requestedNames <- lift (iterate requestedIngredients) ;;
  validatedIngredients <-
    lift (validateIngredients requestedNames inventory []) ;;
  if (length validatedIngredients =? 0)%nat
     && (0 <? length requestedNames)%nat
  then
    sendMessage env
      [functionResponse actionName
         (ToolResponse.failure "Ingredients missing from pantry.")]
  else
    pendingText <- gets pendingTextRef ;;
    modify (update_pendingTextRef (fun _ => None)) ;;
    timestamp <- Date_now env ;;
    let loadingEntry :=
      TimelineEntry.make timelineId timestamp None
        (Js.or_undefined pendingText) (Some actionName)
        (Some validatedIngredients) Pending in
    appendTimeline loadingEntry ;;
    setActiveAction (Some actionName) ;;
    setActionTriggerCount S ;;
    setActiveIngredients validatedIngredients ;;
    try_finally
      (try_catch
         (applyCombination env actionName timelineId action
            validatedIngredients)
         (reportFailure env actionName timelineId))
      releaseAction.

(** [handleApprovedFunctionCalls] (lines 873-970). *)
Definition handleApprovedFunctionCalls (functionCalls : list FunctionCall.t)
  : M unit :=
  match functionCalls with
  | [] => ret tt
  | fc :: _ =>
      let actionName := Js.or_else (FunctionCall.name fc) EmptyString in
      let args :=
        match FunctionCall.args fc with
        | Some a => a
        | None => Args.empty
        end in
      if actionName =? "serve_on_leaf" then
        let dishName := Js.or_else (Args.dish args) "dish" in
        now <- Date_now env ;;
        timestamp <- Date_now env ;;
        appendTimeline
          (note ("serve-" ++ Js.of_N now) timestamp
             ("🍽️ Serving on Banana Leaf: " ++ dishName)) ;;
        verificationSuccess <- handleVerifyServedDish env dishName ;;
        sendMessage env
          [functionResponse "serve_on_leaf"
             (if verificationSuccess
              then ToolResponse.succeeded
                     (dishName ++ " served! Romba nalla iruku!")
              else ToolResponse.failure
                     (dishName ++ " is not what was ordered. Try again!"))]
      else if actionName =? "pass" then
        handlePass ;;
        now <- Date_now env ;;
        timestamp <- Date_now env ;;
        appendTimeline
          (note ("pass-" ++ Js.of_N now) timestamp "🏳️ Gave up on the order") ;;
        sendMessage env
          [functionResponse "pass" (ToolResponse.succeeded "Order abandoned.")]
      else
        now <- Date_now env ;;
        let timelineId := ("cooking-" ++ Js.of_N now)%string in
        match find (fun a => KitchenAction.name a =? actionName)
                   COOKING_ACTIONS with
        | None =>
            sendMessage env
              [functionResponse actionName
                 (ToolResponse.failure ("Unknown action: " ++ actionName))]
        | Some action =>
            cookAction actionName timelineId action (requestedIngredients args)
        end
  end.

End Dispatch.

End Untyped.

(** A call whose arguments have the types of the cast, as it arrives. *)
Definition arrive (fc : FunctionCall.t) : Untyped.FunctionCall.t :=
  Untyped.FunctionCall.make (FunctionCall.name fc)
    (option_map
       (fun a =>
          Untyped.Args.make
            (option_map (fun l => Json.array (map Json.str l))
               (Args.ingredients a))
            (Args.dish a))
       (FunctionCall.args fc)).

(** Every item a loop over [v] yields is a string, so the validation loop
    goes through. *)
Definition stringsOnly (v : Json.t) : bool :=
  match v with
  | Json.array items => forallb Json.is_str items
  | Json.str _ => true
  | _ => false
  end.

(** The last thing done in world [w] was to send a message, and the agent
    session rejected it with error [e]. *)
Definition lastRejected (env : Env) (w : World) (e : string) : Prop :=
  exists before parts t,
    trace w = before ++ [MessageSent parts]
    /\ tick w = S t
    /\ delivery env t parts = Threw e.

(** Whenever [m] throws, it leaves a world and an error that satisfy [P]. *)
Definition leaves (P : World -> string -> Prop) {A} (m : M A) : Prop :=
  forall w e, fst (m w) = Threw e -> P (snd (m w)) e.

(** The names a loop over [v] yields, as far as they are strings. *)
Definition strings (v : Json.t) : list string :=
  match v with
  | Json.array items =>
      flat_map (fun item => match item with
                            | Json.str s => [s]
                            | _ => []
                            end) items
  | Json.str s => Json.codePoints s
  | _ => []
  end.

(** [fc.args || {}] (line 877). *)
Definition argumentsOf (fc : Untyped.FunctionCall.t) : Untyped.Args.t :=
  match Untyped.FunctionCall.args fc with
  | Some a => a
  | None => Untyped.Args.empty
  end.

(** A call of a regular action of the catalog whose [ingredients] argument
    cannot be looped over or holds an item that is not a string. *)
Definition illTyped (fc : Untyped.FunctionCall.t) : Prop :=
  (exists action,
      regularAction (Js.or_else (Untyped.FunctionCall.name fc) EmptyString)
        action)
  /\ stringsOnly (Untyped.requestedIngredients (argumentsOf fc)) = false.

(* ================================================================== *)
(** ** Sanity checks of the embedding on the catalogs *)
(* ================================================================== *)

Example sanitizeName_serve : sanitizeName "serve on leaf" = "serve_on_leaf".
Proof. reflexivity. Qed.

Example catalog_names :
  map KitchenAction.name COOKING_ACTIONS
  = [ "temper_tadka"; "stone_grind"; "ferment"; "steam_idli"; "deep_fry_vada";
      "shallow_fry"; "dry_roast"; "soak"; "pound"; "banana_leaf_wrap";
      "simmer_sambar"; "boil"; "chop"; "dice"; "mince"; "grate_coconut";
      "peel"; "wash"; "extract_tamarind"; "squeeze_lemon"; "mix_batter";
      "whisk"; "stir"; "combine"; "toss"; "caramelize"; "reduce"; "infuse";
      "smoke"; "pickle"; "rest"; "serve_on_leaf"; "pass" ].
Proof. reflexivity. Qed.

Example normalize_kelvin_sign :
  normalizeIngredientName
    (String (ascii_of_nat 226) (String (ascii_of_nat 132)
       (String (ascii_of_nat 170) "ale")))
  = "kale".
Proof. reflexivity. Qed.

Example lookup_ignores_case_and_spacing :
  findIngredientInInventory "Curry-Leaves" STARTING_INGREDIENTS
  = Some (Ingredient.make "curry leaves" "🍃").
Proof. reflexivity. Qed.

Example loop_over_string :
  Json.codePoints "dosa ☕" = ["d"; "o"; "s"; "a"; " "; "☕"].
Proof. reflexivity. Qed.

Example validate_keeps_first_seen :
  validateIngredients ["URAD DAL"; "nonexistent item"; "urad-dal"; "Ghee"]
    STARTING_INGREDIENTS []
  = ["urad dal"; "ghee"].
Proof. reflexivity. Qed.

(* ================================================================== *)
(** ** Normalizer *)
(* ================================================================== *)

Section Normalizer.

Lemma keep_all_chars p s : all_chars p (Js.keep p s) = true.
Proof.
  induction s as [|c r IH]; simpl; [reflexivity|].
  destruct (p c) eqn:E; simpl; [rewrite E|]; exact IH.
Qed.

Lemma keep_fixed p s : all_chars p s = true -> Js.keep p s = s.
Proof.
  induction s as [|c r IH]; simpl; [reflexivity|].
  intros H. apply andb_prop in H. destruct H as [Hc Hr].
  rewrite Hc, (IH Hr). reflexivity.
Qed.

Lemma toLowerCase_ascii_head c r :
  is_ascii c = true ->
  Js.toLowerCase (String c r) = String (Js.lower_ascii c) (Js.toLowerCase r).
Proof.
  unfold is_ascii. intros H. apply Nat.ltb_lt in H.
  assert (H1 : (nat_of_ascii c =? 196)%nat = false)
    by (apply Nat.eqb_neq; lia).
  assert (H2 : (nat_of_ascii c =? 226)%nat = false)
    by (apply Nat.eqb_neq; lia).
  destruct r as [|c2 r2]; [reflexivity|].
  cbn [Js.toLowerCase]. rewrite H1. cbn [andb].
  destruct r2 as [|c3 r3]; [reflexivity|].
  rewrite H2. reflexivity.
Qed.

Lemma toLowerCase_ascii s :
  all_chars is_ascii s = true ->
  Js.toLowerCase s = map_chars Js.lower_ascii s.
Proof.
  induction s as [|c r IH]; [reflexivity|].
  cbn [all_chars]. intros H. apply andb_prop in H. destruct H as [Hc Hr].
  rewrite (toLowerCase_ascii_head c r Hc), (IH Hr). reflexivity.
Qed.

Lemma between_spec lo hi c :
  Js.between lo hi c = true <-> lo <= nat_of_ascii c <= hi.
Proof.
  unfold Js.between. rewrite andb_true_iff, !Nat.leb_le. tauto.
Qed.

Lemma lower_alnum_is_ascii c : Js.is_lower_alnum c = true -> is_ascii c = true.
Proof.
  unfold Js.is_lower_alnum, Js.is_lower, Js.is_digit, is_ascii.
  rewrite orb_true_iff, !between_spec, Nat.ltb_lt. lia.
Qed.

Lemma lower_alnum_not_upper c :
  Js.is_lower_alnum c = true -> Js.lower_ascii c = c.
Proof.
  unfold Js.is_lower_alnum, Js.is_lower, Js.is_digit, Js.lower_ascii, Js.is_upper.
  rewrite orb_true_iff, !between_spec. intros H.
  destruct (Js.between 65 90 c) eqn:E; [|reflexivity].
  apply between_spec in E. lia.
Qed.

Lemma lower_ascii_class c :
  Js.is_lower_alnum (Js.lower_ascii c) = is_alnum c.
Proof.
  unfold Js.lower_ascii, is_alnum, Js.is_lower_alnum, Js.is_upper.
  destruct (Js.between 65 90 c) eqn:E.
  - apply between_spec in E.
    unfold Js.is_lower, Js.is_digit.
    rewrite orb_true_r. cbn [orb].
    assert (L : Js.between 97 122 (ascii_of_nat (nat_of_ascii c + 32)) = true).
    { apply between_spec. rewrite nat_ascii_embedding by lia. lia. }
    rewrite L. reflexivity.
  - rewrite orb_false_r. reflexivity.
Qed.

Lemma normalize_ascii s :
  all_chars is_ascii s = true ->
  normalizeIngredientName s = map_chars Js.lower_ascii (Js.keep is_alnum s).
Proof.
  intros H. unfold normalizeIngredientName.
  rewrite (toLowerCase_ascii s H). clear H.
  induction s as [|c r IH]; [reflexivity|].
  cbn [map_chars Js.keep]. rewrite lower_ascii_class.
  destruct (is_alnum c); cbn [map_chars]; rewrite IH; reflexivity.
Qed.

Lemma normalize_canonical s :
  all_chars Js.is_lower_alnum s = true -> normalizeIngredientName s = s.
Proof.
  intros H. unfold normalizeIngredientName.
  assert (A : all_chars is_ascii s = true).
  { induction s as [|c r IH]; [reflexivity|].
    cbn [all_chars] in *. apply andb_prop in H. destruct H as [Hc Hr].
    rewrite (lower_alnum_is_ascii c Hc), (IH Hr). reflexivity. }
  rewrite (toLowerCase_ascii s A).
  assert (L : map_chars Js.lower_ascii s = s).
  { clear A. induction s as [|c r IH]; [reflexivity|].
    cbn [all_chars map_chars] in *. apply andb_prop in H. destruct H as [Hc Hr].
    rewrite (lower_alnum_not_upper c Hc), (IH Hr). reflexivity. }
  rewrite L. apply keep_fixed, H.
Qed.

Lemma find_none_iff name inventory :
  findIngredientInInventory name inventory = None
  <-> forall ing, In ing inventory ->
                  key ing <> normalizeIngredientName name.
Proof.
  unfold findIngredientInInventory, key. split.
  - intros H ing Hin E.
    pose proof (find_none _ _ H ing Hin) as F. cbn beta in F.
    rewrite E, String.eqb_refl in F. discriminate.
  - intros H. induction inventory as [|i r IH]; [reflexivity|].
    cbn [find].
    destruct (String.eqb_spec (normalizeIngredientName (Ingredient.name i))
                (normalizeIngredientName name)) as [E|E].
    + exfalso. apply (H i); [left; reflexivity | exact E].
    + apply IH. intros ing Hin. apply H. right. exact Hin.
Qed.

Lemma find_some_key name inventory found :
  findIngredientInInventory name inventory = Some found ->
  In found inventory /\ key found = normalizeIngredientName name.
Proof.
  unfold findIngredientInInventory, key. intros H.
  apply find_some in H. destruct H as [Hin E].
  apply String.eqb_eq in E. split; assumption.
Qed.

End Normalizer.

(** C8. The name normalizer is a total function that lower-cases its input
    and strips everything that is not a lower-case letter or a digit
    afterwards: its result holds only characters of [a-z0-9]; a name that is
    already canonical is left as it is, so normalizing twice changes nothing;
    on ASCII input the result is the input's letters and digits, lower-cased;
    "Curry Leaves", "curry-leaves" and "CURRYLEAVES" have the same key; and
    the inventory lookup answers not-found (never an error) exactly when no
    entry has the canonical key of the name. *)
Theorem normalizer_contract :
  (forall name, all_chars Js.is_lower_alnum (normalizeIngredientName name) = true)
  /\ (forall name,
         all_chars Js.is_lower_alnum name = true ->
         normalizeIngredientName name = name)
  /\ (forall name,
         normalizeIngredientName (normalizeIngredientName name)
         = normalizeIngredientName name)
  /\ (forall name,
         all_chars is_ascii name = true ->
         normalizeIngredientName name
         = map_chars Js.lower_ascii (Js.keep is_alnum name))
  /\ (normalizeIngredientName "Curry Leaves" = "curryleaves"
      /\ normalizeIngredientName "curry-leaves" = "curryleaves"
      /\ normalizeIngredientName "CURRYLEAVES" = "curryleaves")
  /\ (forall name inventory,
         findIngredientInInventory name inventory = None
         <-> forall ing, In ing inventory ->
                         key ing <> normalizeIngredientName name).
Proof.
  split; [|split; [|split; [|split; [|split]]]].
  - intros name. apply keep_all_chars.
  - exact normalize_canonical.
  - intros name. apply normalize_canonical, keep_all_chars.
  - exact normalize_ascii.
  - repeat split; reflexivity.
  - exact find_none_iff.
Qed.

(** The contract at the names of the specification's example and at a name
    that is missing from the start-up pantry. *)
Lemma normalizer_contract_witness :
  normalizeIngredientName "curryleaves" = "curryleaves"
  /\ normalizeIngredientName "Curry Leaves"
     = map_chars Js.lower_ascii (Js.keep is_alnum "Curry Leaves")
  /\ findIngredientInInventory "nonexistent item" STARTING_INGREDIENTS = None.
Proof.
  destruct normalizer_contract as (_ & Hfix & _ & Hascii & _ & Hfind).
  split; [|split].
  - apply Hfix. reflexivity.
  - apply Hascii. reflexivity.
  - apply Hfind. intros ing Hin.
    vm_compute in Hin.
    repeat (destruct Hin as [<-|Hin]; [vm_compute; discriminate|]).
    destruct Hin.
Defined.

(* ================================================================== *)
(** ** Inventory *)
(* ================================================================== *)

Section Inventory.

Lemma isDuplicate_true_iff name inventory :
  isDuplicateIngredient name inventory = true
  <-> exists e, In e inventory /\ key e = normalizeIngredientName name.
Proof.
  unfold isDuplicateIngredient.
  destruct (findIngredientInInventory name inventory) as [found|] eqn:F.
  - split; [intros _|reflexivity].
    exists found. apply find_some_key, F.
  - split; [discriminate|].
    intros [e [Hin E]]. exfalso.
    apply (proj1 (find_none_iff name inventory) F e Hin E).
Qed.

Lemma insert_existing newIngredient prev :
  (exists e, In e prev /\ key e = key newIngredient) ->
  insertIngredient newIngredient prev = prev.
Proof.
  intros H. unfold insertIngredient.
  apply (proj2 (isDuplicate_true_iff (Ingredient.name newIngredient) prev)) in H.
  rewrite H. reflexivity.
Qed.

Lemma insert_fresh newIngredient prev :
  (forall e, In e prev -> key e <> key newIngredient) ->
  insertIngredient newIngredient prev = newIngredient :: prev.
Proof.
  intros H. unfold insertIngredient.
  destruct (isDuplicateIngredient (Ingredient.name newIngredient) prev) eqn:D;
    [|reflexivity].
  apply isDuplicate_true_iff in D. destruct D as [e [Hin E]].
  exfalso. exact (H e Hin E).
Qed.

Lemma insert_collision_free newIngredient prev :
  collision_free prev -> collision_free (insertIngredient newIngredient prev).
Proof.
  unfold collision_free, insertIngredient. intros H.
  destruct (isDuplicateIngredient (Ingredient.name newIngredient) prev) eqn:D;
    [exact H|].
  cbn [map]. constructor; [|exact H].
  intros Hin. apply in_map_iff in Hin. destruct Hin as [e [E He]].
  assert (T : isDuplicateIngredient (Ingredient.name newIngredient) prev = true)
    by (apply isDuplicate_true_iff; exists e; split; assumption).
  rewrite T in D. discriminate.
Qed.

End Inventory.

Example starting_pantry_collision_free : collision_free STARTING_INGREDIENTS.
Proof.
  unfold collision_free.
  repeat (constructor; [vm_compute; intuition discriminate|]).
  constructor.
Qed.

(** C6. Inventory insertion is idempotent under normalized-name equality:
    inserting an ingredient whose normalized name equals that of an entry
    returns the inventory itself, so its length and its first-seen entry are
    kept; and insertion into a collision-free inventory yields a
    collision-free inventory. *)
Theorem insertion_idempotent (newIngredient : Ingredient.t)
    (prev : list Ingredient.t) :
  ((exists e, In e prev /\ key e = key newIngredient) ->
   insertIngredient newIngredient prev = prev)
  /\ insertIngredient newIngredient (insertIngredient newIngredient prev)
     = insertIngredient newIngredient prev
  /\ (collision_free prev ->
      collision_free (insertIngredient newIngredient prev)).
Proof.
  split; [apply insert_existing|split; [|apply insert_collision_free]].
  apply insert_existing.
  unfold insertIngredient at 1.
  destruct (isDuplicateIngredient (Ingredient.name newIngredient) prev) eqn:D.
  - apply isDuplicate_true_iff in D. exact D.
  - exists newIngredient. split; [left|]; reflexivity.
Qed.

(** Inserting "Curry-Leaves" into the start-up pantry, which holds
    "curry leaves". *)
Lemma insertion_idempotent_witness :
  insertIngredient (Ingredient.make "Curry-Leaves" "🌿") STARTING_INGREDIENTS
  = STARTING_INGREDIENTS
  /\ collision_free
       (insertIngredient (Ingredient.make "Curry-Leaves" "🌿")
          STARTING_INGREDIENTS).
Proof.
  destruct (insertion_idempotent (Ingredient.make "Curry-Leaves" "🌿")
              STARTING_INGREDIENTS) as (Hsame & _ & Hfree).
  split.
  - apply Hsame. exists (Ingredient.make "curry leaves" "🍃").
    split; [vm_compute; tauto | reflexivity].
  - apply Hfree. unfold collision_free.
    repeat (constructor; [vm_compute; intuition discriminate|]).
    constructor.
Defined.

(* ================================================================== *)
(** ** Order ledger *)
(* ================================================================== *)

Section Ledger.

Lemma Forall2_map_pointwise {A} (R : A -> A -> Prop) (f : A -> A) l :
  (forall a, R a (f a)) -> Forall2 R l (map f l).
Proof.
  intros H. induction l as [|a r IH]; cbn [map]; constructor; auto.
Qed.

Lemma with_status_same s o :
  Order.status o = s -> Order.with_status s o = o.
Proof. destruct o. cbn. intros ->. reflexivity. Qed.

Lemma pickUp_pointwise orderId prev :
  Forall2 (fun o o' =>
             (Order.id o = orderId -> o' = Order.with_status in_progress o)
             /\ (Order.id o <> orderId -> o' = o))
          prev (pickUp orderId prev).
Proof.
  unfold pickUp. apply Forall2_map_pointwise. intros o.
  destruct (String.eqb_spec (Order.id o) orderId); split; intros;
    congruence.
Qed.

Lemma pickUp_twice orderId prev :
  pickUp orderId (pickUp orderId prev) = pickUp orderId prev.
Proof.
  unfold pickUp. rewrite map_map. apply map_ext. intros o.
  destruct (Order.id o =? orderId) eqn:E; cbn [Order.with_status Order.id].
  - rewrite E. reflexivity.
  - rewrite E. reflexivity.
Qed.

Lemma selected_iff (o : Order.t) selectedOrders :
  existsb (fun so => Order.id so =? Order.id o) selectedOrders = true
  <-> In (Order.id o) (map Order.id selectedOrders).
Proof.
  rewrite existsb_exists, in_map_iff.
  split; intros [so [H1 H2]]; exists so.
  - apply String.eqb_eq in H2. split; assumption.
  - split; [assumption|]. apply String.eqb_eq. exact H1.
Qed.

Lemma pickUpBatch_pointwise selectedOrders prev :
  Forall2 (fun o o' =>
             (In (Order.id o) (map Order.id selectedOrders) ->
              o' = Order.with_status in_progress o)
             /\ (~ In (Order.id o) (map Order.id selectedOrders) -> o' = o))
          prev (pickUpBatch selectedOrders prev).
Proof.
  unfold pickUpBatch. apply Forall2_map_pointwise. intros o.
  destruct (existsb (fun so => Order.id so =? Order.id o) selectedOrders) eqn:E.
  - split; [reflexivity|]. intros H. exfalso. apply H, selected_iff, E.
  - split; [|reflexivity]. intros H. apply selected_iff in H. congruence.
Qed.

Lemma passOrders_pointwise prev :
  Forall2 (fun o o' =>
             (Order.status o = in_progress -> o' = vanished o)
             /\ (Order.status o <> in_progress -> o' = o))
          prev (passOrders prev).
Proof.
  unfold passOrders, vanished. apply Forall2_map_pointwise. intros o.
  destruct (Order.status o); cbn [status_eqb]; split; intros;
    congruence.
Qed.

Lemma passOrders_none_in_progress prev : inProgress (passOrders prev) = [].
Proof.
  unfold inProgress, passOrders.
  induction prev as [|o r IH]; [reflexivity|].
  cbn [map filter].
  destruct (Order.status o) eqn:E; cbn [status_eqb Order.status];
    rewrite ?E; cbn [status_eqb]; exact IH.
Qed.

End Ledger.

(** C2, as the specification states it, fails: [handlePickUp] does not look
    at the status.  Picking up the served order of the sample ledger moves
    it from [completed] back to [in_progress]. *)
Lemma pickup_reopens_completed_order :
  let w := with_orders sampleLedger initialWorld in
  let w' := snd (handlePickUp "order-1" w) in
  map Order.status (orders w) = [completed; in_progress; not_started]
  /\ map Order.status (orders w') = [in_progress; in_progress; not_started]
  /\ orders w' <> orders w.
Proof. cbv zeta. repeat split; try reflexivity. vm_compute. discriminate. Qed.

(** C2, amended.  The pickup transition sets the order with the given id to
    [in_progress] whatever its status was: a [not_started] order moves to
    [in_progress], an order that is [in_progress] is left as it is, so that
    picking up twice is picking up once, and the orders with another id are
    untouched; the batch pickup does the same for every order whose id is
    among the selected ones.  The guard on [not_started] is the caller's:
    [handleCookWithGemini] picks the order up when its status is
    [not_started] and leaves the ledger as it is on any other status. *)
Theorem pickup_transition (orderId : string) (prev : list Order.t) :
  Forall2 (fun o o' =>
             (Order.id o = orderId -> o' = Order.with_status in_progress o)
             /\ (Order.id o = orderId -> Order.status o = in_progress -> o' = o)
             /\ (Order.id o <> orderId -> o' = o))
          prev (pickUp orderId prev)
  /\ pickUp orderId (pickUp orderId prev) = pickUp orderId prev
  /\ (forall selectedOrders,
         Forall2 (fun o o' =>
                    (In (Order.id o) (map Order.id selectedOrders) ->
                     o' = Order.with_status in_progress o)
                    /\ (~ In (Order.id o) (map Order.id selectedOrders) ->
                        o' = o))
                 prev (pickUpBatch selectedOrders prev))
  /\ (forall env order w,
         Order.status order <> not_started ->
         orders (snd (handleCookWithGemini env order w)) = orders w)
  /\ (forall env order w,
         Order.status order = not_started ->
         orders (snd (handleCookWithGemini env order w))
         = pickUp (Order.id order) (orders w)).
Proof.
  split; [|split; [apply pickUp_twice|split; [|split]]].
  - eapply Forall2_impl; [|apply pickUp_pointwise].
    intros o o' [Hsame Hother]. split; [exact Hsame|split; [|exact Hother]].
    intros Hid Hst. rewrite (Hsame Hid). apply with_status_same, Hst.
  - intros selectedOrders. apply pickUpBatch_pointwise.
  - intros env order w H.
    unfold handleCookWithGemini, sendCookingMessage.
    destruct (Order.status order); [congruence| | |];
      cbn; destruct (sendCookingMessageRef w); reflexivity.
  - intros env order w H.
    unfold handleCookWithGemini, sendCookingMessage. rewrite H.
    cbn. destruct (sendCookingMessageRef w); reflexivity.
Qed.

(** The amended transition on the sample ledger: the pending order "Idly" is
    picked up, and cooking the served order "Filter Coffee" with the agent
    leaves the ledger alone. *)
Lemma pickup_transition_witness :
  map Order.status (pickUp "order-5" sampleLedger)
  = [completed; in_progress; in_progress]
  /\ orders (snd (handleCookWithGemini offline
                    (Order.make "order-1" "Filter Coffee" "☕" easy completed
                       (Some "Degree Coffee"))
                    (with_orders sampleLedger initialWorld)))
     = sampleLedger
  /\ orders (snd (handleCookWithGemini offline
                    (Order.make "order-5" "Idly" "🥞" difficult not_started None)
                    (with_orders sampleLedger initialWorld)))
     = pickUp "order-5" sampleLedger.
Proof.
  destruct (pickup_transition "order-5" sampleLedger)
    as (_ & _ & _ & Hkeep & Hpick).
  split; [reflexivity|split].
  - apply (Hkeep offline). cbn. discriminate.
  - apply (Hpick offline). reflexivity.
Defined.

(* ================================================================== *)
(** ** Cooking agent: the abandon call *)
(* ================================================================== *)

(** C7. In every world, dispatching the [pass] tool call turns every order
    that is [in_progress] into a [failed] order whose [servedDish] is
    "Vanished" and leaves every other order untouched, so that no order is
    [in_progress] afterwards; it appends one narration entry to the
    timeline, hands the success response to the agent session, and neither
    invokes the combination resolver nor asks the completion service: the
    narration and the response are all that is added to the record of
    interactions.  The inventory is not touched. *)
Theorem abandon_fails_in_progress_orders (env : Env) (w : World)
    (args : option Args.t) (others : list FunctionCall.t) :
  let run :=
    handleApprovedFunctionCalls env
      (FunctionCall.make (Some "pass") args :: others) w in
  let w' := snd run in
  let entry :=
    note ("pass-" ++ Js.of_N (clock env (tick w))) (clock env (S (tick w)))
      "🏳️ Gave up on the order" in
  let reply :=
    [functionResponse "pass" (ToolResponse.succeeded "Order abandoned.")] in
  Forall2 (fun o o' =>
             (Order.status o = in_progress -> o' = vanished o)
             /\ (Order.status o <> in_progress -> o' = o))
          (orders w) (orders w')
  /\ inProgress (orders w') = []
  /\ timeline w' = timeline w ++ [entry]
  /\ trace w' = trace w ++ [TimelineAppended entry; MessageSent reply]
  /\ inventory w' = inventory w
  /\ fst run = delivery env (S (S (tick w))) reply.
Proof.
  cbn.
  split; [apply passOrders_pointwise|].
  split; [apply passOrders_none_in_progress|].
  rewrite <- !app_assoc. cbn.
  repeat split; reflexivity.
Qed.

(* ================================================================== *)
(** ** Cooking agent: the serve call *)
(* ================================================================== *)

(** C10. A [serve_on_leaf] tool call whose [dish] argument is missing or is
    the empty string is not rejected: the dispatcher takes "dish" as the
    dish name, appends the serve narration for "dish" to the timeline, runs
    the verification with "dish", and answers the agent from its outcome. *)
Theorem serve_without_dish_serves_dish (env : Env) (w : World)
    (args : option Args.t) (others : list FunctionCall.t) :
  match args with
  | None => True
  | Some a => Args.dish a = None \/ Args.dish a = Some EmptyString
  end ->
  let entry :=
    note ("serve-" ++ Js.of_N (clock env (tick w))) (clock env (S (tick w)))
      "🍽️ Serving on Banana Leaf: dish" in
  let narrated :=
    update_trace (fun t => t ++ [TimelineAppended entry])
      (update_timeline (fun prev => prev ++ [entry])
         (interact [] (interact [] w))) in
  handleApprovedFunctionCalls env
    (FunctionCall.make (Some "serve_on_leaf") args :: others) w
  = (verificationSuccess <- handleVerifyServedDish env "dish" ;;
     sendMessage env
       [functionResponse "serve_on_leaf"
          (if verificationSuccess
           then ToolResponse.succeeded "dish served! Romba nalla iruku!"
           else ToolResponse.failure "dish is not what was ordered. Try again!")])
      narrated.
Proof.
  intros H.
  assert (D : Js.or_else
                (Args.dish match args with Some a => a | None => Args.empty end)
                "dish" = "dish").
  { destruct args as [a|]; [|reflexivity].
    destruct H as [H|H]; rewrite H; reflexivity. }
  unfold handleApprovedFunctionCalls.
  cbn [FunctionCall.name FunctionCall.args Js.or_else].
  change ("serve_on_leaf" =? "serve_on_leaf") with true. cbv iota.
  rewrite D. reflexivity.
Qed.

(** The serve call with no argument and with an empty dish name, in the
    start-up world: the narration is the first thing recorded, and the
    verification, which finds no order in progress, records that "dish" was
    served. *)
Lemma serve_without_dish_serves_dish_witness :
  map TimelineEntry.text
    (timeline (snd (handleApprovedFunctionCalls offline
                      [FunctionCall.make (Some "serve_on_leaf") None]
                      initialWorld)))
  = [Some "🍽️ Serving on Banana Leaf: dish";
     Some ("✅ Served " ++ Js.dquote ++ "dish" ++ Js.dquote)%string]
  /\ map TimelineEntry.text
       (timeline (snd (handleApprovedFunctionCalls offline
                         [FunctionCall.make (Some "serve_on_leaf")
                            (Some (Args.make None (Some EmptyString)))]
                         initialWorld)))
     = [Some "🍽️ Serving on Banana Leaf: dish";
        Some ("✅ Served " ++ Js.dquote ++ "dish" ++ Js.dquote)%string].
Proof.
  split.
  - rewrite (serve_without_dish_serves_dish offline initialWorld None [] I).
    reflexivity.
  - rewrite (serve_without_dish_serves_dish offline initialWorld
               (Some (Args.make None (Some EmptyString))) []
               (or_intror eq_refl)).
    reflexivity.
Defined.

(* ================================================================== *)
(** ** Cooking agent: regular actions *)
(* ================================================================== *)

Section Dispatcher.

Variable env : Env.

Lemma or_else_empty (n : string) : Js.or_else (Some n) EmptyString = n.
Proof. destruct n; reflexivity. Qed.

(** A regular action reaches [cookAction] after one reading of the clock. *)
Lemma dispatch_regular actionName action args others w :
  regularAction actionName action ->
  handleApprovedFunctionCalls env
    (FunctionCall.make (Some actionName) args :: others) w
  = cookAction env actionName (cookingId env w) action (requested args)
      (interact [] w).
Proof.
  intros (Hserve & Hpass & Hfind).
  unfold handleApprovedFunctionCalls.
  cbn [FunctionCall.name FunctionCall.args].
  rewrite or_else_empty, Hserve, Hpass.
  unfold bind at 1. unfold Date_now at 1. rewrite Hfind.
  unfold cookingId, requested.
  destruct args as [a|]; reflexivity.
Qed.

Lemma validate_none_found requestedIngredients inventory acc :
  (forall r, In r requestedIngredients ->
             findIngredientInInventory r inventory = None) ->
  validateIngredients requestedIngredients inventory acc = acc.
Proof.
  revert acc. induction requestedIngredients as [|r rest IH]; intros acc H;
    [reflexivity|].
  cbn [validateIngredients].
  rewrite (H r (or_introl eq_refl)).
  apply IH. intros r' Hin. apply H. right. exact Hin.
Qed.

Lemma executeCombination_run action names w :
  executeCombination env action names w
  = (Returned (resolved env action names (tick w)),
     afterResolver action names w).
Proof.
  unfold executeCombination, resolved, afterResolver, bind, modify,
    try_catch, generateCombination, ret.
  cbn [tick update_trace].
  destruct (combination env (tick w) (combinationPrompt action names));
    reflexivity.
Qed.

(** The [try] block, up to the delivery of the response. *)
Lemma applyCombination_run actionName timelineId action validated w :
  applyCombination env actionName timelineId action validated w
  = let outcome :=
      if executeCombinationRef w
      then resolved env action validated (tick w) else None in
    let newIngredient :=
      match outcome with
      | Some i => i
      | None => fallbackIngredient action
      end in
    let w1 :=
      if executeCombinationRef w then afterResolver action validated w
      else w in
    (delivery env (tick w1) (producedReply actionName newIngredient),
     interact [MessageSent (producedReply actionName newIngredient)]
       (update_inventory (insertIngredient newIngredient)
          (update_timeline (completeEntry timelineId newIngredient) w1))).
Proof.
  unfold applyCombination. unfold bind at 1. unfold gets at 1.
  unfold bind at 1.
  destruct (executeCombinationRef w).
  - rewrite executeCombination_run. reflexivity.
  - reflexivity.
Qed.

(** A regular action whose validation passes runs the [try] block in the
    world [started]. *)
Lemma cookAction_passes actionName action requestedIngredients w :
  let validated :=
    validateIngredients requestedIngredients (inventory w) [] in
  ((length validated =? 0)%nat && (0 <? length requestedIngredients)%nat)
  = false ->
  cookAction env actionName (cookingId env w) action requestedIngredients
    (interact [] w)
  = try_finally
      (try_catch
         (applyCombination env actionName (cookingId env w) action validated)
         (reportFailure env actionName (cookingId env w)))
      releaseAction
      (started env w actionName validated).
Proof.
  intros validated H.
  unfold cookAction. unfold bind at 1. unfold gets at 1.
  cbn [inventory interact update_tick update_trace].
  fold validated. rewrite H. reflexivity.
Qed.

Lemma completeEntry_app timelineId r l1 l2 :
  completeEntry timelineId r (l1 ++ l2)
  = completeEntry timelineId r l1 ++ completeEntry timelineId r l2.
Proof. unfold completeEntry. apply map_app. Qed.

Lemma completeEntry_pending w actionName validated r :
  completeEntry (cookingId env w) r [pendingEntry env w actionName validated]
  = [TimelineEntry.with_result r (pendingEntry env w actionName validated)].
Proof.
  unfold completeEntry, pendingEntry. cbn [map TimelineEntry.id].
  rewrite String.eqb_refl. reflexivity.
Qed.

Lemma completeEntry_overwrites timelineId r1 r2 prev :
  completeEntry timelineId r2 (completeEntry timelineId r1 prev)
  = completeEntry timelineId r2 prev.
Proof.
  unfold completeEntry. rewrite map_map. apply map_ext. intros e.
  destruct (TimelineEntry.id e =? timelineId) eqn:E;
    cbn [TimelineEntry.with_result TimelineEntry.id]; rewrite E; reflexivity.
Qed.

Lemma completed_pending w actionName validated r :
  completeEntry (cookingId env w) r
    (timeline w ++ [pendingEntry env w actionName validated])
  = completeEntry (cookingId env w) r (timeline w)
    ++ [TimelineEntry.with_result r (pendingEntry env w actionName validated)].
Proof. rewrite completeEntry_app, completeEntry_pending. reflexivity. Qed.

Lemma completeEntry_manual w action r :
  completeEntry (Js.of_N (clock env (tick w))) r [manualEntry env w action]
  = [TimelineEntry.with_result r (manualEntry env w action)].
Proof.
  unfold completeEntry, manualEntry. cbn [map TimelineEntry.id].
  rewrite String.eqb_refl. reflexivity.
Qed.

(** The manual path for a regular action with a selection. *)
Lemma executeAction_run action w :
  selectedIngredients w <> [] ->
  (KitchenAction.name action =? "serve_on_leaf") = false ->
  let names := selectedIngredients w in
  let timelineId := Js.of_N (clock env (tick w)) in
  let outcome := resolved env action names (S (S (tick w))) in
  let w' := snd (executeAction env action w) in
  fst (executeAction env action w) = Returned tt
  /\ timeline w'
     = completeEntry timelineId
         match outcome with Some i => i | None => errorIngredient end
         (timeline w ++ [manualEntry env w action])
  /\ inventory w'
     = match outcome with
       | Some i => insertIngredient i (inventory w)
       | None => inventory w
       end.
Proof.
  intros Hsel Hreg. cbv zeta.
  assert (E : executeAction env action w
              = (setActiveAction None
                   (snd (match resolved env action (selectedIngredients w)
                                 (S (S (tick w))) with
                         | Some i =>
                             (completeTimeline (Js.of_N (clock env (tick w))) i ;;
                              setInventory (insertIngredient i))
                         | None =>
                             completeTimeline (Js.of_N (clock env (tick w)))
                               errorIngredient
                         end
                           (afterResolver action (selectedIngredients w)
                              (update_activeAction
                                 (fun _ => Some (KitchenAction.name action))
                                 (update_trace
                                    (fun t => t ++ [TimelineAppended
                                                      (manualEntry env w action)])
                                    (update_timeline
                                       (fun prev => prev ++ [manualEntry env w action])
                                       (interact []
                                          (interact []
                                             (update_selectedIngredients
                                                (fun _ => []) w))))))))))).
  { unfold executeAction. unfold bind at 1. unfold gets at 1.
    destruct (selectedIngredients w) as [|n rest] eqn:Esel; [congruence|].
    cbn [length Nat.eqb]. rewrite Hreg.
    unfold setSelectedIngredients, appendTimeline.
    unfold bind, modify, Date_now.
    cbv beta iota. unfold setActiveAction at 1. unfold modify at 1.
    rewrite executeCombination_run.
    unfold manualEntry. rewrite Esel.
    cbn [tick interact update_tick update_trace update_timeline
           update_activeAction update_selectedIngredients].
    destruct (resolved env action (n :: rest) (S (S (tick w))));
      reflexivity. }
  rewrite E.
  destruct (resolved env action (selectedIngredients w) (S (S (tick w))));
    repeat split; reflexivity.
Qed.

End Dispatcher.

(** C3. A tool call for a regular action whose list of requested
    ingredients is not empty and of which no name is found in the current
    inventory fails: the one thing the dispatcher does is to hand the agent
    session the failure response "Ingredients missing from pantry.".  The
    timeline, the inventory and the ledger are left as they were, and the
    response is the only interaction recorded, so neither the combination
    resolver nor the completion service was called. *)
Theorem missing_ingredients_rejected (env : Env) (w : World)
    (actionName : string) (action : KitchenAction.t) (args : option Args.t)
    (others : list FunctionCall.t) :
  regularAction actionName action ->
  requested args <> [] ->
  (forall r, In r (requested args) ->
             findIngredientInInventory r (inventory w) = None) ->
  let run :=
    handleApprovedFunctionCalls env
      (FunctionCall.make (Some actionName) args :: others) w in
  let w' := snd run in
  let reply :=
    [functionResponse actionName
       (ToolResponse.failure "Ingredients missing from pantry.")] in
  fst run = delivery env (S (tick w)) reply
  /\ trace w' = trace w ++ [MessageSent reply]
  /\ timeline w' = timeline w
  /\ inventory w' = inventory w
  /\ orders w' = orders w.
Proof.
  intros Hreg Hne Hnone. cbv zeta.
  rewrite (dispatch_regular env actionName action args others w Hreg).
  unfold cookAction, bind, gets. cbn [inventory interact update_tick update_trace].
  rewrite (validate_none_found (requested args) (inventory w) [] Hnone).
  destruct (requested args) as [|r rest]; [congruence|].
  cbn. rewrite <- app_assoc. repeat split; reflexivity.
Qed.

(** The specification's example: the action "stir" with the single
    ingredient "nonexistent item", in the start-up world. *)
Lemma missing_ingredients_rejected_witness :
  let run :=
    handleApprovedFunctionCalls offline
      [FunctionCall.make (Some "stir")
         (Some (Args.make (Some ["nonexistent item"]) None))]
      initialWorld in
  trace (snd run)
  = [MessageSent
       [functionResponse "stir"
          (ToolResponse.failure "Ingredients missing from pantry.")]]
  /\ timeline (snd run) = []
  /\ inventory (snd run) = STARTING_INGREDIENTS.
Proof.
  cbv zeta.
  destruct (missing_ingredients_rejected offline initialWorld "stir"
              (createAction "stir" "🥄")
              (Some (Args.make (Some ["nonexistent item"]) None)) [])
    as (_ & Htrace & Htimeline & Hinventory & _).
  - repeat split; reflexivity.
  - discriminate.
  - intros r [<-|[]]. reflexivity.
  - rewrite Htrace, Htimeline, Hinventory. repeat split; reflexivity.
Defined.

(** C1, as the specification states it, fails in the dispatcher.  With the
    completion service down, the call [stir(["ghee"])] passes validation,
    the resolver fails, and yet the timeline entry is completed with the
    made-up ingredient "stired items", that ingredient enters the inventory,
    and the agent is told that the call succeeded. *)
Lemma resolver_failure_reported_as_success :
  let run :=
    handleApprovedFunctionCalls offline
      [FunctionCall.make (Some "stir") (Some (Args.make (Some ["ghee"]) None))]
      initialWorld in
  combination offline 2 (combinationPrompt (createAction "stir" "🥄") ["ghee"])
  = Threw "Error: service unavailable"
  /\ map TimelineEntry.result (timeline (snd run))
     = [Resolved (Ingredient.make "stired items" "🥄")]
  /\ map TimelineEntry.result (timeline (snd run)) <> [Resolved errorIngredient]
  /\ inventory (snd run)
     = Ingredient.make "stired items" "🥄" :: STARTING_INGREDIENTS
  /\ inventory (snd run) <> inventory initialWorld
  /\ fst run = Returned tt
  /\ trace (snd run)
     = [ TimelineAppended
           (pendingEntry offline initialWorld "stir" ["ghee"]);
         ResolverInvoked (createAction "stir" "🥄") ["ghee"];
         ContentRequested (combinationPrompt (createAction "stir" "🥄") ["ghee"]);
         MessageSent
           [functionResponse "stir"
              (ToolResponse.make true None None (Some "stired items")
                 (Some "🥄"))] ].
Proof.
  cbv zeta. repeat split; vm_compute; try reflexivity; discriminate.
Qed.

(** C1, amended.  When the combination resolver fails on a service error or
    on malformed JSON, [executeCombination] returns [null] and no exception
    propagates.  For a regular-action tool call that passes ingredient
    validation, the dispatcher then completes the matching pending timeline
    entry with the fallback ingredient named after the action (its display
    name followed by "ed items", with the action's emoji), inserts that
    ingredient into the inventory unless its normalized name is already
    there, and, the response being delivered, reports success with the
    fallback's name and emoji to the agent.  The sentinel error result with
    the inventory left unchanged is what the manual path, [executeAction],
    writes on the same failure. *)
Theorem resolver_failure_outcome (env : Env) :
  (forall (w : World) (actionName : string) (action : KitchenAction.t)
          (args : option Args.t) (others : list FunctionCall.t)
          (error : string),
      regularAction actionName action ->
      let validated := validateIngredients (requested args) (inventory w) [] in
      validated <> [] \/ requested args = [] ->
      executeCombinationRef w = true ->
      combination env (S (S (tick w))) (combinationPrompt action validated)
      = Threw error ->
      let fallback := fallbackIngredient action in
      delivery env (S (S (S (tick w)))) (producedReply actionName fallback)
      = Returned tt ->
      let run :=
        handleApprovedFunctionCalls env
          (FunctionCall.make (Some actionName) args :: others) w in
      let w' := snd run in
      let pending := pendingEntry env w actionName validated in
      fst run = Returned tt
      /\ timeline w'
         = completeEntry (cookingId env w) fallback (timeline w)
           ++ [TimelineEntry.with_result fallback pending]
      /\ inventory w' = insertIngredient fallback (inventory w)
      /\ trace w'
         = trace w
           ++ [ TimelineAppended pending;
                ResolverInvoked action validated;
                ContentRequested (combinationPrompt action validated);
                MessageSent (producedReply actionName fallback) ])
  /\ (forall (w : World) (action : KitchenAction.t) (error : string),
         selectedIngredients w <> [] ->
         (KitchenAction.name action =? "serve_on_leaf") = false ->
         combination env (S (S (tick w)))
           (combinationPrompt action (selectedIngredients w))
         = Threw error ->
         let run := executeAction env action w in
         let w' := snd run in
         fst run = Returned tt
         /\ timeline w'
            = completeEntry (Js.of_N (clock env (tick w))) errorIngredient
                (timeline w)
              ++ [TimelineEntry.with_result errorIngredient
                    (manualEntry env w action)]
         /\ inventory w' = inventory w).
Proof.
  split.
  - intros w actionName action args others error Hreg validated Hvalid Hwired
      Hfail fallback Hsent. cbv zeta.
    rewrite (dispatch_regular env actionName action args others w Hreg).
    rewrite cookAction_passes.
    2:{ fold validated. destruct Hvalid as [H|H].
        - destruct validated; [congruence|reflexivity].
        - rewrite H. apply andb_false_r. }
    fold validated.
    unfold try_finally, try_catch. rewrite applyCombination_run.
    cbn [executeCombinationRef started update_activeIngredients
           update_actionTriggerCount update_activeAction update_trace
           update_timeline interact update_pendingTextRef update_tick].
    rewrite Hwired. cbv zeta. unfold resolved.
    cbn [tick afterResolver interact update_tick update_trace
           update_activeIngredients update_actionTriggerCount
           update_activeAction update_timeline update_pendingTextRef].
    change (tick (started env w actionName validated)) with (S (S (tick w))).
    rewrite Hfail. fold fallback. rewrite Hsent.
    cbn. rewrite <- !app_assoc. cbn [app].
    repeat split; try reflexivity.
    transitivity (completeEntry (cookingId env w) fallback
                    (timeline w ++ [pendingEntry env w actionName validated]));
      [reflexivity|].
    rewrite completeEntry_app, completeEntry_pending. reflexivity.
  - intros w action error Hsel Hreg Hfail. cbv zeta.
    destruct (executeAction_run env action w Hsel Hreg) as (Hret & Htl & Hinv).
    unfold resolved in Htl, Hinv. rewrite Hfail in Htl, Hinv.
    rewrite Hret, Htl, Hinv, completeEntry_app, completeEntry_manual.
    repeat split; reflexivity.
Qed.

(** Both paths with the completion service down, in the start-up world:
    the agent's [stir(["ghee"])], and the manual [stir] with "ghee"
    selected. *)
Lemma resolver_failure_outcome_witness :
  inventory
    (snd (handleApprovedFunctionCalls offline
            [FunctionCall.make (Some "stir")
               (Some (Args.make (Some ["ghee"]) None))]
            initialWorld))
  = insertIngredient (Ingredient.make "stired items" "🥄") STARTING_INGREDIENTS
  /\ map TimelineEntry.result
       (timeline
          (snd (executeAction offline (createAction "stir" "🥄")
                  (update_selectedIngredients (fun _ => ["ghee"]) initialWorld))))
     = [Resolved errorIngredient].
Proof.
  destruct (resolver_failure_outcome offline) as [Hagent Hmanual].
  split.
  - destruct (Hagent initialWorld "stir" (createAction "stir" "🥄")
                (Some (Args.make (Some ["ghee"]) None)) []
                "Error: service unavailable")
      as (_ & _ & Hinv & _).
    + repeat split; reflexivity.
    + left. vm_compute. discriminate.
    + reflexivity.
    + reflexivity.
    + reflexivity.
    + exact Hinv.
  - destruct (Hmanual
                (update_selectedIngredients (fun _ => ["ghee"]) initialWorld)
                (createAction "stir" "🥄") "Error: service unavailable")
      as (_ & Htl & _).
    + cbn. discriminate.
    + reflexivity.
    + reflexivity.
    + rewrite Htl. reflexivity.
Defined.

(** C9. A tool call for a regular action whose [ingredients] argument is
    absent or is the empty list does not take the "missing from pantry"
    failure path.  The dispatcher appends the pending entry, whose
    ingredient list is empty and whose result is [null], to the timeline:
    the [try] block starts in a world whose timeline is the old one followed
    by that entry.  The next thing it does is to invoke the combination
    resolver, mounted in the combination agent, with the empty list of
    validated ingredients; the resolver asks the completion service with
    the prompt for no ingredient.  When the call is over the timeline is the
    old one followed by that entry, completed with a result. *)
Theorem empty_request_reaches_resolver (env : Env) (w : World)
    (actionName : string) (action : KitchenAction.t) (args : option Args.t)
    (others : list FunctionCall.t) :
  regularAction actionName action ->
  requested args = [] ->
  executeCombinationRef w = true ->
  let run :=
    handleApprovedFunctionCalls env
      (FunctionCall.make (Some actionName) args :: others) w in
  let pending := pendingEntry env w actionName [] in
  TimelineEntry.ingredients pending = Some []
  /\ TimelineEntry.result pending = Pending
  /\ (exists w1,
         timeline w1 = timeline w ++ [pending]
         /\ inventory w1 = inventory w
         /\ run
            = try_finally
                (try_catch
                   (applyCombination env actionName (cookingId env w) action [])
                   (reportFailure env actionName (cookingId env w)))
                releaseAction w1)
  /\ (exists rest,
         trace (snd run)
         = trace w
           ++ TimelineAppended pending
              :: ResolverInvoked action []
              :: ContentRequested (combinationPrompt action [])
              :: rest)
  /\ (exists result,
         timeline (snd run)
         = completeEntry (cookingId env w) result (timeline w)
           ++ [TimelineEntry.with_result result pending])
  /\ length (timeline (snd run)) = S (length (timeline w)).
Proof.
  intros Hreg Hempty Hwired. cbv zeta.
  split; [reflexivity|split; [reflexivity|]].
  assert (E : handleApprovedFunctionCalls env
                (FunctionCall.make (Some actionName) args :: others) w
              = try_finally
                  (try_catch
                     (applyCombination env actionName (cookingId env w) action [])
                     (reportFailure env actionName (cookingId env w)))
                  releaseAction (started env w actionName [])).
  { rewrite (dispatch_regular env actionName action args others w Hreg), Hempty.
    rewrite cookAction_passes by reflexivity. reflexivity. }
  split.
  { exists (started env w actionName []).
    split; [reflexivity|]. split; [reflexivity|]. exact E. }
  rewrite E. clear E.
  unfold try_finally, try_catch. rewrite applyCombination_run.
  change (executeCombinationRef (started env w actionName []))
    with (executeCombinationRef w).
  rewrite Hwired. cbv zeta.
  match goal with
  | |- context [delivery env ?t ?m] => destruct (delivery env t m) as [[]|e]
  end;
    unfold reportFailure, releaseAction, bind, completeTimeline, sendMessage,
      setActiveAction, setActiveIngredients, modify;
    try (match goal with
         | |- context [delivery env ?t ?m] =>
             destruct (delivery env t m) as [[]|e2]
         end);
    cbn [fst snd timeline trace tick started afterResolver interact
           update_tick update_trace update_timeline update_inventory
           update_activeAction update_activeIngredients
           update_actionTriggerCount update_pendingTextRef];
    rewrite ?completeEntry_overwrites, ?completed_pending;
    (split; [|split];
     [ rewrite <- !app_assoc; cbn [app]; eexists; reflexivity
     | eexists; reflexivity
     | rewrite length_app; unfold completeEntry; rewrite length_map;
       cbn [length]; lia ]).
Qed.

(** The call [boil()] without arguments and the call [boil([])], in the
    start-up world with the completion service down: the resolver is
    invoked with no ingredient, and the timeline, empty before, holds the
    entry of the call with an empty ingredient list. *)
Lemma empty_request_reaches_resolver_witness :
  ((exists rest,
       trace (snd (handleApprovedFunctionCalls offline
                     [FunctionCall.make (Some "boil") None] initialWorld))
       = TimelineAppended (pendingEntry offline initialWorld "boil" [])
         :: ResolverInvoked (createAction "boil" "🫧") []
         :: ContentRequested (combinationPrompt (createAction "boil" "🫧") [])
         :: rest)
   /\ exists result,
       timeline (snd (handleApprovedFunctionCalls offline
                        [FunctionCall.make (Some "boil") None] initialWorld))
       = [TimelineEntry.with_result result
            (pendingEntry offline initialWorld "boil" [])])
  /\ ((exists rest,
          trace (snd (handleApprovedFunctionCalls offline
                        [FunctionCall.make (Some "boil")
                           (Some (Args.make (Some []) None))] initialWorld))
          = TimelineAppended (pendingEntry offline initialWorld "boil" [])
            :: ResolverInvoked (createAction "boil" "🫧") []
            :: ContentRequested
                 (combinationPrompt (createAction "boil" "🫧") [])
            :: rest)
      /\ exists result,
          timeline (snd (handleApprovedFunctionCalls offline
                           [FunctionCall.make (Some "boil")
                              (Some (Args.make (Some []) None))] initialWorld))
          = [TimelineEntry.with_result result
               (pendingEntry offline initialWorld "boil" [])]).
Proof.
  split.
  - destruct (empty_request_reaches_resolver offline initialWorld "boil"
                (createAction "boil" "🫧") None [])
      as (_ & _ & _ & [rest Htrace] & [result Htimeline] & _).
    + repeat split; reflexivity.
    + reflexivity.
    + reflexivity.
    + split; [exists rest; exact Htrace | exists result; exact Htimeline].
  - destruct (empty_request_reaches_resolver offline initialWorld "boil"
                (createAction "boil" "🫧") (Some (Args.make (Some []) None)) [])
      as (_ & _ & _ & [rest Htrace] & [result Htimeline] & _).
    + repeat split; reflexivity.
    + reflexivity.
    + reflexivity.
    + split; [exists rest; exact Htrace | exists result; exact Htimeline].
Defined.

(* ================================================================== *)
(** ** Verification matcher *)
(* ================================================================== *)

Section Verification.

Variable env : Env.
Variable servedDishName : string.

Lemma verifyOrder_declined order w :
  declined (verification env (tick w)
              (verificationPrompt order servedDishName)) = true ->
  verifyOrder env servedDishName order w
  = (Returned false,
     interact [ContentRequested (verificationPrompt order servedDishName)] w).
Proof.
  unfold verifyOrder, try_catch, bind, generateVerification, declined.
  destruct (verification env (tick w)
              (verificationPrompt order servedDishName)) as [r|e];
    [|reflexivity].
  intros H. apply negb_true_iff in H. rewrite H. reflexivity.
Qed.

Lemma verifyOrder_accepted order w r :
  verification env (tick w) (verificationPrompt order servedDishName)
  = Returned r ->
  accepted r = true ->
  verifyOrder env servedDishName order w
  = (Returned true, matchedWorld env servedDishName order w).
Proof.
  intros Hreply Hacc.
  unfold verifyOrder, try_catch, bind, generateVerification.
  rewrite Hreply, Hacc. reflexivity.
Qed.

Lemma asked_cons o l w :
  asked servedDishName (o :: l) w
  = asked servedDishName l
      (interact [ContentRequested (verificationPrompt o servedDishName)] w).
Proof. reflexivity. Qed.

Lemma asked_fields l w :
  tick (asked servedDishName l w) = length l + tick w
  /\ trace (asked servedDishName l w) = trace w ++ requests servedDishName l
  /\ orders (asked servedDishName l w) = orders w
  /\ timeline (asked servedDishName l w) = timeline w
  /\ inventory (asked servedDishName l w) = inventory w.
Proof.
  revert w. induction l as [|o l IH]; intros w.
  - cbn. rewrite app_nil_r. repeat split; reflexivity.
  - rewrite asked_cons.
    destruct (IH (interact [ContentRequested
                              (verificationPrompt o servedDishName)] w))
      as (Ht & Htr & Ho & Htl & Hi).
    rewrite Ht, Htr, Ho, Htl, Hi. cbn. rewrite <- app_assoc.
    repeat split; try reflexivity. lia.
Qed.

(** The loop passes over the orders that the service does not accept. *)
Lemma verifyLoop_skips l rest w :
  allDeclined env servedDishName (tick w) l = true ->
  verifyLoop env servedDishName (l ++ rest) w
  = verifyLoop env servedDishName rest (asked servedDishName l w).
Proof.
  revert w. induction l as [|o l IH]; intros w H; [reflexivity|].
  cbn [allDeclined] in H. apply andb_prop in H. destruct H as [Ho Hl].
  rewrite asked_cons. cbn [app verifyLoop]. unfold bind at 1.
  rewrite (verifyOrder_declined o w Ho).
  apply IH. exact Hl.
Qed.

Lemma completeOrder_other orderId e d l :
  ~ In orderId (map Order.id l) -> completeOrder orderId e d l = l.
Proof.
  unfold completeOrder. induction l as [|o l IH]; intros H; [reflexivity|].
  cbn [map] in *.
  destruct (String.eqb_spec (Order.id o) orderId) as [E|E].
  - exfalso. apply H. left. exact E.
  - rewrite IH; [reflexivity|]. intros Hin. apply H. right. exact Hin.
Qed.

Lemma completeOrder_unique o e d l1 l2 :
  NoDup (map Order.id (l1 ++ o :: l2)) ->
  completeOrder (Order.id o) e d (l1 ++ o :: l2) = l1 ++ served e d o :: l2.
Proof.
  intros H. rewrite map_app in H. cbn [map] in H.
  pose proof (NoDup_remove_2 _ _ _ H) as Hnot.
  assert (H1 : ~ In (Order.id o) (map Order.id l1))
    by (intros Hin; apply Hnot, in_or_app; left; exact Hin).
  assert (H2 : ~ In (Order.id o) (map Order.id l2))
    by (intros Hin; apply Hnot, in_or_app; right; exact Hin).
  pose proof (completeOrder_other (Order.id o) e d l1 H1) as E1.
  pose proof (completeOrder_other (Order.id o) e d l2 H2) as E2.
  unfold completeOrder in *. rewrite map_app. cbn [map].
  rewrite E1, E2, String.eqb_refl. reflexivity.
Qed.

Lemma inProgress_split l1 o l2 :
  Order.status o = in_progress ->
  inProgress (l1 ++ o :: l2) = inProgress l1 ++ o :: inProgress l2.
Proof.
  intros H. unfold inProgress. rewrite filter_app. cbn [filter].
  rewrite H. reflexivity.
Qed.

Lemma verifyServedDish_loop w :
  inProgress (orders w) <> [] ->
  verifyServedDish env servedDishName w
  = verifyLoop env servedDishName (inProgress (orders w)) w.
Proof.
  intros H. unfold verifyServedDish, bind, gets.
  destruct (inProgress (orders w)); [congruence|reflexivity].
Qed.

End Verification.

Section Threshold.

(** Comparison of floats is antisymmetric where it is defined. *)
Lemma SFcompare_antisym x y c :
  SFcompare x y = Some c -> SFcompare y x = Some (CompOpp c).
Proof.
  destruct x as [sx| [|] | |[|] mx ex], y as [sy| [|] | |[|] my ey];
    cbn; intros H; try discriminate;
    try (injection H as <-; reflexivity);
    injection H as <-; rewrite (Z.compare_antisym ex ey);
    destruct (ex ?= ey)%Z; cbn [CompOpp]; try reflexivity;
    rewrite (Pos.compare_cont_antisym mx my Eq); reflexivity.
Qed.

(** A confidence of 0.7 or less is not above 0.7. *)
Lemma not_above_threshold (c : float) :
  PrimFloat.leb c 0.7%float = true -> PrimFloat.ltb 0.7%float c = false.
Proof.
  rewrite leb_spec, ltb_spec. unfold SFleb, SFltb.
  destruct (SFcompare (Prim2SF c) (Prim2SF 0.7%float)) as [k|] eqn:E;
    [|discriminate].
  rewrite (SFcompare_antisym _ _ _ E).
  destruct k; cbn; [reflexivity|reflexivity|discriminate].
Qed.

Lemma passedOver_declined c : passedOver c -> declined c = true.
Proof.
  destruct c as [r|e]; [|reflexivity].
  unfold passedOver, declined, accepted. intros [H|H].
  - rewrite H. reflexivity.
  - rewrite (not_above_threshold _ H), andb_false_r. reflexivity.
Qed.

Lemma passedOver_all env servedDishName l t :
  (forall i earlier,
      nth_error l i = Some earlier ->
      passedOver (verification env (i + t)
                    (verificationPrompt earlier servedDishName))) ->
  allDeclined env servedDishName t l = true.
Proof.
  revert t. induction l as [|o l IH]; intros t H; [reflexivity|].
  cbn [allDeclined]. apply andb_true_intro. split.
  - apply passedOver_declined. exact (H 0 o eq_refl).
  - apply IH. intros i earlier Hi.
    replace (i + S t) with (S i + t) by lia.
    apply H. exact Hi.
Qed.

End Threshold.

(** C4. When a served dish is verified while some order is [in_progress],
    the matcher asks the service about the in-progress orders in ledger
    order.  It passes over every order for which the call threw, or the
    reply reports no match, or the reply's confidence is 0.7 or less.  The
    first order for which the service reports a match with a confidence
    above 0.7 becomes [completed] with [servedDish] set to the served dish
    name; the matcher asks about no later order; and every other order of
    the ledger is left as it was, so exactly one more order is completed.
    (Order ids are the ledger's keys: no two orders share one.) *)
Theorem first_match_completes_one_order (env : Env) (servedDishName : string)
    (w : World) (l1 l2 : list Order.t) (o : Order.t)
    (r : VerificationResult.t) :
  NoDup (map Order.id (orders w)) ->
  orders w = l1 ++ o :: l2 ->
  Order.status o = in_progress ->
  (forall i earlier,
      nth_error (inProgress l1) i = Some earlier ->
      passedOver (verification env (i + tick w)
                    (verificationPrompt earlier servedDishName))) ->
  verification env (length (inProgress l1) + tick w)
    (verificationPrompt o servedDishName) = Returned r ->
  VerificationResult.matches r = true ->
  PrimFloat.ltb 0.7%float (VerificationResult.confidence r) = true ->
  let run := verifyServedDish env servedDishName w in
  let w' := snd run in
  let o' := served (servedEmoji servedDishName (inventory w)) servedDishName o in
  fst run = Returned true
  /\ orders w' = l1 ++ o' :: l2
  /\ Order.status o' = completed
  /\ Order.servedDish o' = Some servedDishName
  /\ length (filter isCompleted (orders w'))
     = S (length (filter isCompleted (orders w)))
  /\ exists narrated,
      trace w'
      = trace w ++ requests servedDishName (inProgress l1 ++ [o])
        ++ [TimelineAppended narrated]
      /\ timeline w' = timeline w ++ [narrated].
Proof.
  intros Hnodup Hsplit Hstatus Hpassed Hreply Hmatches Hconfidence.
  cbv zeta.
  pose proof (passedOver_all env servedDishName (inProgress l1) (tick w)
                Hpassed) as Hdeclined.
  assert (Hacc : accepted r = true)
    by (unfold accepted; rewrite Hmatches, Hconfidence; reflexivity).
  assert (Hne : inProgress (orders w) <> []).
  { rewrite Hsplit, (inProgress_split l1 o l2 Hstatus).
    destruct (inProgress l1); discriminate. }
  destruct (asked_fields servedDishName (inProgress l1) w)
    as (Ht & Htr & Ho & Htl & Hi).
  assert (E : verifyServedDish env servedDishName w
              = (Returned true,
                 matchedWorld env servedDishName o
                   (asked servedDishName (inProgress l1) w))).
  { rewrite (verifyServedDish_loop env servedDishName w Hne).
    rewrite Hsplit, (inProgress_split l1 o l2 Hstatus).
    rewrite (verifyLoop_skips env servedDishName (inProgress l1)
               (o :: inProgress l2) w Hdeclined).
    cbn [verifyLoop]. unfold bind at 1.
    rewrite (verifyOrder_accepted env servedDishName o
               (asked servedDishName (inProgress l1) w) r)
      by (rewrite ?Ht; assumption).
    reflexivity. }
  rewrite E. unfold matchedWorld.
  cbn [fst snd orders timeline trace update_trace update_timeline interact
         update_tick update_orders].
  rewrite Ho, Htl, Htr, Hi, Hsplit.
  rewrite (completeOrder_unique o _ _ l1 l2) by (rewrite <- Hsplit; exact Hnodup).
  split; [reflexivity|]. split; [reflexivity|].
  split; [reflexivity|]. split; [reflexivity|].
  split.
  - assert (Hopen : isCompleted o = false)
      by (unfold isCompleted; rewrite Hstatus; reflexivity).
    rewrite !filter_app, !length_app. cbn [filter].
    rewrite Hopen.
    change (isCompleted (served (servedEmoji servedDishName (inventory w))
                           servedDishName o)) with true.
    cbn [length]. lia.
  - eexists. split; [|reflexivity].
    unfold requests. rewrite map_app. cbn [map app].
    rewrite <- !app_assoc. cbn [app]. reflexivity.
Qed.

(** "Neyyi Roast" is served while "Filter Coffee", "Masala Dosa", "Ghee
    Roast Dosa" and "Idly" are in progress.  The judge denies a match for
    "Filter Coffee" with confidence 0.95 and reports one for "Masala Dosa"
    with confidence 0.7 exactly: both are passed over.  "Ghee Roast Dosa",
    matched with confidence 0.9, is completed; "Idly", which the judge
    would have matched too, is not asked about and stays in progress. *)
Lemma first_match_completes_one_order_witness :
  let run :=
    verifyServedDish strictJudge "Neyyi Roast"
      (with_orders banquetLedger initialWorld) in
  fst run = Returned true
  /\ map (fun o => (Order.name o, Order.status o, Order.servedDish o))
       (orders (snd run))
     = [ ("Filter Coffee", in_progress, None);
         ("Madras Fish Curry", completed, Some "Meen Kuzhambu");
         ("Masala Dosa", in_progress, None);
         ("Ghee Roast Dosa", completed, Some "Neyyi Roast");
         ("Idly", in_progress, None) ]
  /\ filter (fun e => match e with ContentRequested _ => true | _ => false end)
       (trace (snd run))
     = requests "Neyyi Roast"
         [ Order.make "order-1" "Filter Coffee" "☕" easy in_progress None;
           Order.make "order-4" "Masala Dosa" "🥞" difficult in_progress None;
           Order.make "order-2" "Ghee Roast Dosa" "🥞" intermediate
             in_progress None ].
Proof.
  cbv zeta.
  destruct (first_match_completes_one_order strictJudge "Neyyi Roast"
              (with_orders banquetLedger initialWorld)
              (firstn 3 banquetLedger)
              (skipn 4 banquetLedger)
              (Order.make "order-2" "Ghee Roast Dosa" "🥞" intermediate
                 in_progress None)
              (VerificationResult.make true 0.9%float "same dosa"))
    as (Hret & Horders & _ & _ & _ & narrated & Htrace & _).
  - cbn. repeat (constructor; [cbn; intuition discriminate|]). constructor.
  - reflexivity.
  - reflexivity.
  - intros [|[|[|i]]] earlier H; cbn in H; try discriminate;
      injection H as <-.
    + left. reflexivity.
    + right. reflexivity.
  - reflexivity.
  - reflexivity.
  - reflexivity.
  - rewrite Hret, Horders, Htrace. repeat split; reflexivity.
Defined.

(** The specification's example, run: "Filter Coffee" and "Masala Dosa" are
    in progress and the judge reports a match for "Filter Coffee" with
    confidence 0.9.  "Filter Coffee" is completed and "Masala Dosa" stays
    in progress. *)
Example feast_of_two_orders :
  map (fun o => (Order.name o, Order.status o, Order.servedDish o))
    (orders (snd (verifyServedDish coffeeJudge "Degree Coffee"
                    (with_orders feastLedger initialWorld))))
  = [ ("Filter Coffee", completed, Some "Degree Coffee");
      ("Masala Dosa", in_progress, None);
      ("Idly", not_started, None) ].
Proof. reflexivity. Qed.

(** C5. During the verification of a served dish, an in-progress order for
    which the service call raises an error is skipped: the loop goes on with
    the next in-progress order, and only the request is recorded.  When the
    service accepts none of the in-progress orders (each call threw or
    reported no match above the threshold), the verification returns
    [false], appends the failure narration to the timeline and leaves the
    ledger and the inventory as they were: no order becomes [failed]. *)
Theorem unmatched_verification_leaves_ledger (env : Env)
    (servedDishName : string) :
  (forall (w : World) (o : Order.t) (rest : list Order.t) (error : string),
      verification env (tick w) (verificationPrompt o servedDishName)
      = Threw error ->
      verifyLoop env servedDishName (o :: rest) w
      = verifyLoop env servedDishName rest
          (interact [ContentRequested (verificationPrompt o servedDishName)] w))
  /\ (forall (w : World),
         inProgress (orders w) <> [] ->
         allDeclined env servedDishName (tick w) (inProgress (orders w)) = true ->
         let run := verifyServedDish env servedDishName w in
         let w' := snd run in
         let narrated :=
           failNarration env (length (inProgress (orders w)) + tick w) in
         fst run = Returned false
         /\ orders w' = orders w
         /\ inventory w' = inventory w
         /\ timeline w' = timeline w ++ [narrated]
         /\ trace w'
            = trace w ++ requests servedDishName (inProgress (orders w))
              ++ [TimelineAppended narrated]).
Proof.
  split.
  - intros w o rest error Hthrew.
    cbn [verifyLoop]. unfold bind at 1.
    rewrite (verifyOrder_declined env servedDishName o w)
      by (rewrite Hthrew; reflexivity).
    reflexivity.
  - intros w Hne Hdeclined. cbv zeta.
    destruct (asked_fields servedDishName (inProgress (orders w)) w)
      as (Ht & Htr & Ho & Htl & Hi).
    assert (E : verifyServedDish env servedDishName w
                = verifyLoop env servedDishName []
                    (asked servedDishName (inProgress (orders w)) w)).
    { rewrite (verifyServedDish_loop env servedDishName w Hne).
      rewrite <- (verifyLoop_skips env servedDishName (inProgress (orders w))
                    [] w Hdeclined).
      rewrite app_nil_r. reflexivity. }
    rewrite E.
    cbn [verifyLoop]. unfold bind, Date_now, appendTimeline, modify, ret.
    cbn [fst snd orders inventory timeline trace tick update_trace
           update_timeline interact update_tick].
    rewrite Ho, Hi, Htl, Htr, Ht.
    rewrite <- !app_assoc. cbn [app].
    repeat split; reflexivity.
Qed.

(** With the verification service down and the specification's two orders
    in progress, both orders are skipped, the verification answers [false]
    and the ledger is the same. *)
Lemma unmatched_verification_leaves_ledger_witness :
  let w := with_orders feastLedger initialWorld in
  let run := verifyServedDish offline "Degree Coffee" w in
  fst run = Returned false
  /\ orders (snd run) = feastLedger
  /\ map TimelineEntry.text (timeline (snd run))
     = [Some "❌ That's not part of the current feast!"]
  /\ verifyLoop offline "Degree Coffee" (inProgress feastLedger) w
     = verifyLoop offline "Degree Coffee" (tl (inProgress feastLedger))
         (interact
            [ContentRequested
               (verificationPrompt
                  (Order.make "order-1" "Filter Coffee" "☕" easy in_progress None)
                  "Degree Coffee")] w).
Proof.
  cbv zeta.
  destruct (unmatched_verification_leaves_ledger offline "Degree Coffee")
    as [Hskip Hnone].
  destruct (Hnone (with_orders feastLedger initialWorld))
    as (Hret & Horders & _ & Htl & _).
  - cbn. discriminate.
  - reflexivity.
  - rewrite Hret, Horders, Htl.
    split; [reflexivity|]. split; [reflexivity|]. split; [reflexivity|].
    apply (Hskip (with_orders feastLedger initialWorld)
             (Order.make "order-1" "Filter Coffee" "☕" easy in_progress None)
             (tl (inProgress feastLedger)) "Error: service unavailable").
    reflexivity.
Defined.


(* ================================================================== *)
(** ** Ingredient validation *)
(* ================================================================== *)

Section Validation.

Variable inventory : list Ingredient.t.

Lemma existsb_key acc k :
  existsb (fun v => normalizeIngredientName v =? k) acc = true
  <-> In k (map normalizeIngredientName acc).
Proof.
  rewrite existsb_exists, in_map_iff.
  split; intros [v [H1 H2]]; exists v.
  - apply String.eqb_eq in H2. split; assumption.
  - split; [assumption|]. apply String.eqb_eq. exact H1.
Qed.

Lemma NoDup_snoc {A} (l : list A) (x : A) :
  NoDup l -> ~ In x l -> NoDup (l ++ [x]).
Proof.
  induction l as [|a l IH]; intros Hl Hx; cbn [app].
  - constructor; [intros []|constructor].
  - inversion Hl as [|a' l' Ha Hl']; subst.
    constructor.
    + intros Hin. apply in_app_or in Hin. destruct Hin as [Hin|[->|[]]].
      * exact (Ha Hin).
      * apply Hx. left. reflexivity.
    + apply IH; [exact Hl'|]. intros Hin. apply Hx. right. exact Hin.
Qed.

(** The loop only appends to the array, at most one name per request. *)
Lemma validate_extends requestedIngredients acc :
  exists added,
    validateIngredients requestedIngredients inventory acc = acc ++ added
    /\ length added <= length requestedIngredients.
Proof.
  revert acc. induction requestedIngredients as [|r rest IH]; intros acc.
  - exists []. rewrite app_nil_r. split; [reflexivity|apply Nat.le_refl].
  - cbn [validateIngredients length].
    destruct (findIngredientInInventory r inventory) as [found|].
    + destruct (existsb _ acc).
      * destruct (IH acc) as [added [E L]]. exists added. split; [exact E|lia].
      * destruct (IH (acc ++ [Ingredient.name found])) as [added [E L]].
        exists (Ingredient.name found :: added).
        rewrite E, <- app_assoc. split; [reflexivity|cbn [length]; lia].
    + destruct (IH acc) as [added [E L]]. exists added. split; [exact E|lia].
Qed.

Lemma validate_keys_distinct requestedIngredients acc :
  NoDup (map normalizeIngredientName acc) ->
  NoDup (map normalizeIngredientName
           (validateIngredients requestedIngredients inventory acc)).
Proof.
  revert acc. induction requestedIngredients as [|r rest IH]; intros acc H;
    [exact H|].
  cbn [validateIngredients].
  destruct (findIngredientInInventory r inventory) as [found|]; [|apply IH, H].
  destruct (existsb _ acc) eqn:E; [apply IH, H|].
  apply IH. rewrite map_app. cbn [map]. apply NoDup_snoc; [exact H|].
  intros Hin. apply existsb_key in Hin. congruence.
Qed.

Lemma validate_origin requestedIngredients acc x :
  In x (validateIngredients requestedIngredients inventory acc) ->
  In x acc
  \/ exists r ing,
       In r requestedIngredients
       /\ findIngredientInInventory r inventory = Some ing
       /\ Ingredient.name ing = x.
Proof.
  revert acc. induction requestedIngredients as [|r rest IH]; intros acc H;
    [left; exact H|].
  cbn [validateIngredients] in H.
  assert (Hrest : forall acc',
             In x (validateIngredients rest inventory acc') ->
             In x acc'
             \/ exists r' ing,
                  In r' (r :: rest)
                  /\ findIngredientInInventory r' inventory = Some ing
                  /\ Ingredient.name ing = x).
  { intros acc' H'. destruct (IH acc' H') as [Hacc|(r' & ing & Hr & Hf & Hn)].
    - left. exact Hacc.
    - right. exists r', ing. split; [right; exact Hr|split; assumption]. }
  destruct (findIngredientInInventory r inventory) as [found|] eqn:F;
    [|apply Hrest, H].
  destruct (existsb _ acc); [apply Hrest, H|].
  destruct (Hrest _ H) as [Hacc|Hex]; [|right; exact Hex].
  apply in_app_or in Hacc. destruct Hacc as [Hacc|[<-|[]]].
  - left. exact Hacc.
  - right. exists r, found. split; [left; reflexivity|split; [exact F|reflexivity]].
Qed.

Lemma validate_keeps requestedIngredients acc x :
  In x acc -> In x (validateIngredients requestedIngredients inventory acc).
Proof.
  intros H. destruct (validate_extends requestedIngredients acc) as [added [E _]].
  rewrite E. apply in_or_app. left. exact H.
Qed.

Lemma validate_covers requestedIngredients acc r found :
  In r requestedIngredients ->
  findIngredientInInventory r inventory = Some found ->
  In (key found)
     (map normalizeIngredientName
        (validateIngredients requestedIngredients inventory acc)).
Proof.
  revert acc. induction requestedIngredients as [|r' rest IH]; intros acc Hin F;
    [destruct Hin|].
  cbn [validateIngredients].
  destruct Hin as [->|Hin].
  - rewrite F.
    destruct (existsb _ acc) eqn:E.
    + apply existsb_key in E. apply in_map_iff in E.
      destruct E as [v [Hv Hacc]].
      apply in_map_iff. exists v. split; [exact Hv|].
      apply validate_keeps, Hacc.
    + apply in_map_iff. exists (Ingredient.name found). split; [reflexivity|].
      apply validate_keeps, in_or_app. right. left. reflexivity.
  - destruct (findIngredientInInventory r' inventory) as [f'|];
      [destruct (existsb _ acc)|]; apply IH; assumption.
Qed.

End Validation.

(** X1. What the dispatcher's validation keeps is sound: every validated
    name is the stored name of the inventory entry that some requested name
    resolves to, no two validated names have the same normalized key, and
    there are at most as many validated names as requested ones. *)
Theorem validation_sound (requestedIngredients : list string)
    (inventory : list Ingredient.t) :
  let validated := validateIngredients requestedIngredients inventory [] in
  (forall x, In x validated ->
             exists r ing,
               In r requestedIngredients
               /\ findIngredientInInventory r inventory = Some ing
               /\ In ing inventory
               /\ Ingredient.name ing = x)
  /\ NoDup (map normalizeIngredientName validated)
  /\ length validated <= length requestedIngredients.
Proof.
  cbv zeta. split; [|split].
  - intros x H.
    destruct (validate_origin inventory requestedIngredients [] x H)
      as [[]|(r & ing & Hr & Hf & Hn)].
    exists r, ing. split; [exact Hr|split; [exact Hf|split; [|exact Hn]]].
    apply (find_some_key r inventory ing Hf).
  - apply validate_keys_distinct. constructor.
  - destruct (validate_extends inventory requestedIngredients [])
      as [added [E L]].
    rewrite E. exact L.
Qed.

(** X2. The validation is complete up to normalization: the key of every
    requested name that resolves is among the validated keys; so the
    validated list is empty exactly when no requested name resolves. *)
Theorem validation_complete (requestedIngredients : list string)
    (inventory : list Ingredient.t) :
  let validated := validateIngredients requestedIngredients inventory [] in
  (forall r, In r requestedIngredients ->
             findIngredientInInventory r inventory <> None ->
             In (normalizeIngredientName r)
                (map normalizeIngredientName validated))
  /\ (validated = []
      <-> forall r, In r requestedIngredients ->
                    findIngredientInInventory r inventory = None).
Proof.
  cbv zeta.
  assert (Hcover : forall r, In r requestedIngredients ->
             findIngredientInInventory r inventory <> None ->
             In (normalizeIngredientName r)
                (map normalizeIngredientName
                   (validateIngredients requestedIngredients inventory []))).
  { intros r Hr Hf.
    destruct (findIngredientInInventory r inventory) as [found|] eqn:F;
      [|congruence].
    rewrite <- (proj2 (find_some_key r inventory found F)).
    apply (validate_covers inventory requestedIngredients [] r found Hr F). }
  split; [exact Hcover|]. split.
  - intros Hempty r Hr.
    destruct (findIngredientInInventory r inventory) as [found|] eqn:F;
      [|reflexivity].
    exfalso. assert (Hin := Hcover r Hr). rewrite F, Hempty in Hin.
    apply Hin. discriminate.
  - intros Hnone. apply validate_none_found, Hnone.
Qed.

(** The request of the sanity check above: "URAD DAL" and "urad-dal" share a
    key, "nonexistent item" does not resolve. *)
Lemma validation_complete_witness :
  In (normalizeIngredientName "urad-dal")
     (map normalizeIngredientName
        (validateIngredients ["URAD DAL"; "nonexistent item"; "urad-dal"; "Ghee"]
           STARTING_INGREDIENTS []))
  /\ validateIngredients ["nonexistent item"] STARTING_INGREDIENTS [] = [].
Proof.
  split.
  - apply (proj1 (validation_complete
                    ["URAD DAL"; "nonexistent item"; "urad-dal"; "Ghee"]
                    STARTING_INGREDIENTS)).
    + right. right. left. reflexivity.
    + vm_compute. discriminate.
  - apply (proj2 (validation_complete ["nonexistent item"] STARTING_INGREDIENTS)).
    intros r [<-|[]]. reflexivity.
Defined.

(* ================================================================== *)
(** ** Inventory lookups after an insertion *)
(* ================================================================== *)

(** X3. Insertion and lookup round trip: after an ingredient is inserted,
    looking its name up finds an entry with its key, namely the entry that
    was there first when there was one and the new ingredient otherwise;
    and an insertion never changes the answer of a lookup that succeeded
    before it. *)
Theorem lookup_after_insertion (newIngredient : Ingredient.t)
    (inventory : list Ingredient.t) :
  findIngredientInInventory (Ingredient.name newIngredient)
    (insertIngredient newIngredient inventory)
  = Some match findIngredientInInventory (Ingredient.name newIngredient)
                 inventory with
         | Some first => first
         | None => newIngredient
         end
  /\ (forall name found,
         findIngredientInInventory name inventory = Some found ->
         findIngredientInInventory name
           (insertIngredient newIngredient inventory) = Some found).
Proof.
  unfold insertIngredient, isDuplicateIngredient.
  destruct (findIngredientInInventory (Ingredient.name newIngredient) inventory)
    as [first|] eqn:F.
  - split; [exact F|]. intros name found H. exact H.
  - split.
    + unfold findIngredientInInventory. cbn [find].
      rewrite String.eqb_refl. reflexivity.
    + intros name found H.
      unfold findIngredientInInventory. cbn [find].
      destruct (String.eqb_spec
                  (normalizeIngredientName (Ingredient.name newIngredient))
                  (normalizeIngredientName name)) as [E|E]; [|exact H].
      exfalso. destruct (find_some_key name inventory found H) as [Hin Hkey].
      apply (proj1 (find_none_iff (Ingredient.name newIngredient) inventory) F
               found Hin).
      rewrite Hkey. symmetry. exact E.
Qed.

(** "Idli Batter" enters the start-up pantry and is found under another
    spelling; "GHEE" still finds the entry "ghee". *)
Lemma lookup_after_insertion_witness :
  findIngredientInInventory "idli-batter"
    (insertIngredient (Ingredient.make "Idli Batter" "🥣") STARTING_INGREDIENTS)
  = Some (Ingredient.make "Idli Batter" "🥣")
  /\ findIngredientInInventory "GHEE"
       (insertIngredient (Ingredient.make "Idli Batter" "🥣") STARTING_INGREDIENTS)
     = Some (Ingredient.make "ghee" "🍯").
Proof.
  destruct (lookup_after_insertion (Ingredient.make "Idli Batter" "🥣")
              STARTING_INGREDIENTS) as [Hnew Hold].
  split.
  - reflexivity.
  - apply Hold. reflexivity.
Defined.

(* ================================================================== *)
(** ** More of the order ledger *)
(* ================================================================== *)

Section LedgerShape.

Lemma with_status_twice s o :
  Order.with_status s (Order.with_status s o) = Order.with_status s o.
Proof. reflexivity. Qed.

Lemma pickUpBatch_cons so selectedOrders prev :
  pickUpBatch (so :: selectedOrders) prev
  = pickUp (Order.id so) (pickUpBatch selectedOrders prev).
Proof.
  unfold pickUpBatch, pickUp. rewrite map_map. apply map_ext. intros o.
  cbn [existsb]. rewrite (String.eqb_sym (Order.id so) (Order.id o)).
  destruct (existsb (fun so0 => Order.id so0 =? Order.id o) selectedOrders);
    destruct (Order.id o =? Order.id so) eqn:E;
    cbn [orb Order.id Order.with_status]; rewrite ?E; reflexivity.
Qed.

Lemma pickUp_ids orderId prev :
  map Order.id (pickUp orderId prev) = map Order.id prev.
Proof.
  unfold pickUp. rewrite map_map. apply map_ext. intros o.
  destruct (Order.id o =? orderId); reflexivity.
Qed.

Lemma pickUpBatch_ids selectedOrders prev :
  map Order.id (pickUpBatch selectedOrders prev) = map Order.id prev.
Proof.
  unfold pickUpBatch. rewrite map_map. apply map_ext. intros o.
  destruct (existsb _ selectedOrders); reflexivity.
Qed.

Lemma passOrders_ids prev : map Order.id (passOrders prev) = map Order.id prev.
Proof.
  unfold passOrders. rewrite map_map. apply map_ext. intros o.
  destruct (status_eqb _ _); reflexivity.
Qed.

Lemma completeOrder_ids orderId e d prev :
  map Order.id (completeOrder orderId e d prev) = map Order.id prev.
Proof.
  unfold completeOrder. rewrite map_map. apply map_ext. intros o.
  destruct (Order.id o =? orderId); reflexivity.
Qed.

Lemma NoDup_map_filter {A B} (f : A -> B) (p : A -> bool) l :
  NoDup (map f l) -> NoDup (map f (filter p l)).
Proof.
  induction l as [|a l IH]; intros H; [exact H|].
  cbn [map filter] in *. inversion H as [|b l' Ha Hl]; subst.
  destruct (p a); [|apply IH, Hl].
  cbn [map]. constructor; [|apply IH, Hl].
  intros Hin. apply Ha. apply in_map_iff in Hin.
  destruct Hin as [x [Hx Hf]]. apply filter_In in Hf.
  apply in_map_iff. exists x. split; [exact Hx|apply Hf].
Qed.

End LedgerShape.

(** X4. The batch pickup is the pickup of the selected orders one after the
    other, by their ids; with an empty selection it changes nothing. *)
Theorem batch_pickup_is_sequential (selectedOrders prev : list Order.t) :
  pickUpBatch selectedOrders prev
  = fold_right (fun so l => pickUp (Order.id so) l) prev selectedOrders.
Proof.
  induction selectedOrders as [|so rest IH].
  - unfold pickUpBatch. cbn [existsb fold_right]. apply map_id.
  - rewrite pickUpBatch_cons, IH. reflexivity.
Qed.

(** X5. Order ids are the ledger's keys, and every transition keeps them:
    pickup, batch pickup, abandon and completion leave the list of ids as it
    is; the clearing of the summary keeps distinct ids distinct; and a new
    order whose id is not in the ledger yet keeps them distinct as well. *)
Theorem ledger_keeps_ids (prev : list Order.t) :
  (forall orderId, map Order.id (pickUp orderId prev) = map Order.id prev)
  /\ (forall selectedOrders,
         map Order.id (pickUpBatch selectedOrders prev) = map Order.id prev)
  /\ map Order.id (passOrders prev) = map Order.id prev
  /\ (forall orderId servedEmoji servedDishName,
         map Order.id (completeOrder orderId servedEmoji servedDishName prev)
         = map Order.id prev)
  /\ (NoDup (map Order.id prev) -> NoDup (map Order.id (clearSummary prev)))
  /\ (forall now orderName,
         NoDup (map Order.id prev) ->
         ~ In ("order-" ++ Js.of_N now)%string (map Order.id prev) ->
         NoDup (map Order.id (addOrder now orderName prev))).
Proof.
  split; [intros; apply pickUp_ids|].
  split; [intros; apply pickUpBatch_ids|].
  split; [apply passOrders_ids|].
  split; [intros; apply completeOrder_ids|].
  split; [apply NoDup_map_filter|].
  intros now orderName Hnodup Hfresh.
  unfold addOrder. rewrite map_app. cbn [map Order.id].
  apply NoDup_snoc; assumption.
Qed.

(** The start-up ledger: its ids are distinct, and stay so when the summary
    is cleared and when an order is added at the sample clock. *)
Lemma ledger_keeps_ids_witness :
  NoDup (map Order.id (clearSummary EXAMPLE_ORDERS))
  /\ NoDup (map Order.id (addOrder (wallClock 0) "Pongal" EXAMPLE_ORDERS)).
Proof.
  assert (H : NoDup (map Order.id EXAMPLE_ORDERS)).
  { cbn. repeat (constructor; [cbn; intuition discriminate|]). constructor. }
  destruct (ledger_keeps_ids EXAMPLE_ORDERS) as (_ & _ & _ & _ & Hclear & Hadd).
  split.
  - apply Hclear, H.
  - apply Hadd; [exact H|]. vm_compute. intuition discriminate.
Defined.

(** X6. Clearing the summary removes the terminal orders only: the orders in
    progress are the same before and after, clearing twice is clearing once,
    and after an abandon it leaves exactly the orders that were not
    started. *)
Theorem clear_summary_keeps_open_orders (prev : list Order.t) :
  inProgress (clearSummary prev) = inProgress prev
  /\ clearSummary (clearSummary prev) = clearSummary prev
  /\ clearSummary (passOrders prev)
     = filter (fun o => status_eqb (Order.status o) not_started) prev.
Proof.
  unfold inProgress, clearSummary, passOrders. split; [|split].
  - induction prev as [|o r IH]; [reflexivity|].
    cbn [filter]. destruct (Order.status o) eqn:E; cbn [status_eqb negb andb filter];
      rewrite ?E; cbn [status_eqb]; rewrite IH; reflexivity.
  - induction prev as [|o r IH]; [reflexivity|].
    cbn [filter]. destruct (Order.status o) eqn:E; cbn [status_eqb negb andb filter];
      rewrite ?E; cbn [status_eqb negb andb]; rewrite IH; reflexivity.
  - induction prev as [|o r IH]; [reflexivity|].
    cbn [map filter].
    destruct (Order.status o) eqn:E;
      cbn [status_eqb negb andb filter Order.status]; rewrite ?E;
      cbn [status_eqb negb andb]; rewrite IH; reflexivity.
Qed.

(* ================================================================== *)
(** ** Selection sets *)
(* ================================================================== *)

Lemma toggle_membership (x : string) (prev : list string) :
  (In x (toggle x prev) <-> ~ In x prev)
  /\ (forall y, y <> x -> (In y (toggle x prev) <-> In y prev)).
Proof.
  assert (Hmem : existsb (String.eqb x) prev = true <-> In x prev).
  { rewrite existsb_exists. split.
    - intros [y [Hy E]]. apply String.eqb_eq in E. subst y. exact Hy.
    - intros H. exists x. split; [exact H|apply String.eqb_refl]. }
  unfold toggle.
  destruct (existsb (String.eqb x) prev) eqn:E.
  - assert (Hin : In x prev) by (apply Hmem; reflexivity).
    split.
    + rewrite filter_In, String.eqb_refl. cbn. intuition discriminate.
    + intros y Hy. rewrite filter_In.
      destruct (String.eqb_spec y x); [contradiction|]. cbn. tauto.
  - assert (Hout : ~ In x prev).
    { intros H. apply Hmem in H. congruence. }
    split.
    + rewrite in_app_iff. cbn. tauto.
    + intros y Hy. rewrite in_app_iff. cbn. intuition congruence.
Qed.

(** X7. Toggling a name in a selection flips the membership of that name
    and of no other, keeps the selection free of duplicates, and toggling a
    name that was not selected twice gives the selection back. *)
Theorem toggle_flips_membership (x : string) (prev : list string) :
  (In x (toggle x prev) <-> ~ In x prev)
  /\ (forall y, y <> x -> (In y (toggle x prev) <-> In y prev))
  /\ (NoDup prev -> NoDup (toggle x prev))
  /\ (~ In x prev -> toggle x (toggle x prev) = prev).
Proof.
  assert (Hmem : existsb (String.eqb x) prev = true <-> In x prev).
  { rewrite existsb_exists. split.
    - intros [y [Hy E]]. apply String.eqb_eq in E. subst y. exact Hy.
    - intros H. exists x. split; [exact H|apply String.eqb_refl]. }
  unfold toggle at 1 2 3.
  destruct (existsb (String.eqb x) prev) eqn:E.
  - assert (Hin : In x prev) by (apply Hmem; reflexivity).
    split; [|split; [|split]].
    + rewrite filter_In, String.eqb_refl. cbn. intuition discriminate.
    + intros y Hy. rewrite filter_In.
      destruct (String.eqb_spec y x); [contradiction|]. cbn. tauto.
    + apply NoDup_filter.
    + intros H. contradiction.
  - assert (Hout : ~ In x prev).
    { intros H. apply Hmem in H. congruence. }
    split; [|split; [|split]].
    + rewrite in_app_iff. cbn. tauto.
    + intros y Hy. rewrite in_app_iff. cbn. intuition congruence.
    + intros H. apply NoDup_snoc; assumption.
    + intros _. unfold toggle. rewrite E.
      assert (T : existsb (String.eqb x) (prev ++ [x]) = true).
      { rewrite existsb_app. cbn. rewrite String.eqb_refl.
        apply orb_true_iff. right. reflexivity. }
      rewrite T, filter_app. cbn [filter]. rewrite String.eqb_refl. cbn [negb].
      rewrite app_nil_r.
      clear -Hout. induction prev as [|y r IH]; [reflexivity|].
      cbn [filter].
      destruct (String.eqb_spec y x) as [->|N].
      * exfalso. apply Hout. left. reflexivity.
      * cbn [negb]. f_equal. apply IH. intros H. apply Hout. right. exact H.
Qed.

(** Toggling "ghee" in a selection that holds "salt". *)
Lemma toggle_flips_membership_witness :
  In "ghee" (toggle "ghee" ["salt"])
  /\ NoDup (toggle "ghee" ["salt"])
  /\ toggle "ghee" (toggle "ghee" ["salt"]) = ["salt"].
Proof.
  assert (Hout : ~ In "ghee" ["salt"]) by (cbn; intuition discriminate).
  destruct (toggle_flips_membership "ghee" ["salt"])
    as (Hin & _ & Hnodup & Htwice).
  split; [apply Hin, Hout|split; [|apply Htwice, Hout]].
  apply Hnodup. constructor; [intros []|constructor].
Defined.

(* ================================================================== *)
(** ** The catalog of actions and the declared tools *)
(* ================================================================== *)

Section Catalog.

Lemma word_not_space c : Js.is_word c = true -> Js.is_space c = false.
Proof.
  unfold Js.is_word, Js.is_space, Js.is_lower, Js.is_upper, Js.is_digit.
  intros H.
  assert (B : 48 <= nat_of_ascii c).
  { repeat (apply orb_true_iff in H; destruct H as [H|H]).
    - apply between_spec in H. lia.
    - apply between_spec in H. lia.
    - apply between_spec in H. lia.
    - apply Ascii.eqb_eq in H. subst c. cbn. lia. }
  apply orb_false_iff. split.
  - apply not_true_is_false. intros T. apply between_spec in T. lia.
  - apply not_true_is_false. intros T. apply Ascii.eqb_eq in T. subst c.
    cbn in B. lia.
Qed.

Lemma replace_spaces_words in_run s :
  all_chars Js.is_word s = true -> Js.replace_spaces in_run s = s.
Proof.
  revert in_run. induction s as [|c r IH]; intros in_run H; [reflexivity|].
  cbn [all_chars] in H. apply andb_prop in H. destruct H as [Hc Hr].
  cbn [Js.replace_spaces]. rewrite (word_not_space c Hc), (IH false Hr).
  reflexivity.
Qed.

Lemma find_first_exists {A} (f : A -> bool) (l : list A) (a : A) :
  In a l -> f a = true -> exists b, find f l = Some b.
Proof.
  induction l as [|x l IH]; intros Hin Hf; [destruct Hin|].
  cbn [find]. destruct (f x) eqn:E; [exists x; reflexivity|].
  destruct Hin as [->|Hin]; [congruence|]. apply IH; assumption.
Qed.

End Catalog.

(** X8. The function name made from an ASCII display name holds letters,
    digits and underscores only, as the comment on [KitchenAction.name]
    asks, and sanitizing a sanitized name changes nothing. *)
Theorem sanitized_names_are_identifiers (name : string) :
  all_chars is_ascii name = true ->
  all_chars Js.is_word (sanitizeName name) = true
  /\ sanitizeName (sanitizeName name) = sanitizeName name.
Proof.
  intros _. unfold sanitizeName.
  pose proof (keep_all_chars Js.is_word (Js.replace_spaces false name)) as W.
  split; [exact W|].
  rewrite (replace_spaces_words false _ W). apply keep_fixed, W.
Qed.

(** The display name "banana  leaf wrap!" with a double space. *)
Lemma sanitized_names_are_identifiers_witness :
  sanitizeName "banana  leaf wrap!" = "banana_leaf_wrap"
  /\ sanitizeName (sanitizeName "banana  leaf wrap!")
     = sanitizeName "banana  leaf wrap!".
Proof.
  split; [reflexivity|].
  apply (sanitized_names_are_identifiers "banana  leaf wrap!"). reflexivity.
Defined.

(** X9. The tools declared to the planning agent are the actions of the
    catalog, one each and in the same order, and the dispatcher knows every
    one of them: a declared tool is the serve call, which requires [dish],
    the abandon call, which requires nothing, or a regular action that the
    dispatcher finds in the catalog, which requires [ingredients]. *)
Theorem declared_tools_are_dispatched :
  map FunctionDeclaration.name generateCookingTools
  = map KitchenAction.name COOKING_ACTIONS
  /\ forall d, In d generateCookingTools ->
        (FunctionDeclaration.name d = "serve_on_leaf"
         /\ FunctionDeclaration.required d = ["dish"])
        \/ (FunctionDeclaration.name d = "pass"
            /\ FunctionDeclaration.required d = [])
        \/ (FunctionDeclaration.required d = ["ingredients"]
            /\ exists action, regularAction (FunctionDeclaration.name d) action).
Proof.
  unfold generateCookingTools. split.
  - rewrite map_map. apply map_ext_in. intros a _.
    destruct (String.eqb_spec (KitchenAction.name a) "serve_on_leaf") as [E|_];
      [symmetry; exact E|].
    destruct (String.eqb_spec (KitchenAction.name a) "pass") as [E|_];
      [symmetry; exact E|reflexivity].
  - intros d Hd. apply in_map_iff in Hd. destruct Hd as [a [<- Ha]].
    destruct (KitchenAction.name a =? "serve_on_leaf") eqn:Eserve;
      [left; split; reflexivity|].
    destruct (KitchenAction.name a =? "pass") eqn:Epass;
      [right; left; split; reflexivity|].
    right. right. split; [reflexivity|].
    cbn [FunctionDeclaration.name].
    destruct (find_first_exists
                (fun a' => KitchenAction.name a' =? KitchenAction.name a)
                COOKING_ACTIONS a Ha (String.eqb_refl _)) as [action Hfind].
    exists action. repeat split; assumption.
Qed.

(* ================================================================== *)
(** ** Invariants of the callbacks *)
(* ================================================================== *)

Section Combinators.

Variable R : World -> World -> Prop.
Hypothesis R_refl : forall w, R w w.
Hypothesis R_trans : forall a b c, R a b -> R b c -> R a c.

Lemma keeps_ret {A} (a : A) : keeps R (ret a).
Proof. intros w. apply R_refl. Qed.

Lemma keeps_gets {A} (f : World -> A) : keeps R (gets f).
Proof. intros w. apply R_refl. Qed.

Lemma keeps_modify f : (forall w, R w (f w)) -> keeps R (modify f).
Proof. intros H w. apply H. Qed.

Lemma keeps_bind {A B} (m : M A) (k : A -> M B) :
  keeps R m -> (forall a, keeps R (k a)) -> keeps R (bind m k).
Proof.
  intros Hm Hk w. unfold bind. specialize (Hm w).
  destruct (m w) as [[a|e] w1]; cbn [snd] in *.
  - eapply R_trans; [exact Hm|apply Hk].
  - exact Hm.
Qed.

Lemma keeps_try_catch {A} (body : M A) handler :
  keeps R body -> (forall e, keeps R (handler e)) ->
  keeps R (try_catch body handler).
Proof.
  intros Hb Hh w. unfold try_catch. specialize (Hb w).
  destruct (body w) as [[a|e] w1]; cbn [snd] in *.
  - exact Hb.
  - eapply R_trans; [exact Hb|apply Hh].
Qed.

Lemma keeps_try_finally {A} (body : M A) cleanup :
  keeps R body -> keeps R cleanup -> keeps R (try_finally body cleanup).
Proof.
  intros Hb Hc w. unfold try_finally. specialize (Hb w).
  destruct (body w) as [r w1]. specialize (Hc w1).
  destruct (cleanup w1) as [[u|e] w2]; cbn [snd] in *;
    eapply R_trans; eassumption.
Qed.

Lemma keeps_detached {A} (m : M A) : keeps R m -> keeps R (detached m).
Proof. intros H w. apply H. Qed.

Lemma keeps_if {A} (b : bool) (m1 m2 : M A) :
  keeps R m1 -> keeps R m2 -> keeps R (if b then m1 else m2).
Proof. destruct b; auto. Qed.

End Combinators.

Section Escapes.

Variable P : string -> Prop.

Lemma escapes_ret {A} (a : A) : escapes P (ret a).
Proof. intros w e H. discriminate. Qed.

Lemma escapes_gets {A} (f : World -> A) : escapes P (gets f).
Proof. intros w e H. discriminate. Qed.

Lemma escapes_modify f : escapes P (modify f).
Proof. intros w e H. discriminate. Qed.

Lemma escapes_bind {A B} (m : M A) (k : A -> M B) :
  escapes P m -> (forall a, escapes P (k a)) -> escapes P (bind m k).
Proof.
  intros Hm Hk w e. unfold bind. specialize (Hm w).
  destruct (m w) as [[a|e1] w1]; cbn [fst] in *.
  - apply Hk.
  - intros H. apply Hm. inversion H. reflexivity.
Qed.

Lemma escapes_try_catch {A} (body : M A) handler :
  (forall e, escapes P (handler e)) -> escapes P (try_catch body handler).
Proof.
  intros Hh w e. unfold try_catch.
  destruct (body w) as [[a|e1] w1]; [discriminate|apply Hh].
Qed.

Lemma escapes_try_finally {A} (body : M A) cleanup :
  escapes P body -> escapes P cleanup -> escapes P (try_finally body cleanup).
Proof.
  intros Hb Hc w e. unfold try_finally. specialize (Hb w).
  destruct (body w) as [r w1]. specialize (Hc w1).
  destruct (cleanup w1) as [[u|e2] w2]; cbn [fst] in *.
  - apply Hb.
  - intros H. apply Hc. inversion H. reflexivity.
Qed.

Lemma escapes_detached {A} (m : M A) : escapes P (detached m).
Proof. intros w e H. discriminate. Qed.

Lemma escapes_if {A} (b : bool) (m1 m2 : M A) :
  escapes P m1 -> escapes P m2 -> escapes P (if b then m1 else m2).
Proof. destruct b; auto. Qed.

End Escapes.

Section Continuation.

Lemma continues_refl w : continues w w.
Proof.
  unfold continues. repeat split; try reflexivity; try (exists []); auto.
  - rewrite app_nil_r. reflexivity.
  - rewrite app_nil_r. reflexivity.
Qed.

Lemma continues_trans a b c : continues a b -> continues b c -> continues a c.
Proof.
  intros ([i1 Hi1] & Hf1 & Ho1 & [t1 Ht1] & [r1 Hr1] & Hk1)
         ([i2 Hi2] & Hf2 & Ho2 & [t2 Ht2] & [r2 Hr2] & Hk2).
  unfold continues. repeat split.
  - exists (i2 ++ i1). rewrite Hi2, Hi1, app_assoc. reflexivity.
  - auto.
  - congruence.
  - exists (t1 ++ t2). rewrite Ht2, Ht1, app_assoc. reflexivity.
  - exists (r1 ++ r2). rewrite Hr2, Hr1, app_assoc. reflexivity.
  - lia.
Qed.

(** A step that leaves inventory, order ids and timeline frames alone. *)
Lemma continues_frame w w' :
  inventory w' = inventory w ->
  map Order.id (orders w') = map Order.id (orders w) ->
  map frame (timeline w') = map frame (timeline w) ->
  (exists added, trace w' = trace w ++ added) ->
  tick w <= tick w' ->
  continues w w'.
Proof.
  intros Hi Ho Ht Hr Hk. unfold continues. repeat split; auto.
  - exists []. exact Hi.
  - rewrite Hi. auto.
  - exists []. rewrite app_nil_r. exact Ht.
Qed.

Lemma trace_same w : exists added : list Event, trace w = trace w ++ added.
Proof. exists []. rewrite app_nil_r. reflexivity. Qed.

Lemma completeEntry_frames timelineId r prev :
  map frame (completeEntry timelineId r prev) = map frame prev.
Proof.
  unfold completeEntry. rewrite map_map. apply map_ext. intros e.
  destruct (TimelineEntry.id e =? timelineId); reflexivity.
Qed.

Lemma insert_extends i prev :
  exists added, insertIngredient i prev = added ++ prev /\ length added <= 1.
Proof.
  unfold insertIngredient.
  destruct (isDuplicateIngredient (Ingredient.name i) prev).
  - exists []. split; [reflexivity|cbn; lia].
  - exists [i]. split; [reflexivity|cbn; lia].
Qed.

End Continuation.

Section Handlers.

Variable env : Env.

Lemma continues_bind {A B} (m : M A) (k : A -> M B) :
  keeps continues m -> (forall a, keeps continues (k a)) ->
  keeps continues (bind m k).
Proof. apply keeps_bind, continues_trans. Qed.

Lemma continues_try_catch {A} (body : M A) handler :
  keeps continues body -> (forall e, keeps continues (handler e)) ->
  keeps continues (try_catch body handler).
Proof. apply keeps_try_catch, continues_trans. Qed.

Lemma continues_try_finally {A} (body : M A) cleanup :
  keeps continues body -> keeps continues cleanup ->
  keeps continues (try_finally body cleanup).
Proof. apply keeps_try_finally, continues_trans. Qed.

Lemma continues_ret {A} (a : A) : keeps continues (ret a).
Proof. apply keeps_ret, continues_refl. Qed.

Lemma continues_gets {A} (f : World -> A) : keeps continues (gets f).
Proof. apply keeps_gets, continues_refl. Qed.

Lemma continues_interact {A} (f : World -> Completion A) ev :
  keeps continues (fun w => (f w, interact ev w)).
Proof.
  intros w. apply continues_frame; cbn; try reflexivity; [eexists; reflexivity|lia].
Qed.

Lemma continues_Date_now : keeps continues (Date_now env).
Proof. apply (continues_interact (fun w => Returned (clock env (tick w)))). Qed.

Lemma continues_generateCombination prompt :
  keeps continues (generateCombination env prompt).
Proof. apply (continues_interact (fun w => combination env (tick w) prompt)). Qed.

Lemma continues_generateVerification prompt :
  keeps continues (generateVerification env prompt).
Proof. apply (continues_interact (fun w => verification env (tick w) prompt)). Qed.

Lemma continues_sendMessage parts : keeps continues (sendMessage env parts).
Proof. apply (continues_interact (fun w => delivery env (tick w) parts)). Qed.

Lemma continues_quiet f :
  (forall w, inventory (f w) = inventory w) ->
  (forall w, orders (f w) = orders w) ->
  (forall w, timeline (f w) = timeline w) ->
  (forall w, exists added, trace (f w) = trace w ++ added) ->
  (forall w, tick (f w) = tick w) ->
  keeps continues (modify f).
Proof.
  intros Hi Ho Ht Hr Hk w. cbn. apply continues_frame; auto.
  - rewrite Ho. reflexivity.
  - rewrite Ht. reflexivity.
  - rewrite Hk. lia.
Qed.

Lemma continues_setSelectedIngredients v : keeps continues (setSelectedIngredients v).
Proof. apply continues_quiet; intros; cbn; try reflexivity; apply trace_same. Qed.
Lemma continues_setActiveAction v : keeps continues (setActiveAction v).
Proof. apply continues_quiet; intros; cbn; try reflexivity; apply trace_same. Qed.
Lemma continues_setActionTriggerCount f : keeps continues (setActionTriggerCount f).
Proof. apply continues_quiet; intros; cbn; try reflexivity; apply trace_same. Qed.
Lemma continues_setActiveIngredients v : keeps continues (setActiveIngredients v).
Proof. apply continues_quiet; intros; cbn; try reflexivity; apply trace_same. Qed.
Lemma continues_setIsCooking v : keeps continues (setIsCooking v).
Proof. apply continues_quiet; intros; cbn; try reflexivity; apply trace_same. Qed.
Lemma continues_pendingText f : keeps continues (modify (update_pendingTextRef f)).
Proof. apply continues_quiet; intros; cbn; try reflexivity; apply trace_same. Qed.
Lemma continues_traced ev : keeps continues (modify (update_trace (fun t => t ++ ev))).
Proof. apply continues_quiet; intros; cbn; try reflexivity. eexists; reflexivity. Qed.
Lemma continues_toggle name : keeps continues (modify (update_selectedIngredients (toggle name))).
Proof. apply continues_quiet; intros; cbn; try reflexivity; apply trace_same. Qed.

Lemma continues_setOrders f :
  (forall prev, map Order.id (f prev) = map Order.id prev) ->
  keeps continues (setOrders f).
Proof.
  intros H w. cbn. apply continues_frame; cbn; auto; [apply trace_same].
Qed.

Lemma continues_setInventory i : keeps continues (setInventory (insertIngredient i)).
Proof.
  intros w. cbn. unfold continues. cbn. repeat split; auto.
  - destruct (insert_extends i (inventory w)) as [added [E _]]. exists added. exact E.
  - apply insert_collision_free.
  - exists []. rewrite app_nil_r. reflexivity.
  - apply trace_same.
Qed.

Lemma continues_appendTimeline entry : keeps continues (appendTimeline entry).
Proof.
  intros w. cbn. unfold continues. cbn. repeat split; auto.
  - exists []. reflexivity.
  - exists [frame entry]. rewrite map_app. reflexivity.
  - eexists. reflexivity.
Qed.

Lemma continues_completeTimeline timelineId r :
  keeps continues (completeTimeline timelineId r).
Proof.
  intros w. cbn. apply continues_frame; cbn; auto.
  - apply completeEntry_frames.
  - apply trace_same.
Qed.

Ltac keep1 :=
  lazymatch goal with
  | |- keeps _ (ret _) => apply continues_ret
  | |- keeps _ (gets _) => apply continues_gets
  | |- keeps _ (bind _ _) => apply continues_bind; [|intros ?]
  | |- keeps _ (try_catch _ _) => apply continues_try_catch; [|intros ?]
  | |- keeps _ (try_finally _ _) => apply continues_try_finally
  | |- keeps _ (detached _) => apply keeps_detached
  | |- keeps _ (Date_now _) => apply continues_Date_now
  | |- keeps _ (generateCombination _ _) => apply continues_generateCombination
  | |- keeps _ (generateVerification _ _) => apply continues_generateVerification
  | |- keeps _ (sendMessage _ _) => apply continues_sendMessage
  | |- keeps _ (setSelectedIngredients _) => apply continues_setSelectedIngredients
  | |- keeps _ (setActiveAction _) => apply continues_setActiveAction
  | |- keeps _ (setActionTriggerCount _) => apply continues_setActionTriggerCount
  | |- keeps _ (setActiveIngredients _) => apply continues_setActiveIngredients
  | |- keeps _ (setIsCooking _) => apply continues_setIsCooking
  | |- keeps _ (setInventory _) => apply continues_setInventory
  | |- keeps _ (appendTimeline _) => apply continues_appendTimeline
  | |- keeps _ (completeTimeline _ _) => apply continues_completeTimeline
  | |- keeps _ (modify (update_pendingTextRef _)) => apply continues_pendingText
  | |- keeps _ (modify (update_trace _)) => apply continues_traced
  | |- keeps _ (modify (update_selectedIngredients _)) => apply continues_toggle
  | |- keeps _ (setOrders _) =>
      apply continues_setOrders; intros;
      first [ apply pickUp_ids | apply pickUpBatch_ids | apply passOrders_ids
            | apply completeOrder_ids ]
  | |- keeps _ (if ?b then _ else _) => destruct b
  | |- keeps _ (match ?x with _ => _ end) => destruct x
  end.

Ltac keep := cbv zeta; repeat keep1.

Lemma continues_executeCombination action names :
  keeps continues (executeCombination env action names).
Proof. unfold executeCombination. keep. Qed.

Lemma continues_verifyOrder dish order : keeps continues (verifyOrder env dish order).
Proof. unfold verifyOrder. keep. Qed.

Lemma continues_verifyLoop dish l : keeps continues (verifyLoop env dish l).
Proof.
  induction l as [|o l IH]; cbn [verifyLoop]; keep;
    first [assumption | apply continues_verifyOrder].
Qed.

Lemma continues_verifyServedDish dish : keeps continues (verifyServedDish env dish).
Proof. unfold verifyServedDish. keep. apply continues_verifyLoop. Qed.

Lemma continues_handleVerifyServedDish dish :
  keeps continues (handleVerifyServedDish env dish).
Proof. unfold handleVerifyServedDish. keep; apply continues_verifyServedDish. Qed.

Lemma continues_handlePass : keeps continues handlePass.
Proof. unfold handlePass. keep. Qed.

Lemma continues_executeAction action : keeps continues (executeAction env action).
Proof.
  unfold executeAction. keep;
    first [apply continues_handleVerifyServedDish | apply continues_executeCombination].
Qed.

Lemma continues_cookAction actionName timelineId action requested :
  keeps continues (cookAction env actionName timelineId action requested).
Proof.
  unfold cookAction, applyCombination, reportFailure, releaseAction. keep.
  all: try apply continues_executeCombination.
Qed.

Lemma continues_handleApprovedFunctionCalls calls :
  keeps continues (handleApprovedFunctionCalls env calls).
Proof.
  unfold handleApprovedFunctionCalls. keep.
  all: first [apply continues_handleVerifyServedDish | apply continues_handlePass | apply continues_cookAction].
Qed.

Lemma continues_handlePickUp orderId : keeps continues (handlePickUp orderId).
Proof. unfold handlePickUp. keep. Qed.

Lemma continues_sendCookingMessage message :
  keeps continues (sendCookingMessage env message).
Proof. unfold sendCookingMessage. keep. Qed.

Lemma continues_handleCookWithGemini order :
  keeps continues (handleCookWithGemini env order).
Proof.
  unfold handleCookWithGemini. keep;
    first [apply continues_handlePickUp | apply continues_sendCookingMessage].
Qed.

Lemma continues_handleCookBatchWithGemini selectedOrders :
  keeps continues (handleCookBatchWithGemini env selectedOrders).
Proof.
  unfold handleCookBatchWithGemini. keep. apply continues_sendCookingMessage.
Qed.

Lemma continues_handleLog log random : keeps continues (handleLog env log random).
Proof. unfold handleLog. keep. Qed.

Lemma continues_toggleIngredient name : keeps continues (toggleIngredient name).
Proof. unfold toggleIngredient. keep. Qed.

Lemma continues_clickManual selectionMode order :
  keeps continues (clickManual selectionMode order).
Proof. unfold clickManual. keep. apply continues_handlePickUp. Qed.

Lemma continues_clickCook selectionMode order :
  keeps continues (clickCook env selectionMode order).
Proof. unfold clickCook. keep. apply continues_handleCookWithGemini. Qed.

End Handlers.

Lemma callbacks_continue_the_world_aux (env : Env) (c : Callback) (w : World) :
  continues w (snd (react env c w)).
Proof.
  destruct c; cbn [react].
  - apply continues_handleApprovedFunctionCalls.
  - apply continues_handleLog.
  - apply continues_executeAction.
  - apply continues_toggleIngredient.
  - apply continues_clickManual.
  - apply continues_clickCook.
  - apply continues_handleCookBatchWithGemini.
Qed.

(** X10. Every callback of the kitchen continues the world it runs in,
    whatever the clock, the completion service and the agent session do:
    the inventory only grows at its head and stays collision-free, the
    orders keep their ids, the timeline only grows at its end and its
    entries change in their result at most, and nothing recorded is lost. *)
Theorem callbacks_continue_the_world (env : Env) (c : Callback) (w : World) :
  let w' := snd (react env c w) in
  (exists added, inventory w' = added ++ inventory w)
  /\ (collision_free (inventory w) -> collision_free (inventory w'))
  /\ map Order.id (orders w') = map Order.id (orders w)
  /\ (exists added,
         map frame (timeline w') = map frame (timeline w) ++ added)
  /\ (exists added, trace w' = trace w ++ added)
  /\ tick w <= tick w'.
Proof. exact (callbacks_continue_the_world_aux env c w). Qed.

(** X11. In every world the kitchen reaches from its start-up state by
    these callbacks, the inventory is collision-free and holds the start-up
    pantry as its tail, and the orders are the start-up orders by id, so no
    two orders share an id. *)
Theorem reachable_worlds_are_well_formed (env : Env) (cs : list Callback) :
  let w := reactAll env cs initialWorld in
  collision_free (inventory w)
  /\ (exists added, inventory w = added ++ STARTING_INGREDIENTS)
  /\ map Order.id (orders w) = map Order.id EXAMPLE_ORDERS
  /\ NoDup (map Order.id (orders w)).
Proof.
  cbv zeta.
  assert (H : forall w, continues w (reactAll env cs w)).
  { induction cs as [|c cs IH]; intros w; [apply continues_refl|].
    unfold reactAll in *. cbn [fold_left].
    eapply continues_trans; [|apply IH].
    pose proof (callbacks_continue_the_world_aux env c w) as Hc. exact Hc. }
  destruct (H initialWorld) as (Hgrow & Hfree & Hids & _).
  split; [apply Hfree, starting_pantry_collision_free|].
  split; [exact Hgrow|]. split; [exact Hids|].
  rewrite Hids. cbn. repeat (constructor; [cbn; intuition discriminate|]).
  constructor.
Qed.

(* ================================================================== *)
(** ** What the callbacks throw *)
(* ================================================================== *)

Section Throwing.

Variable env : Env.
Variable P : string -> Prop.
Hypothesis rejections : forall e, rejection env e -> P e.

Lemma escapes_Date_now : escapes P (Date_now env).
Proof. intros w e H. discriminate. Qed.

Lemma escapes_sendMessage parts : escapes P (sendMessage env parts).
Proof.
  intros w e H. apply rejections. exists (tick w), parts. exact H.
Qed.

Ltac esc1 :=
  lazymatch goal with
  | |- escapes _ (ret _) => apply escapes_ret
  | |- escapes _ (gets _) => apply escapes_gets
  | |- escapes _ (modify _) => apply escapes_modify
  | |- escapes _ (bind _ _) => apply escapes_bind; [|intros ?]
  | |- escapes _ (try_catch _ _) => apply escapes_try_catch; intros ?
  | |- escapes _ (try_finally _ _) => apply escapes_try_finally
  | |- escapes _ (detached _) => apply escapes_detached
  | |- escapes _ (Date_now _) => apply escapes_Date_now
  | |- escapes _ (sendMessage _ _) => apply escapes_sendMessage
  | |- escapes _ (if ?b then _ else _) => destruct b
  | |- escapes _ (match ?x with _ => _ end) => destruct x
  end.

Ltac esc :=
  cbv zeta;
  unfold setInventory, setSelectedIngredients, setActiveAction,
    setActionTriggerCount, setActiveIngredients, setOrders, setIsCooking,
    appendTimeline, completeTimeline;
  repeat esc1.

Lemma escapes_executeCombination action names :
  escapes P (executeCombination env action names).
Proof. unfold executeCombination. esc. Qed.

Lemma escapes_verifyLoop dish l : escapes P (verifyLoop env dish l).
Proof.
  induction l as [|o l IH]; cbn [verifyLoop]; unfold verifyOrder; esc.
  exact IH.
Qed.

Lemma escapes_handleVerifyServedDish dish :
  escapes P (handleVerifyServedDish env dish).
Proof.
  unfold handleVerifyServedDish, verifyServedDish. esc.
  all: apply escapes_verifyLoop.
Qed.

Lemma escapes_executeAction action : escapes P (executeAction env action).
Proof.
  unfold executeAction. esc. all: apply escapes_executeCombination.
Qed.

Lemma escapes_handleApprovedFunctionCalls calls :
  escapes P (handleApprovedFunctionCalls env calls).
Proof.
  unfold handleApprovedFunctionCalls, cookAction, applyCombination,
    reportFailure, releaseAction, handlePass.
  esc.
  all: first [apply escapes_handleVerifyServedDish
             | apply escapes_executeCombination].
Qed.

End Throwing.

Section Leaving.

Variable P : World -> string -> Prop.

Lemma leaves_ret {A} (a : A) : leaves P (ret a).
Proof. intros w e H. discriminate. Qed.

Lemma leaves_gets {A} (f : World -> A) : leaves P (gets f).
Proof. intros w e H. discriminate. Qed.

Lemma leaves_modify f : leaves P (modify f).
Proof. intros w e H. discriminate. Qed.

Lemma leaves_bind {A B} (m : M A) (k : A -> M B) :
  leaves P m -> (forall a, leaves P (k a)) -> leaves P (bind m k).
Proof.
  intros Hm Hk w e. unfold bind. specialize (Hm w).
  destruct (m w) as [[a|e1] w1]; cbn [fst snd] in *.
  - apply Hk.
  - intros H. inversion H. subst e1. apply Hm. reflexivity.
Qed.

Lemma leaves_try_catch {A} (body : M A) handler :
  (forall e, leaves P (handler e)) -> leaves P (try_catch body handler).
Proof.
  intros Hh w e. unfold try_catch.
  destruct (body w) as [[a|e1] w1]; [discriminate|apply Hh].
Qed.

Lemma leaves_never {A} (m : M A) :
  escapes (fun _ => False) m -> leaves P m.
Proof. intros H w e E. destruct (H w e E). Qed.

End Leaving.

Section Rejected.

Variable env : Env.

Lemma leaves_sendMessage parts :
  leaves (lastRejected env) (sendMessage env parts).
Proof.
  intros w e H. exists (trace w), parts, (tick w).
  split; [reflexivity|]. split; [reflexivity|exact H].
Qed.

(** The [finally] block keeps the record of the interactions. *)
Lemma leaves_released {A} (body : M A) :
  leaves (lastRejected env) body ->
  leaves (lastRejected env) (try_finally body releaseAction).
Proof.
  intros Hb w e. unfold try_finally. specialize (Hb w).
  destruct (body w) as [r w1]. cbn [fst snd] in *.
  unfold releaseAction, bind, setActiveAction, setActiveIngredients, modify.
  cbn [fst snd]. intros H. destruct (Hb e H) as (before & parts & t & Htr & Ht & Hd).
  exists before, parts, t. repeat split; assumption.
Qed.

Ltac leave1 :=
  lazymatch goal with
  | |- leaves _ (ret _) => apply leaves_ret
  | |- leaves _ (gets _) => apply leaves_gets
  | |- leaves _ (modify _) => apply leaves_modify
  | |- leaves _ (bind _ _) => apply leaves_bind; [|intros ?]
  | |- leaves _ (try_catch _ _) => apply leaves_try_catch; intros ?
  | |- leaves _ (try_finally _ releaseAction) => apply leaves_released
  | |- leaves _ (Date_now _) => apply leaves_never, escapes_Date_now
  | |- leaves _ (sendMessage _ _) => apply leaves_sendMessage
  | |- leaves _ (handleVerifyServedDish _ _) =>
      apply leaves_never, escapes_handleVerifyServedDish
  | |- leaves _ (executeCombination _ _ _) =>
      apply leaves_never, escapes_executeCombination
  | |- leaves _ (if ?b then _ else _) => destruct b
  | |- leaves _ (match ?x with _ => _ end) => destruct x
  end.

Ltac leave :=
  cbv zeta;
  unfold setInventory, setSelectedIngredients, setActiveAction,
    setActionTriggerCount, setActiveIngredients, setOrders, setIsCooking,
    appendTimeline, completeTimeline;
  repeat leave1.

Lemma leaves_cookAction actionName timelineId action names :
  leaves (lastRejected env)
    (cookAction env actionName timelineId action names).
Proof.
  unfold cookAction, applyCombination, reportFailure. leave.
Qed.

Lemma leaves_serve dishName :
  leaves (lastRejected env)
    (now <- Date_now env ;;
     timestamp <- Date_now env ;;
     appendTimeline
       (note ("serve-" ++ Js.of_N now) timestamp
          ("🍽️ Serving on Banana Leaf: " ++ dishName)) ;;
     verificationSuccess <- handleVerifyServedDish env dishName ;;
     sendMessage env
       [functionResponse "serve_on_leaf"
          (if verificationSuccess
           then ToolResponse.succeeded
                  (dishName ++ " served! Romba nalla iruku!")
           else ToolResponse.failure
                  (dishName ++ " is not what was ordered. Try again!"))]).
Proof. leave. Qed.

Lemma leaves_pass :
  leaves (lastRejected env)
    (handlePass ;;
     now <- Date_now env ;;
     timestamp <- Date_now env ;;
     appendTimeline
       (note ("pass-" ++ Js.of_N now) timestamp "🏳️ Gave up on the order") ;;
     sendMessage env
       [functionResponse "pass" (ToolResponse.succeeded "Order abandoned.")]).
Proof. unfold handlePass. leave. Qed.

End Rejected.

Section Unchecked.

Variable env : Env.

Lemma validate_strings names inventory validated :
  Untyped.validateIngredients (map Json.str names) inventory validated
  = Returned (validateIngredients names inventory validated).
Proof.
  revert validated. induction names as [|n names IH]; intros validated;
    [reflexivity|].
  cbn [map Untyped.validateIngredients validateIngredients
         Untyped.findIngredientInInventory].
  destruct (findIngredientInInventory n inventory) as [found|]; [|apply IH].
  cbv zeta.
  destruct (existsb _ validated); apply IH.
Qed.

Lemma validate_throws items inventory validated :
  forallb Json.is_str items = false ->
  Untyped.validateIngredients items inventory validated = Threw TypeError.
Proof.
  revert validated. induction items as [|item items IH]; intros validated H;
    [discriminate|].
  cbn [forallb] in H. cbn [Untyped.validateIngredients].
  destruct item; try reflexivity.
  cbn [Json.is_str andb] in H.
  cbn [Untyped.findIngredientInInventory].
  destruct (findIngredientInInventory s inventory) as [found|];
    [|apply IH; exact H].
  cbv zeta. destruct (existsb _ validated); apply IH; exact H.
Qed.

Lemma strings_items items :
  forallb Json.is_str items = true ->
  items = map Json.str (strings (Json.array items)).
Proof.
  induction items as [|item items IH]; intros H; [reflexivity|].
  cbn [forallb] in H. apply andb_prop in H. destruct H as [Hitem Hrest].
  destruct item; try discriminate.
  cbn [strings flat_map app map]. f_equal. apply IH. exact Hrest.
Qed.

(** What can be looped over and yields strings only is handled as the list
    of those strings. *)
Lemma cookAction_strings actionName timelineId action v w :
  stringsOnly v = true ->
  Untyped.cookAction env actionName timelineId action v w
  = cookAction env actionName timelineId action (strings v) w.
Proof.
  intros H.
  assert (E : Untyped.iterate v = Returned (map Json.str (strings v))).
  { destruct v; try discriminate.
    - reflexivity.
    - cbn [Untyped.iterate]. f_equal. apply strings_items. exact H. }
  unfold Untyped.cookAction, cookAction.
  unfold bind at 1. unfold gets at 1. unfold bind at 1. unfold lift at 1.
  rewrite E. unfold bind at 1. unfold lift at 1.
  rewrite validate_strings, length_map. reflexivity.
Qed.

(** Anything else throws before the world is touched. *)
Lemma cookAction_ill_typed actionName timelineId action v w :
  stringsOnly v = false ->
  Untyped.cookAction env actionName timelineId action v w
  = (Threw TypeError, w).
Proof.
  intros H.
  unfold Untyped.cookAction.
  unfold bind at 1. unfold gets at 1. unfold bind at 1. unfold lift at 1.
  destruct v; try reflexivity; try discriminate.
  cbn [Untyped.iterate]. unfold bind at 1. unfold lift at 1.
  rewrite validate_throws by exact H. reflexivity.
Qed.

Lemma requested_arrived a :
  stringsOnly
    (Untyped.requestedIngredients
       (Untyped.Args.make
          (option_map (fun l => Json.array (map Json.str l))
             (Args.ingredients a))
          (Args.dish a))) = true
  /\ strings
       (Untyped.requestedIngredients
          (Untyped.Args.make
             (option_map (fun l => Json.array (map Json.str l))
                (Args.ingredients a))
             (Args.dish a)))
     = requested (Some a).
Proof.
  unfold Untyped.requestedIngredients, requested.
  cbn [Untyped.Args.ingredients].
  destruct (Args.ingredients a) as [l|]; cbn [option_map Json.truthy];
    [|split; reflexivity].
  cbn [stringsOnly strings]. split.
  - induction l as [|n l IH]; [reflexivity|exact IH].
  - induction l as [|n l IH]; [reflexivity|].
    cbn [map flat_map app]. f_equal. exact IH.
Qed.

Lemma bind_Date_now {B} (k : N -> M B) w :
  bind (Date_now env) k w = k (clock env (tick w)) (interact [] w).
Proof. reflexivity. Qed.

Lemma bind_ext {A B} (m : M A) (k k' : A -> M B) w :
  (forall a w', k a w' = k' a w') -> bind m k w = bind m k' w.
Proof. intros H. unfold bind. destruct (m w) as [[a|e] w']; auto. Qed.

(** On calls whose arguments have the types of the cast, the dispatcher is
    the one of the typed calls. *)
Lemma arrived_calls_agree calls w :
  Untyped.handleApprovedFunctionCalls env (map arrive calls) w
  = handleApprovedFunctionCalls env calls w.
Proof.
  destruct calls as [|[name args] others]; [reflexivity|].
  cbn [map]. unfold Untyped.handleApprovedFunctionCalls,
    handleApprovedFunctionCalls, arrive.
  cbn [Untyped.FunctionCall.name Untyped.FunctionCall.args FunctionCall.name
         FunctionCall.args].
  cbv zeta.
  destruct (Js.or_else name EmptyString =? "serve_on_leaf");
    [destruct args; reflexivity|].
  destruct (Js.or_else name EmptyString =? "pass"); [reflexivity|].
  apply bind_ext. intros now w1.
  destruct (find _ COOKING_ACTIONS) as [action|]; [|reflexivity].
  destruct args as [a|].
  - cbn [option_map]. destruct (requested_arrived a) as [Hs Hr].
    rewrite cookAction_strings by exact Hs. rewrite Hr. reflexivity.
  - cbn [option_map]. rewrite cookAction_strings by reflexivity. reflexivity.
Qed.

End Unchecked.

(** X12. What escapes the dispatcher, the [ingredients] argument of the
    call being any JSON value (and [dish], when it is there, a string).
    If [handleApprovedFunctionCalls] throws, then either the last thing it
    did was to send a response that the agent session rejected with that
    error, or the error is the [TypeError] of a call of a regular action
    whose [ingredients] cannot be looped over or hold an item that is not a
    string, and then nothing happened but one reading of the clock: no
    timeline entry, no response to the agent.  No error of the completion
    service escapes.  Conversely, every such ill-typed call throws the
    [TypeError], leaving the agent without a response. *)
Theorem dispatcher_throws_rejection_or_type_error (env : Env)
    (functionCalls : list Untyped.FunctionCall.t) (w : World) :
  let run := Untyped.handleApprovedFunctionCalls env functionCalls w in
  (forall error,
      fst run = Threw error ->
      lastRejected env (snd run) error
      \/ (error = TypeError
          /\ snd run = interact [] w
          /\ exists fc others, functionCalls = fc :: others /\ illTyped fc))
  /\ (forall fc others,
         functionCalls = fc :: others ->
         illTyped fc ->
         run = (Threw TypeError, interact [] w)).
Proof.
  cbv zeta. destruct functionCalls as [|fc others].
  { split; [intros error H; discriminate|intros fc others H; discriminate]. }
  unfold Untyped.handleApprovedFunctionCalls. cbv zeta.
  fold (argumentsOf fc).
  destruct (Js.or_else (Untyped.FunctionCall.name fc) EmptyString
            =? "serve_on_leaf") eqn:Eserve.
  { split.
    - intros error H. left. apply (leaves_serve env _ w error H).
    - intros fc' others' E [[action (Hs & _)] _].
      injection E as <- _. congruence. }
  destruct (Js.or_else (Untyped.FunctionCall.name fc) EmptyString =? "pass")
    eqn:Epass.
  { split.
    - intros error H. left. apply (leaves_pass env w error H).
    - intros fc' others' E [[action (_ & Hp & _)] _].
      injection E as <- _. congruence. }
  rewrite bind_Date_now.
  destruct (find (fun a => KitchenAction.name a
                           =? Js.or_else (Untyped.FunctionCall.name fc)
                                EmptyString) COOKING_ACTIONS)
    as [action|] eqn:Efind.
  2:{ split.
      - intros error H. left.
        apply (leaves_sendMessage env _ (interact [] w) error H).
      - intros fc' others' E [[action (_ & _ & Hf)] _].
        injection E as <- _. congruence. }
  destruct (stringsOnly (Untyped.requestedIngredients (argumentsOf fc)))
    eqn:Estrings.
  - rewrite cookAction_strings by exact Estrings. split.
    + intros error H. left.
      apply (leaves_cookAction env _ _ _ _ (interact [] w) error H).
    + intros fc' others' E [_ Hill]. injection E as <- _. congruence.
  - rewrite cookAction_ill_typed by exact Estrings. split.
    + intros error H. right. cbn [fst snd] in *.
      split; [congruence|]. split; [reflexivity|].
      exists fc, others. split; [reflexivity|]. split; [|exact Estrings].
      exists action. repeat split; assumption.
    + intros fc' others' E Hill. reflexivity.
Qed.

(** With the agent session closed, the abandon call throws the session's
    error, the rejected response being the last thing in the record.  The
    call [stir(["ghee", 42])] and the call [stir(7)] throw the type error
    in the start-up world and leave the timeline and the record empty. *)
Lemma dispatcher_throws_rejection_or_type_error_witness :
  (fst (Untyped.handleApprovedFunctionCalls deafAgent
          [Untyped.FunctionCall.make (Some "pass") None] initialWorld)
   = Threw "Error: session closed"
   /\ lastRejected deafAgent
        (snd (Untyped.handleApprovedFunctionCalls deafAgent
                [Untyped.FunctionCall.make (Some "pass") None] initialWorld))
        "Error: session closed")
  /\ (let run :=
        Untyped.handleApprovedFunctionCalls idliKitchen
          [Untyped.FunctionCall.make (Some "stir")
             (Some (Untyped.Args.make
                      (Some (Json.array [Json.str "ghee"; Json.number 42%float]))
                      None))]
          initialWorld in
      fst run = Threw TypeError
      /\ timeline (snd run) = []
      /\ trace (snd run) = [])
  /\ (let run :=
        Untyped.handleApprovedFunctionCalls idliKitchen
          [Untyped.FunctionCall.make (Some "stir")
             (Some (Untyped.Args.make (Some (Json.number 7%float)) None))]
          initialWorld in
      fst run = Threw TypeError
      /\ timeline (snd run) = []
      /\ trace (snd run) = []).
Proof.
  split; [|split].
  - split; [reflexivity|].
    destruct (proj1 (dispatcher_throws_rejection_or_type_error deafAgent
                       [Untyped.FunctionCall.make (Some "pass") None]
                       initialWorld)
                "Error: session closed" eq_refl)
      as [H|[H _]]; [exact H|discriminate H].
  - cbv zeta.
    rewrite (proj2 (dispatcher_throws_rejection_or_type_error idliKitchen
                      [Untyped.FunctionCall.make (Some "stir")
                         (Some (Untyped.Args.make
                                  (Some (Json.array
                                           [Json.str "ghee";
                                            Json.number 42%float]))
                                  None))]
                      initialWorld) _ _ eq_refl).
    + repeat split; reflexivity.
    + split; [|reflexivity].
      exists (createAction "stir" "🥄"). repeat split; reflexivity.
  - cbv zeta.
    rewrite (proj2 (dispatcher_throws_rejection_or_type_error idliKitchen
                      [Untyped.FunctionCall.make (Some "stir")
                         (Some (Untyped.Args.make
                                  (Some (Json.number 7%float)) None))]
                      initialWorld) _ _ eq_refl).
    + repeat split; reflexivity.
    + split; [|reflexivity].
      exists (createAction "stir" "🥄"). repeat split; reflexivity.
Defined.

(** X13. The manual action, the verification of a served dish and the
    combination resolver never throw, whatever the completion service and
    the agent session do: a failing service call is turned into a result. *)
Theorem manual_path_never_throws (env : Env) (w : World) :
  (forall action, fst (executeAction env action w) = Returned tt)
  /\ (forall servedDishName,
         exists matched,
           fst (handleVerifyServedDish env servedDishName w) = Returned matched)
  /\ (forall action ingredientNames,
         exists result,
           fst (executeCombination env action ingredientNames w)
           = Returned result).
Proof.
  split; [|split].
  - intros action.
    destruct (fst (executeAction env action w)) as [[]|e] eqn:E;
      [reflexivity|].
    exfalso. exact (escapes_executeAction env (fun _ => False) action w e E).
  - intros servedDishName.
    destruct (fst (handleVerifyServedDish env servedDishName w))
      as [matched|e] eqn:E; [exists matched; reflexivity|].
    exfalso.
    exact (escapes_handleVerifyServedDish env (fun _ => False) servedDishName
             w e E).
  - intros action ingredientNames.
    destruct (fst (executeCombination env action ingredientNames w))
      as [result|e] eqn:E; [exists result; reflexivity|].
    exfalso.
    exact (escapes_executeCombination env (fun _ => False) action
             ingredientNames w e E).
Qed.

(* ================================================================== *)
(** ** Cooking agent: how a regular action ends *)
(* ================================================================== *)

Section Outcome.

Variable env : Env.

(** Every way a regular action that passes validation can end. *)
Lemma cook_outcome w actionName action args others :
  regularAction actionName action ->
  passesValidation args w ->
  let validated := validateIngredients (requested args) (inventory w) [] in
  let run :=
    handleApprovedFunctionCalls env
      (FunctionCall.make (Some actionName) args :: others) w in
  let w' := snd run in
  let pending := pendingEntry env w actionName validated in
  let newIngredient := cooked env w action validated in
  let reply := producedReply actionName newIngredient in
  inventory w' = insertIngredient newIngredient (inventory w)
  /\ orders w' = orders w
  /\ activeAction w' = None
  /\ activeIngredients w' = []
  /\ pendingTextRef w' = None
  /\ match delivery env (replyTick w) reply with
     | Returned _ =>
         fst run = Returned tt
         /\ timeline w'
            = completeEntry (cookingId env w) newIngredient (timeline w)
              ++ [TimelineEntry.with_result newIngredient pending]
         /\ exists before, trace w' = before ++ [MessageSent reply]
     | Threw e =>
         let report :=
           [functionResponse actionName (ToolResponse.failure e)] in
         fst run = delivery env (S (replyTick w)) report
         /\ timeline w'
            = completeEntry (cookingId env w) errorIngredient (timeline w)
              ++ [TimelineEntry.with_result errorIngredient pending]
         /\ exists before,
             trace w' = before ++ [MessageSent reply; MessageSent report]
     end.
Proof.
  intros Hreg Hvalid. cbv zeta.
  rewrite (dispatch_regular env actionName action args others w Hreg).
  rewrite cookAction_passes.
  2:{ destruct Hvalid as [H|H].
      - destruct (validateIngredients (requested args) (inventory w) []);
          [congruence|reflexivity].
      - rewrite H. apply andb_false_r. }
  unfold try_finally, try_catch. rewrite applyCombination_run.
  change (executeCombinationRef
            (started env w actionName
               (validateIngredients (requested args) (inventory w) [])))
    with (executeCombinationRef w).
  change (tick (started env w actionName
                  (validateIngredients (requested args) (inventory w) [])))
    with (S (S (tick w))).
  unfold cooked, replyTick.
  destruct (executeCombinationRef w); cbv zeta;
    cbn [tick afterResolver interact update_tick update_trace];
    change (tick (started env w actionName
                    (validateIngredients (requested args) (inventory w) [])))
      with (S (S (tick w)));
    match goal with
    | |- context [delivery env ?t ?m] => destruct (delivery env t m) as [[]|e]
    end;
    unfold reportFailure, releaseAction, bind, completeTimeline, sendMessage,
      setActiveAction, setActiveIngredients, modify;
    cbn [fst snd inventory orders activeAction activeIngredients pendingTextRef
           timeline trace tick started afterResolver interact update_tick
           update_trace update_timeline update_inventory update_activeAction
           update_activeIngredients update_actionTriggerCount
           update_pendingTextRef];
    try (match goal with
         | |- context [delivery env ?t ?m] => destruct (delivery env t m) as [[]|e2]
         end;
         cbn [fst snd inventory orders activeAction activeIngredients
                pendingTextRef timeline trace tick started afterResolver
                interact update_tick update_trace update_timeline
                update_inventory update_activeAction update_activeIngredients
                update_actionTriggerCount update_pendingTextRef]);
    rewrite ?completeEntry_overwrites, ?completed_pending;
    repeat split; try reflexivity;
    first [ eexists; reflexivity
          | rewrite <- app_assoc; cbn [app]; eexists; reflexivity ].
Qed.

End Outcome.

Section Resolved.

Lemma completeEntry_resolves timelineId r prev e :
  In e (completeEntry timelineId r prev) ->
  TimelineEntry.id e = timelineId ->
  TimelineEntry.result e = Resolved r.
Proof.
  unfold completeEntry. intros Hin Hid. apply in_map_iff in Hin.
  destruct Hin as [e0 [He Hin]].
  destruct (TimelineEntry.id e0 =? timelineId) eqn:E.
  - subst e. reflexivity.
  - subst e. apply String.eqb_neq in E. contradiction.
Qed.

Lemma resolved_not_loading e r :
  TimelineEntry.result e = Resolved r -> isLoading e = false.
Proof. unfold isLoading. intros ->. apply andb_false_r. Qed.

End Resolved.

(** X14. A regular action that passes validation and whose resolver
    returns an ingredient ends well: the pending entry is completed with
    that ingredient, the ingredient is inserted into the inventory unless
    its normalized name is there already, the ledger is untouched, and,
    the response being delivered, the agent is told the name and the emoji
    of the result. *)
Theorem combination_success (env : Env) (w : World) (actionName : string)
    (action : KitchenAction.t) (args : option Args.t)
    (others : list FunctionCall.t) (r : CombinationResult.t) :
  regularAction actionName action ->
  passesValidation args w ->
  executeCombinationRef w = true ->
  let validated := validateIngredients (requested args) (inventory w) [] in
  combination env (S (S (tick w))) (combinationPrompt action validated)
  = Returned r ->
  let newIngredient :=
    Ingredient.make (CombinationResult.result_name r)
      (CombinationResult.emoji r) in
  delivery env (S (S (S (tick w)))) (producedReply actionName newIngredient)
  = Returned tt ->
  let run :=
    handleApprovedFunctionCalls env
      (FunctionCall.make (Some actionName) args :: others) w in
  let w' := snd run in
  fst run = Returned tt
  /\ timeline w'
     = completeEntry (cookingId env w) newIngredient (timeline w)
       ++ [TimelineEntry.with_result newIngredient
             (pendingEntry env w actionName validated)]
  /\ inventory w' = insertIngredient newIngredient (inventory w)
  /\ orders w' = orders w
  /\ exists before,
      trace w' = before ++ [MessageSent (producedReply actionName newIngredient)].
Proof.
  intros Hreg Hvalid Hwired validated Hresult newIngredient Hsent. cbv zeta.
  destruct (cook_outcome env w actionName action args others Hreg Hvalid)
    as (Hinv & Hord & _ & _ & _ & Hend).
  assert (Hcooked : cooked env w action validated = newIngredient).
  { unfold cooked, resolved. rewrite Hwired. fold validated.
    rewrite Hresult. reflexivity. }
  assert (Htick : replyTick w = S (S (S (tick w))))
    by (unfold replyTick; rewrite Hwired; reflexivity).
  fold validated in Hinv, Hend. rewrite Hcooked in Hinv, Hend.
  rewrite Htick, Hsent in Hend.
  destruct Hend as (Hret & Htl & Htrace).
  repeat split; assumption.
Qed.

(** The specification's end-to-end example: "stone grind" of "ponni rice"
    and "urad dal" gives "Idli Batter". *)
Lemma combination_success_witness :
  let run :=
    handleApprovedFunctionCalls idliKitchen
      [FunctionCall.make (Some "stone_grind")
         (Some (Args.make (Some ["ponni rice"; "urad dal"]) None))]
      initialWorld in
  fst run = Returned tt
  /\ inventory (snd run)
     = Ingredient.make "Idli Batter" "🥣" :: STARTING_INGREDIENTS
  /\ map TimelineEntry.result (timeline (snd run))
     = [Resolved (Ingredient.make "Idli Batter" "🥣")].
Proof.
  cbv zeta.
  destruct (combination_success idliKitchen initialWorld "stone_grind"
              (createAction "stone grind" "🪨")
              (Some (Args.make (Some ["ponni rice"; "urad dal"]) None)) []
              (CombinationResult.make "Idli Batter" "🥣"))
    as (Hret & Htl & Hinv & _).
  - repeat split; reflexivity.
  - left. vm_compute. discriminate.
  - reflexivity.
  - reflexivity.
  - reflexivity.
  - rewrite Hret, Htl, Hinv. repeat split; reflexivity.
Defined.

(** X15. When the agent session rejects the response of a regular action,
    the dispatcher reports the failure with the stringified error, and the
    outcome of that second [sendMessage] is the outcome of the call.  The
    timeline entry then holds the sentinel error result, but the inventory
    keeps the ingredient that was inserted before the response was sent. *)
Theorem rejected_response_marks_error (env : Env) (w : World)
    (actionName : string) (action : KitchenAction.t) (args : option Args.t)
    (others : list FunctionCall.t) (error : string) :
  regularAction actionName action ->
  passesValidation args w ->
  let validated := validateIngredients (requested args) (inventory w) [] in
  let newIngredient := cooked env w action validated in
  delivery env (replyTick w) (producedReply actionName newIngredient)
  = Threw error ->
  let run :=
    handleApprovedFunctionCalls env
      (FunctionCall.make (Some actionName) args :: others) w in
  let w' := snd run in
  let report := [functionResponse actionName (ToolResponse.failure error)] in
  fst run = delivery env (S (replyTick w)) report
  /\ timeline w'
     = completeEntry (cookingId env w) errorIngredient (timeline w)
       ++ [TimelineEntry.with_result errorIngredient
             (pendingEntry env w actionName validated)]
  /\ inventory w' = insertIngredient newIngredient (inventory w)
  /\ exists before,
      trace w'
      = before ++ [MessageSent (producedReply actionName newIngredient);
                   MessageSent report].
Proof.
  intros Hreg Hvalid validated newIngredient Hthrew. cbv zeta.
  destruct (cook_outcome env w actionName action args others Hreg Hvalid)
    as (Hinv & _ & _ & _ & _ & Hend).
  fold validated in Hinv, Hend. fold newIngredient in Hinv, Hend.
  rewrite Hthrew in Hend. cbv zeta in Hend.
  destruct Hend as (Hret & Htl & Htrace).
  repeat split; assumption.
Qed.

(** With the agent session closed, "stone grind" still puts "Idli Batter"
    into the pantry, the entry shows the error, and the call throws. *)
Lemma rejected_response_marks_error_witness :
  let run :=
    handleApprovedFunctionCalls deafAgent
      [FunctionCall.make (Some "stone_grind")
         (Some (Args.make (Some ["ponni rice"; "urad dal"]) None))]
      initialWorld in
  fst run = Threw "Error: session closed"
  /\ map TimelineEntry.result (timeline (snd run)) = [Resolved errorIngredient]
  /\ inventory (snd run)
     = Ingredient.make "Idli Batter" "🥣" :: STARTING_INGREDIENTS.
Proof.
  cbv zeta.
  destruct (rejected_response_marks_error deafAgent initialWorld "stone_grind"
              (createAction "stone grind" "🪨")
              (Some (Args.make (Some ["ponni rice"; "urad dal"]) None)) []
              "Error: session closed")
    as (Hret & Htl & Hinv & _).
  - repeat split; reflexivity.
  - left. vm_compute. discriminate.
  - reflexivity.
  - rewrite Hret, Htl, Hinv. repeat split; reflexivity.
Defined.

(** X16. However a regular action that passes validation ends, it is
    released: no action and no ingredient is marked active, the buffered
    narration is consumed, no timeline entry with the call's id is left
    loading, the ledger is untouched and the inventory has grown by one
    entry at most. *)
Theorem regular_action_is_released (env : Env) (w : World)
    (actionName : string) (action : KitchenAction.t) (args : option Args.t)
    (others : list FunctionCall.t) :
  regularAction actionName action ->
  passesValidation args w ->
  let w' :=
    snd (handleApprovedFunctionCalls env
           (FunctionCall.make (Some actionName) args :: others) w) in
  activeAction w' = None
  /\ activeIngredients w' = []
  /\ pendingTextRef w' = None
  /\ (forall e, In e (timeline w') ->
                TimelineEntry.id e = cookingId env w -> isLoading e = false)
  /\ orders w' = orders w
  /\ length (inventory w') <= S (length (inventory w)).
Proof.
  intros Hreg Hvalid. cbv zeta.
  destruct (cook_outcome env w actionName action args others Hreg Hvalid)
    as (Hinv & Hord & Hact & Hing & Hpend & Hend).
  split; [exact Hact|]. split; [exact Hing|]. split; [exact Hpend|].
  split; [|split; [exact Hord|]].
  - assert (Htl : exists r,
               timeline
                 (snd (handleApprovedFunctionCalls env
                         (FunctionCall.make (Some actionName) args :: others) w))
               = completeEntry (cookingId env w) r
                   (timeline w
                    ++ [pendingEntry env w actionName
                          (validateIngredients (requested args) (inventory w) [])])).
    { destruct (delivery env (replyTick w) _) as [u|e] in Hend.
      - destruct Hend as (_ & Htl & _). eexists.
        rewrite completed_pending. exact Htl.
      - cbv zeta in Hend. destruct Hend as (_ & Htl & _). eexists.
        rewrite completed_pending. exact Htl. }
    destruct Htl as [r Htl]. rewrite Htl. intros e Hin Hid.
    apply (resolved_not_loading e r).
    apply (completeEntry_resolves _ _ _ _ Hin Hid).
  - rewrite Hinv.
    destruct (insert_extends
                (cooked env w action
                   (validateIngredients (requested args) (inventory w) []))
                (inventory w)) as [added [E L]].
    rewrite E, length_app. lia.
Qed.

(** The call [stir(["ghee"])] with the completion service down. *)
Lemma regular_action_is_released_witness :
  let w' :=
    snd (handleApprovedFunctionCalls offline
           [FunctionCall.make (Some "stir")
              (Some (Args.make (Some ["ghee"]) None))]
           initialWorld) in
  activeAction w' = None
  /\ existsb isLoading (timeline w') = false
  /\ length (inventory w') <= S (length STARTING_INGREDIENTS).
Proof.
  cbv zeta.
  destruct (regular_action_is_released offline initialWorld "stir"
              (createAction "stir" "🥄")
              (Some (Args.make (Some ["ghee"]) None)) [])
    as (Hact & _ & _ & _ & _ & Hlen).
  - repeat split; reflexivity.
  - left. vm_compute. discriminate.
  - split; [exact Hact|]. split; [reflexivity|exact Hlen].
Defined.

(** X17. A tool call whose name is neither the serve call, nor the abandon
    call, nor the name of an action of the catalog (a call without a name
    counts as the empty name) is answered with the failure "Unknown
    action: " followed by the name, and that response is all that happens:
    timeline, inventory and ledger are untouched and the resolver is not
    called. *)
Theorem unknown_action_rejected (env : Env) (w : World)
    (name : option string) (args : option Args.t)
    (others : list FunctionCall.t) :
  let actionName := Js.or_else name EmptyString in
  (actionName =? "serve_on_leaf") = false ->
  (actionName =? "pass") = false ->
  find (fun a => KitchenAction.name a =? actionName) COOKING_ACTIONS = None ->
  let run :=
    handleApprovedFunctionCalls env (FunctionCall.make name args :: others) w in
  let w' := snd run in
  let reply :=
    [functionResponse actionName
       (ToolResponse.failure ("Unknown action: " ++ actionName))] in
  fst run = delivery env (S (tick w)) reply
  /\ trace w' = trace w ++ [MessageSent reply]
  /\ timeline w' = timeline w
  /\ inventory w' = inventory w
  /\ orders w' = orders w.
Proof.
  cbv zeta. intros Hserve Hpass Hfind.
  assert (E : handleApprovedFunctionCalls env
                (FunctionCall.make name args :: others) w
              = sendMessage env
                  [functionResponse (Js.or_else name EmptyString)
                     (ToolResponse.failure
                        ("Unknown action: " ++ Js.or_else name EmptyString))]
                  (interact [] w)).
  { unfold handleApprovedFunctionCalls.
    cbn [FunctionCall.name FunctionCall.args].
    rewrite Hserve, Hpass.
    unfold bind at 1. unfold Date_now at 1. rewrite Hfind. reflexivity. }
  rewrite E. unfold sendMessage.
  cbn [fst snd trace timeline inventory orders tick interact update_tick
         update_trace].
  rewrite <- app_assoc. repeat split; reflexivity.
Qed.

(** The call [bake(["ghee"])] and a call without a name, in the start-up
    world. *)
Lemma unknown_action_rejected_witness :
  trace (snd (handleApprovedFunctionCalls offline
                [FunctionCall.make (Some "bake")
                   (Some (Args.make (Some ["ghee"]) None))]
                initialWorld))
  = [MessageSent
       [functionResponse "bake" (ToolResponse.failure "Unknown action: bake")]]
  /\ trace (snd (handleApprovedFunctionCalls offline
                   [FunctionCall.make None None] initialWorld))
     = [MessageSent
          [functionResponse EmptyString
             (ToolResponse.failure "Unknown action: ")]].
Proof.
  split.
  - destruct (unknown_action_rejected offline initialWorld (Some "bake")
                (Some (Args.make (Some ["ghee"]) None)) [])
      as (_ & Htrace & _).
    + reflexivity.
    + reflexivity.
    + reflexivity.
    + exact Htrace.
  - destruct (unknown_action_rejected offline initialWorld None None [])
      as (_ & Htrace & _).
    + reflexivity.
    + reflexivity.
    + reflexivity.
    + exact Htrace.
Defined.

(** X18. A regular action that passes validation is run with the validated
    names only: requested names that do not resolve are dropped without a
    word.  The dispatcher appends the pending entry that lists the validated
    names to the timeline, so that the [try] block starts in a world whose
    timeline is the old one followed by that entry, and then, the resolver
    being mounted, invokes it with exactly those names.  When the call is
    over the timeline is the old one followed by that entry, completed with
    a result. *)
Theorem validated_names_reach_resolver (env : Env) (w : World)
    (actionName : string) (action : KitchenAction.t) (args : option Args.t)
    (others : list FunctionCall.t) :
  regularAction actionName action ->
  passesValidation args w ->
  executeCombinationRef w = true ->
  let validated := validateIngredients (requested args) (inventory w) [] in
  let run :=
    handleApprovedFunctionCalls env
      (FunctionCall.make (Some actionName) args :: others) w in
  let pending := pendingEntry env w actionName validated in
  TimelineEntry.ingredients pending = Some validated
  /\ TimelineEntry.result pending = Pending
  /\ (exists w1,
         timeline w1 = timeline w ++ [pending]
         /\ inventory w1 = inventory w
         /\ run
            = try_finally
                (try_catch
                   (applyCombination env actionName (cookingId env w) action
                      validated)
                   (reportFailure env actionName (cookingId env w)))
                releaseAction w1)
  /\ (exists rest,
         trace (snd run)
         = trace w
           ++ TimelineAppended pending
              :: ResolverInvoked action validated
              :: ContentRequested (combinationPrompt action validated)
              :: rest)
  /\ (exists result,
         timeline (snd run)
         = completeEntry (cookingId env w) result (timeline w)
           ++ [TimelineEntry.with_result result pending])
  /\ length (timeline (snd run)) = S (length (timeline w)).
Proof.
  intros Hreg Hvalid Hwired. cbv zeta.
  split; [reflexivity|split; [reflexivity|]].
  assert (E : handleApprovedFunctionCalls env
                (FunctionCall.make (Some actionName) args :: others) w
              = try_finally
                  (try_catch
                     (applyCombination env actionName (cookingId env w) action
                        (validateIngredients (requested args) (inventory w) []))
                     (reportFailure env actionName (cookingId env w)))
                  releaseAction
                  (started env w actionName
                     (validateIngredients (requested args) (inventory w) []))).
  { rewrite (dispatch_regular env actionName action args others w Hreg).
    rewrite cookAction_passes; [reflexivity|].
    destruct Hvalid as [H|H].
    - destruct (validateIngredients (requested args) (inventory w) []);
        [congruence|reflexivity].
    - rewrite H. apply andb_false_r. }
  split.
  { eexists. split; [|split; [|exact E]]; reflexivity. }
  rewrite E. clear E.
  unfold try_finally, try_catch. rewrite applyCombination_run.
  change (executeCombinationRef
            (started env w actionName
               (validateIngredients (requested args) (inventory w) [])))
    with (executeCombinationRef w).
  rewrite Hwired. cbv zeta.
  match goal with
  | |- context [delivery env ?t ?m] => destruct (delivery env t m) as [[]|e]
  end;
    unfold reportFailure, releaseAction, bind, completeTimeline, sendMessage,
      setActiveAction, setActiveIngredients, modify;
    try (match goal with
         | |- context [delivery env ?t ?m] =>
             destruct (delivery env t m) as [[]|e2]
         end);
    cbn [fst snd timeline trace tick started afterResolver interact
           update_tick update_trace update_timeline update_inventory
           update_activeAction update_activeIngredients
           update_actionTriggerCount update_pendingTextRef];
    rewrite ?completeEntry_overwrites, ?completed_pending;
    (split; [|split];
     [ rewrite <- !app_assoc; cbn [app]; eexists; reflexivity
     | eexists; reflexivity
     | rewrite length_app; unfold completeEntry; rewrite length_map;
       cbn [length]; lia ]).
Qed.

(** The request of "URAD DAL", "nonexistent item" and "Ghee": the resolver
    is invoked with "urad dal" and "ghee", and the timeline, empty before,
    holds the entry of the call listing those two names. *)
Lemma validated_names_reach_resolver_witness :
  let run :=
    handleApprovedFunctionCalls offline
      [FunctionCall.make (Some "stir")
         (Some (Args.make (Some ["URAD DAL"; "nonexistent item"; "Ghee"])
                  None))]
      initialWorld in
  let pending := pendingEntry offline initialWorld "stir" ["urad dal"; "ghee"] in
  (exists rest,
      trace (snd run)
      = TimelineAppended pending
        :: ResolverInvoked (createAction "stir" "🥄") ["urad dal"; "ghee"]
        :: ContentRequested
             (combinationPrompt (createAction "stir" "🥄") ["urad dal"; "ghee"])
        :: rest)
  /\ (exists result,
         timeline (snd run) = [TimelineEntry.with_result result pending])
  /\ TimelineEntry.ingredients pending = Some ["urad dal"; "ghee"].
Proof.
  cbv zeta.
  destruct (validated_names_reach_resolver offline initialWorld "stir"
              (createAction "stir" "🥄")
              (Some (Args.make (Some ["URAD DAL"; "nonexistent item"; "Ghee"])
                       None)) [])
    as (Hnames & _ & _ & [rest Htrace] & [result Htimeline] & _).
  - repeat split; reflexivity.
  - left. vm_compute. discriminate.
  - reflexivity.
  - split; [exists rest; exact Htrace|].
    split; [exists result; exact Htimeline | exact Hnames].
Defined.

(* ================================================================== *)
(** ** More of the verification matcher *)
(* ================================================================== *)

Section Matcher.

Variable env : Env.
Variable servedDishName : string.

Lemma verifyLoop_declined_head o rest w :
  declined (verification env (tick w)
              (verificationPrompt o servedDishName)) = true ->
  verifyLoop env servedDishName (o :: rest) w
  = verifyLoop env servedDishName rest
      (interact [ContentRequested (verificationPrompt o servedDishName)] w).
Proof.
  intros H. cbn [verifyLoop]. unfold bind at 1.
  rewrite (verifyOrder_declined env servedDishName o w H). reflexivity.
Qed.

Lemma verifyLoop_accepted_head o rest w r :
  verification env (tick w) (verificationPrompt o servedDishName)
  = Returned r ->
  accepted r = true ->
  verifyLoop env servedDishName (o :: rest) w
  = (Returned true, matchedWorld env servedDishName o w).
Proof.
  intros Hr Ha. cbn [verifyLoop]. unfold bind at 1.
  rewrite (verifyOrder_accepted env servedDishName o w r Hr Ha). reflexivity.
Qed.

Lemma verifyLoop_outcome l w :
  let run := verifyLoop env servedDishName l w in
  inventory (snd run) = inventory w
  /\ ((fst run = Returned false /\ orders (snd run) = orders w)
      \/ (fst run = Returned true
          /\ exists o r t,
              In o l
              /\ verification env t (verificationPrompt o servedDishName)
                 = Returned r
              /\ accepted r = true
              /\ orders (snd run)
                 = completeOrder (Order.id o)
                     (servedEmoji servedDishName (inventory w))
                     servedDishName (orders w))).
Proof.
  cbv zeta. revert w. induction l as [|o rest IH]; intros w.
  - split; [reflexivity|]. left. split; reflexivity.
  - destruct (verification env (tick w) (verificationPrompt o servedDishName))
      as [r|e] eqn:Hreply.
    + destruct (accepted r) eqn:Hacc.
      * rewrite (verifyLoop_accepted_head o rest w r Hreply Hacc).
        split; [reflexivity|]. right. split; [reflexivity|].
        exists o, r, (tick w).
        split; [left; reflexivity|]. split; [exact Hreply|].
        split; [exact Hacc|reflexivity].
      * rewrite (verifyLoop_declined_head o rest w)
          by (rewrite Hreply; cbn; rewrite Hacc; reflexivity).
        destruct (IH (interact
                        [ContentRequested
                           (verificationPrompt o servedDishName)] w))
          as [Hinv [Hfalse|(Htrue & o' & r' & t' & Hin & Hr & Ha & Ho)]].
        -- split; [exact Hinv|]. left. exact Hfalse.
        -- split; [exact Hinv|]. right. split; [exact Htrue|].
           exists o', r', t'. split; [right; exact Hin|].
           split; [exact Hr|]. split; [exact Ha|exact Ho].
    + rewrite (verifyLoop_declined_head o rest w)
        by (rewrite Hreply; reflexivity).
      destruct (IH (interact
                      [ContentRequested
                         (verificationPrompt o servedDishName)] w))
        as [Hinv [Hfalse|(Htrue & o' & r' & t' & Hin & Hr & Ha & Ho)]].
      * split; [exact Hinv|]. left. exact Hfalse.
      * split; [exact Hinv|]. right. split; [exact Htrue|].
        exists o', r', t'. split; [right; exact Hin|].
        split; [exact Hr|]. split; [exact Ha|exact Ho].
Qed.

Lemma verifyServedDish_free w :
  inProgress (orders w) = [] ->
  verifyServedDish env servedDishName w
  = (Returned true,
     update_trace
       (fun t => t ++ [TimelineAppended
                         (freeServeNarration env w servedDishName)])
       (update_timeline
          (fun prev => prev ++ [freeServeNarration env w servedDishName])
          (interact [] (interact [] w)))).
Proof.
  intros H. unfold verifyServedDish, bind, gets. rewrite H. reflexivity.
Qed.

End Matcher.

(** X19. Whatever the verification service answers, a verification changes
    the ledger in one way at most: either the ledger is as it was, or the
    verification returned [true] and the orders with the id of one
    in-progress order, which the service accepted, are completed with the
    served dish.  No order becomes [failed], and the inventory is not
    touched. *)
Theorem verification_completes_at_most_one (env : Env)
    (servedDishName : string) (w : World) :
  let run := verifyServedDish env servedDishName w in
  inventory (snd run) = inventory w
  /\ (orders (snd run) = orders w
      \/ (fst run = Returned true
          /\ exists o r t,
              In o (inProgress (orders w))
              /\ verification env t (verificationPrompt o servedDishName)
                 = Returned r
              /\ accepted r = true
              /\ orders (snd run)
                 = completeOrder (Order.id o)
                     (servedEmoji servedDishName (inventory w))
                     servedDishName (orders w))).
Proof.
  cbv zeta.
  destruct (inProgress (orders w)) as [|o rest] eqn:E.
  - rewrite (verifyServedDish_free env servedDishName w E).
    split; [reflexivity|]. left. reflexivity.
  - rewrite (verifyServedDish_loop env servedDishName w)
      by (rewrite E; discriminate).
    rewrite E.
    destruct (verifyLoop_outcome env servedDishName (o :: rest) w)
      as [Hinv [[_ Hsame]|Hdone]].
    + split; [exact Hinv|]. left. exact Hsame.
    + split; [exact Hinv|]. right. exact Hdone.
Qed.

(** X20. A serve call that arrives while no order is in progress succeeds
    without the judge: the dispatcher narrates the serve, the verification
    narrates that the dish was served and answers [true] without a request
    to the completion service, cooking stops, the ledger is untouched and
    the agent is told that the dish was served.  This is what happens to a
    serve after an abandon. *)
Theorem free_serve_succeeds (env : Env) (w : World) (args : option Args.t)
    (others : list FunctionCall.t) :
  inProgress (orders w) = [] ->
  verifyServedDishRef w = true ->
  let dishName :=
    Js.or_else
      (Args.dish match args with Some a => a | None => Args.empty end) "dish" in
  let run :=
    handleApprovedFunctionCalls env
      (FunctionCall.make (Some "serve_on_leaf") args :: others) w in
  let w' := snd run in
  let reply :=
    [functionResponse "serve_on_leaf"
       (ToolResponse.succeeded (dishName ++ " served! Romba nalla iruku!"))] in
  fst run = delivery env (S (S (S (S (tick w))))) reply
  /\ (exists served narrated,
         TimelineEntry.text served
         = Some ("🍽️ Serving on Banana Leaf: " ++ dishName)%string
         /\ narrated = freeServeNarration env (interact [] (interact [] w)) dishName
         /\ timeline w' = timeline w ++ [served; narrated]
         /\ trace w'
            = trace w ++ [TimelineAppended served; TimelineAppended narrated;
                          MessageSent reply])
  /\ orders w' = orders w
  /\ isCooking w' = false.
Proof.
  intros Hfree Hwired. cbv zeta.
  set (dishName :=
         Js.or_else
           (Args.dish match args with Some a => a | None => Args.empty end)
           "dish").
  set (w1 := update_trace
               (fun t => t ++ [TimelineAppended (serveNote env w dishName)])
               (update_timeline (fun prev => prev ++ [serveNote env w dishName])
                  (interact [] (interact [] w)))).
  assert (E : handleApprovedFunctionCalls env
                (FunctionCall.make (Some "serve_on_leaf") args :: others) w
              = (verificationSuccess <- handleVerifyServedDish env dishName ;;
                 sendMessage env
                   [functionResponse "serve_on_leaf"
                      (if verificationSuccess
                       then ToolResponse.succeeded
                              (dishName ++ " served! Romba nalla iruku!")
                       else ToolResponse.failure
                              (dishName ++ " is not what was ordered. Try again!"))])
                  w1).
  { reflexivity. }
  assert (V : handleVerifyServedDish env dishName w1
              = (Returned true,
                 update_isCooking (fun _ => false)
                   (snd (verifyServedDish env dishName w1)))).
  { unfold handleVerifyServedDish. unfold bind at 1. unfold gets at 1.
    change (verifyServedDishRef w1) with (verifyServedDishRef w).
    rewrite Hwired. unfold bind at 1.
    rewrite (verifyServedDish_free env dishName w1) by exact Hfree.
    unfold bind, gets, setIsCooking, modify, ret.
    cbn [orders update_trace update_timeline interact update_tick].
    change (orders w1) with (orders w). rewrite Hfree. reflexivity. }
  set (reply :=
         [functionResponse "serve_on_leaf"
            (ToolResponse.succeeded (dishName ++ " served! Romba nalla iruku!"))]).
  set (narrated := freeServeNarration env w1 dishName).
  assert (F : handleApprovedFunctionCalls env
                (FunctionCall.make (Some "serve_on_leaf") args :: others) w
              = (delivery env (S (S (S (S (tick w))))) reply,
                 interact [MessageSent reply]
                   (update_isCooking (fun _ => false)
                      (update_trace (fun t => t ++ [TimelineAppended narrated])
                         (update_timeline (fun prev => prev ++ [narrated])
                            (interact [] (interact [] w1))))))).
  { rewrite E. unfold bind at 1. rewrite V.
    rewrite (verifyServedDish_free env dishName w1) by exact Hfree.
    reflexivity. }
  rewrite F.
  cbn [fst snd tick trace timeline orders isCooking update_isCooking
         update_trace update_timeline interact update_tick w1].
  split; [reflexivity|]. split; [|split; reflexivity].
  exists (serveNote env w dishName),
         (freeServeNarration env (interact [] (interact [] w)) dishName).
  split; [reflexivity|]. split; [reflexivity|].
  rewrite <- !app_assoc. cbn [app]. split; reflexivity.
Qed.

(** After the abandon call in the specification's feast, the agent serves
    "Degree Coffee": the call succeeds and the judge is not asked. *)
Lemma free_serve_succeeds_witness :
  let abandoned :=
    snd (handleApprovedFunctionCalls offline
           [FunctionCall.make (Some "pass") None]
           (with_orders feastLedger initialWorld)) in
  let run :=
    handleApprovedFunctionCalls offline
      [FunctionCall.make (Some "serve_on_leaf")
         (Some (Args.make None (Some "Degree Coffee")))]
      abandoned in
  fst run = Returned tt
  /\ orders (snd run) = orders abandoned
  /\ isCooking (snd run) = false.
Proof.
  cbv zeta.
  destruct (free_serve_succeeds offline
              (snd (handleApprovedFunctionCalls offline
                      [FunctionCall.make (Some "pass") None]
                      (with_orders feastLedger initialWorld)))
              (Some (Args.make None (Some "Degree Coffee"))) [])
    as (Hret & _ & Horders & Hcooking).
  - reflexivity.
  - reflexivity.
  - rewrite Hret, Horders, Hcooking. repeat split; reflexivity.
Defined.

(* ================================================================== *)
(** ** Narration of the planning agent *)
(* ================================================================== *)

Section Narration.

Variable env : Env.

Lemma blank_not_empty text : blank text = false -> text <> EmptyString.
Proof. intros H E. subst text. discriminate. Qed.

Lemma or_undefined_text text :
  text <> EmptyString -> Js.or_undefined (Some text) = Some text.
Proof. destruct text; [congruence|reflexivity]. Qed.

Lemma handleLog_received text parts calls random w :
  blank text = false ->
  let response := LogMessage.make (Some text) parts calls in
  handleLog env (Log.make "send-message" "receive" (Some response)) random w
  = if hasFunctionCalls response
    then (Returned tt, update_pendingTextRef (fun _ => Some text) w)
    else if alreadyNarrated text (timeline w) then (Returned tt, w)
         else
           let entry :=
             note ("text-" ++ Js.of_N (clock env (tick w)) ++ "-" ++ random)
               (clock env (S (tick w))) text in
           (Returned tt,
            update_trace (fun t => t ++ [TimelineAppended entry])
              (update_timeline (fun prev => prev ++ [entry])
                 (interact [] (interact [] w)))).
Proof.
  intros Hblank. cbv zeta. unfold handleLog.
  cbn [Log.type Log.direction Log.message LogMessage.text].
  change ("send-message" =? "send-message") with true.
  change ("receive" =? "receive") with true.
  cbn [negb orb]. rewrite Hblank.
  destruct (hasFunctionCalls (LogMessage.make (Some text) parts calls));
    [reflexivity|].
  unfold bind at 1. unfold gets at 1.
  destruct (alreadyNarrated text (timeline w)); reflexivity.
Qed.

End Narration.

(** X21. A narration that arrives without function calls is written to the
    timeline once: the message appends one entry at most, after it the
    timeline holds an action-free entry with that text, and receiving the
    same text again changes nothing. *)
Theorem narration_is_written_once (env : Env) (w : World) (text : string)
    (parts : option (list (option FunctionCall.t)))
    (calls : option (list FunctionCall.t)) (random again : string) :
  blank text = false ->
  let response := LogMessage.make (Some text) parts calls in
  hasFunctionCalls response = false ->
  let log := Log.make "send-message" "receive" (Some response) in
  let w1 := snd (handleLog env log random w) in
  (exists added, timeline w1 = timeline w ++ added /\ length added <= 1)
  /\ alreadyNarrated text (timeline w1) = true
  /\ handleLog env log again w1 = (Returned tt, w1).
Proof.
  intros Hblank response Hcalls log w1. subst response log.
  assert (Hnarrated : alreadyNarrated text (timeline w1) = true
                      /\ exists added,
                          timeline w1 = timeline w ++ added
                          /\ length added <= 1).
  { unfold w1.
    rewrite (handleLog_received env text parts calls random w Hblank).
    rewrite Hcalls.
    destruct (alreadyNarrated text (timeline w)) eqn:E.
    - split; [exact E|]. exists []. rewrite app_nil_r. split; [reflexivity|].
      cbn. lia.
    - cbv zeta. cbn [snd timeline update_trace update_timeline].
      split.
      + unfold alreadyNarrated. rewrite existsb_app. apply orb_true_iff. right.
        cbn. rewrite String.eqb_refl. reflexivity.
      + eexists. split; [reflexivity|]. cbn. lia. }
  destruct Hnarrated as [Hnarrated Hadded].
  split; [exact Hadded|]. split; [exact Hnarrated|].
  rewrite (handleLog_received env text parts calls again w1 Hblank).
  rewrite Hcalls, Hnarrated. reflexivity.
Qed.

(** The agent says "Vanakkam!" twice. *)
Lemma narration_is_written_once_witness :
  let log :=
    Log.make "send-message" "receive"
      (Some (LogMessage.make (Some "Vanakkam!") None None)) in
  let w1 := snd (handleLog offline log "0.25" initialWorld) in
  map TimelineEntry.text (timeline w1) = [Some "Vanakkam!"]
  /\ handleLog offline log "0.75" w1 = (Returned tt, w1).
Proof.
  cbv zeta.
  destruct (narration_is_written_once offline initialWorld "Vanakkam!" None None
              "0.25" "0.75") as (_ & _ & Hagain).
  - reflexivity.
  - reflexivity.
  - split; [reflexivity|exact Hagain].
Defined.

(** X22. A narration that arrives with function calls is buffered, not
    written: the timeline is as it was.  The next regular action that
    passes validation takes the buffered text into its timeline entry and
    empties the buffer, whereas an abandon call in between leaves the
    buffer as it is. *)
Theorem buffered_narration_joins_next_action (env : Env) (w : World)
    (text : string) (parts : option (list (option FunctionCall.t)))
    (calls : option (list FunctionCall.t)) (random : string) :
  blank text = false ->
  let response := LogMessage.make (Some text) parts calls in
  hasFunctionCalls response = true ->
  let w1 :=
    snd (handleLog env (Log.make "send-message" "receive" (Some response))
           random w) in
  timeline w1 = timeline w
  /\ pendingTextRef w1 = Some text
  /\ (forall args others,
         pendingTextRef
           (snd (handleApprovedFunctionCalls env
                   (FunctionCall.make (Some "pass") args :: others) w1))
         = Some text)
  /\ (forall actionName action args others,
         regularAction actionName action ->
         passesValidation args w1 ->
         let w2 :=
           snd (handleApprovedFunctionCalls env
                  (FunctionCall.make (Some actionName) args :: others) w1) in
         pendingTextRef w2 = None
         /\ exists e,
             In e (timeline w2)
             /\ TimelineEntry.id e = cookingId env w1
             /\ TimelineEntry.action e = Some actionName
             /\ TimelineEntry.text e = Some text).
Proof.
  intros Hblank response Hcalls w1. subst response.
  assert (E : w1 = update_pendingTextRef (fun _ => Some text) w).
  { unfold w1.
    rewrite (handleLog_received env text parts calls random w Hblank).
    rewrite Hcalls. reflexivity. }
  split; [rewrite E; reflexivity|]. split; [rewrite E; reflexivity|].
  split.
  - intros args others. rewrite E. reflexivity.
  - intros actionName action args others Hreg Hvalid. cbv zeta.
    destruct (cook_outcome env w1 actionName action args others Hreg Hvalid)
      as (_ & _ & _ & _ & Hpend & Hend).
    split; [exact Hpend|].
    assert (Htext : TimelineEntry.text
                      (pendingEntry env w1 actionName
                         (validateIngredients (requested args) (inventory w1) []))
                    = Some text).
    { unfold pendingEntry. cbn [TimelineEntry.text]. rewrite E.
      cbn [pendingTextRef update_pendingTextRef].
      apply or_undefined_text, blank_not_empty, Hblank. }
    destruct (delivery env (replyTick w1) _) as [u|e] in Hend.
    + destruct Hend as (_ & Htl & _). rewrite Htl.
      eexists. split; [apply in_or_app; right; left; reflexivity|].
      split; [reflexivity|]. split; [reflexivity|exact Htext].
    + cbv zeta in Hend. destruct Hend as (_ & Htl & _). rewrite Htl.
      eexists. split; [apply in_or_app; right; left; reflexivity|].
      split; [reflexivity|]. split; [reflexivity|exact Htext].
Qed.

(** The agent announces its stirring together with the call
    [stir(["ghee"])]. *)
Lemma buffered_narration_joins_next_action_witness :
  let w1 :=
    snd (handleLog offline
           (Log.make "send-message" "receive"
              (Some (LogMessage.make (Some "Stir gently!") None
                       (Some [FunctionCall.make (Some "stir") None]))))
           "0.5" initialWorld) in
  let w2 :=
    snd (handleApprovedFunctionCalls offline
           [FunctionCall.make (Some "stir")
              (Some (Args.make (Some ["ghee"]) None))] w1) in
  timeline w1 = []
  /\ pendingTextRef w1 = Some "Stir gently!"
  /\ pendingTextRef w2 = None
  /\ map TimelineEntry.text (timeline w2) = [Some "Stir gently!"].
Proof.
  cbv zeta.
  destruct (buffered_narration_joins_next_action offline initialWorld
              "Stir gently!" None
              (Some [FunctionCall.make (Some "stir") None]) "0.5")
    as (Htl & Hbuf & _ & Hnext).
  - reflexivity.
  - reflexivity.
  - destruct (Hnext "stir" (createAction "stir" "🥄")
                (Some (Args.make (Some ["ghee"]) None)) [])
      as (Hempty & _).
    + repeat split; reflexivity.
    + left. vm_compute. discriminate.
    + rewrite Htl, Hbuf, Hempty. repeat split; reflexivity.
Defined.

(* ================================================================== *)
(** ** Order cards *)
(* ================================================================== *)

Section Cards.

Lemma no_order_in_progress orders :
  hasInProgressOrder orders = false -> inProgress orders = [].
Proof.
  unfold hasInProgressOrder, inProgress.
  induction orders as [|o r IH]; [reflexivity|].
  cbn [existsb filter]. intros H. apply orb_false_iff in H.
  destruct H as [Ho Hr]. rewrite Ho. apply IH, Hr.
Qed.

Lemma one_order_per_id orderId prev :
  NoDup (map Order.id prev) ->
  length (filter (fun o => Order.id o =? orderId) prev) <= 1.
Proof.
  induction prev as [|o r IH]; intros H; [cbn; lia|].
  cbn [map] in H. inversion H as [|x l Hnot Hr]; subst.
  cbn [filter].
  destruct (String.eqb_spec (Order.id o) orderId) as [E|E]; [|apply IH, Hr].
  assert (Z : filter (fun o0 => Order.id o0 =? orderId) r = []).
  { clear IH H Hr. induction r as [|o' r' IH']; [reflexivity|].
    cbn [filter].
    destruct (String.eqb_spec (Order.id o') orderId) as [E'|E'].
    - exfalso. apply Hnot. left. congruence.
    - apply IH'. intros Hin. apply Hnot. right. exact Hin. }
  rewrite Z. cbn. lia.
Qed.

Lemma inProgress_after_pickUp orderId prev :
  length (inProgress (pickUp orderId prev))
  <= length (inProgress prev)
     + length (filter (fun o => Order.id o =? orderId) prev).
Proof.
  unfold inProgress, pickUp.
  induction prev as [|o r IH]; [cbn; lia|].
  cbn [map filter].
  destruct (Order.id o =? orderId);
    destruct (Order.status o) eqn:E;
    cbn [Order.with_status Order.status status_eqb length]; rewrite ?E;
    cbn [status_eqb length]; lia.
Qed.

Lemma clickManual_run selectionMode order w :
  clickManual selectionMode order w
  = if buttonsShown selectionMode order
       && negb (isDisabled selectionMode (orders w) order)
    then (Returned tt, update_orders (pickUp (Order.id order)) w)
    else (Returned tt, w).
Proof.
  unfold clickManual, bind, gets.
  destruct (buttonsShown selectionMode order
            && negb (isDisabled selectionMode (orders w) order)); reflexivity.
Qed.

End Cards.

(** X23. The order card guards the pickup.  Its Manual and agent buttons do
    nothing in selection mode, on an order that is not [not_started], and
    while any order is in progress; otherwise the Manual button picks the
    order up.  So, order ids being distinct, a click on a Manual button
    never brings the number of orders in progress above one. *)
Theorem card_guards_pickup (env : Env) (selectionMode : bool)
    (order : Order.t) (w : World) :
  (selectionMode = true \/ Order.status order <> not_started
   \/ hasInProgressOrder (orders w) = true ->
   clickManual selectionMode order w = (Returned tt, w)
   /\ clickCook env selectionMode order w = (Returned tt, w))
  /\ (selectionMode = false -> Order.status order = not_started ->
      hasInProgressOrder (orders w) = false ->
      orders (snd (clickManual selectionMode order w))
      = pickUp (Order.id order) (orders w))
  /\ (NoDup (map Order.id (orders w)) ->
      length (inProgress (orders w)) <= 1 ->
      length (inProgress (orders (snd (clickManual selectionMode order w))))
      <= 1).
Proof.
  split; [|split].
  - intros H.
    assert (G : buttonsShown selectionMode order
                && negb (isDisabled selectionMode (orders w) order) = false).
    { unfold buttonsShown, isDisabled.
      destruct selectionMode; [reflexivity|].
      destruct (Order.status order) eqn:E; cbn [status_eqb negb andb];
        try reflexivity.
      destruct H as [H|[H|H]]; [discriminate|congruence|].
      rewrite H. reflexivity. }
    split.
    + rewrite clickManual_run, G. reflexivity.
    + unfold clickCook, bind, gets. rewrite G. reflexivity.
  - intros -> Hst Hnone.
    rewrite clickManual_run. unfold buttonsShown, isDisabled.
    rewrite Hst, Hnone. reflexivity.
  - intros Hnodup Hone. rewrite clickManual_run.
    destruct (buttonsShown selectionMode order
              && negb (isDisabled selectionMode (orders w) order)) eqn:G;
      [|exact Hone].
    cbn [snd orders update_orders].
    assert (Hnone : inProgress (orders w) = []).
    { apply no_order_in_progress.
      unfold buttonsShown, isDisabled in G.
      destruct selectionMode; [discriminate|].
      destruct (status_eqb (Order.status order) not_started); [|discriminate].
      destruct (hasInProgressOrder (orders w)); [discriminate|reflexivity]. }
    pose proof (inProgress_after_pickUp (Order.id order) (orders w)) as B.
    pose proof (one_order_per_id (Order.id order) (orders w) Hnodup) as U.
    rewrite Hnone in B. cbn [length] in B. lia.
Qed.

(** The cards of the sample ledger, where "Masala Dosa" is in progress: the
    Manual button of the pending "Idly" does nothing, and in the start-up
    world the Manual button of "Filter Coffee" picks it up. *)
Lemma card_guards_pickup_witness :
  clickManual false
    (Order.make "order-5" "Idly" "🥞" difficult not_started None)
    (with_orders sampleLedger initialWorld)
  = (Returned tt, with_orders sampleLedger initialWorld)
  /\ map Order.status
       (orders (snd (clickManual false
                       (Order.make "order-1" "Filter Coffee" "☕" easy
                          not_started None)
                       initialWorld)))
     = [in_progress; not_started; not_started; not_started; not_started;
        not_started; not_started]
  /\ length (inProgress
               (orders (snd (clickManual false
                               (Order.make "order-1" "Filter Coffee" "☕" easy
                                  not_started None)
                               initialWorld)))) <= 1.
Proof.
  split; [|split].
  - apply (card_guards_pickup offline false
             (Order.make "order-5" "Idly" "🥞" difficult not_started None)
             (with_orders sampleLedger initialWorld)).
    right. right. reflexivity.
  - destruct (card_guards_pickup offline false
                (Order.make "order-1" "Filter Coffee" "☕" easy not_started None)
                initialWorld) as (_ & Hpick & _).
    rewrite Hpick; reflexivity.
  - apply (card_guards_pickup offline false
             (Order.make "order-1" "Filter Coffee" "☕" easy not_started None)
             initialWorld).
    + cbn. repeat (constructor; [cbn; intuition discriminate|]). constructor.
    + cbn. lia.
Defined.

(* ================================================================== *)
(** ** Manual cooking *)
(* ================================================================== *)

(** X24. The manual action needs a selection: with nothing selected it
    does nothing at all.  With a selection, a regular action whose
    resolver returns an ingredient completes its entry with that
    ingredient and inserts it into the inventory unless its normalized
    name is there already. *)
Theorem manual_action_outcome (env : Env) (action : KitchenAction.t)
    (w : World) :
  (selectedIngredients w = [] ->
   executeAction env action w = (Returned tt, w))
  /\ (forall r,
         selectedIngredients w <> [] ->
         (KitchenAction.name action =? "serve_on_leaf") = false ->
         combination env (S (S (tick w)))
           (combinationPrompt action (selectedIngredients w))
         = Returned r ->
         let newIngredient :=
           Ingredient.make (CombinationResult.result_name r)
             (CombinationResult.emoji r) in
         let w' := snd (executeAction env action w) in
         timeline w'
         = completeEntry (Js.of_N (clock env (tick w))) newIngredient
             (timeline w)
           ++ [TimelineEntry.with_result newIngredient
                 (manualEntry env w action)]
         /\ inventory w' = insertIngredient newIngredient (inventory w)).
Proof.
  split.
  - intros H. unfold executeAction, bind, gets. rewrite H. reflexivity.
  - intros r Hsel Hreg Hresult. cbv zeta.
    destruct (executeAction_run env action w Hsel Hreg) as (_ & Htl & Hinv).
    unfold resolved in Htl, Hinv. rewrite Hresult in Htl, Hinv.
    rewrite Htl, Hinv, completeEntry_app, completeEntry_manual.
    split; reflexivity.
Qed.

(** The manual "stone grind" of the specification's end-to-end example,
    and a click on an action tile with nothing selected. *)
Lemma manual_action_outcome_witness :
  executeAction idliKitchen (createAction "stone grind" "🪨") initialWorld
  = (Returned tt, initialWorld)
  /\ inventory
       (snd (executeAction idliKitchen (createAction "stone grind" "🪨")
               (update_selectedIngredients
                  (fun _ => ["ponni rice"; "urad dal"]) initialWorld)))
     = Ingredient.make "Idli Batter" "🥣" :: STARTING_INGREDIENTS.
Proof.
  split.
  - apply (manual_action_outcome idliKitchen (createAction "stone grind" "🪨")
             initialWorld).
    reflexivity.
  - destruct (manual_action_outcome idliKitchen
                (createAction "stone grind" "🪨")
                (update_selectedIngredients
                   (fun _ => ["ponni rice"; "urad dal"]) initialWorld))
      as (_ & Hrun).
    destruct (Hrun (CombinationResult.make "Idli Batter" "🥣"))
      as (_ & Hinv).
    + cbn. discriminate.
    + reflexivity.
    + reflexivity.
    + rewrite Hinv. reflexivity.
Defined.

(* ================================================================== *)
(** ** Adding an order *)
(* ================================================================== *)

Section Trimming.

Lemma by_suffixes (Q : string -> Prop) :
  (forall s, (forall t, String.length t < String.length s -> Q t) -> Q s) ->
  forall s, Q s.
Proof.
  intros step s.
  assert (H : forall n t, String.length t < n -> Q t).
  { induction n as [|n IH]; intros t Ht; [lia|].
    apply step. intros u Hu. apply IH. lia. }
  apply (H (S (String.length s))). lia.
Qed.

Lemma blank_trimStart s : blank (trimStart s) = blank s.
Proof.
  induction s as [s IH] using by_suffixes.
  destruct s as [|c1 r1]; [reflexivity|].
  cbn [blank trimStart].
  destruct (Js.is_space c1) eqn:S1; [apply IH; cbn; lia|].
  destruct r1 as [|c2 r2]; [cbn [blank]; rewrite S1; reflexivity|].
  destruct ((nat_of_ascii c1 =? 194)%nat && (nat_of_ascii c2 =? 160)%nat)
    eqn:N; [apply IH; cbn; lia|].
  destruct r2 as [|c3 r3]; [cbn [blank]; rewrite S1, N; reflexivity|].
  destruct (is_space3 c1 c2 c3) eqn:S3; [apply IH; cbn; lia|].
  cbn [blank]. rewrite S1, N, S3. reflexivity.
Qed.

Lemma blank_trimEnd s : blank (trimEnd s) = blank s.
Proof.
  induction s as [s IH] using by_suffixes.
  destruct s as [|c1 r1]; [reflexivity|].
  cbn [trimEnd].
  destruct (blank (String c1 r1)) eqn:B; [reflexivity|].
  cbn [blank] in B |- *.
  destruct (Js.is_space c1) eqn:S1.
  { rewrite IH by (cbn; lia). exact B. }
  destruct r1 as [|c2 r2]; [reflexivity|].
  cbn [trimEnd].
  destruct (blank (String c2 r2)) eqn:B2; [reflexivity|].
  destruct ((nat_of_ascii c1 =? 194)%nat && (nat_of_ascii c2 =? 160)%nat)
    eqn:N.
  { rewrite IH by (cbn; lia). exact B. }
  destruct r2 as [|c3 r3]; [reflexivity|].
  cbn [trimEnd].
  destruct (blank (String c3 r3)) eqn:B3; [reflexivity|].
  destruct (is_space3 c1 c2 c3) eqn:S3; [|reflexivity].
  rewrite IH by (cbn; lia). exact B.
Qed.

End Trimming.

(** X25. Submitting the add-order card with a name of white space only
    adds nothing.  Any other name appends one order to the ledger, not
    started, named by the trimmed text, which is not blank; the orders that
    were in the ledger, and so the orders in progress, are as before. *)
Theorem submitted_order_is_appended (env : Env) (orderName : string)
    (w : World) :
  (blank orderName = true -> handleSubmit env orderName w = (Returned tt, w))
  /\ (blank orderName = false ->
      let w' := snd (handleSubmit env orderName w) in
      orders w'
      = orders w
        ++ [Order.make ("order-" ++ Js.of_N (clock env (tick w)))
              (trim orderName) "📜" intermediate not_started None]
      /\ blank (trim orderName) = false
      /\ inProgress (orders w') = inProgress (orders w)).
Proof.
  split.
  - intros H. unfold handleSubmit. rewrite H. reflexivity.
  - intros H. cbv zeta. unfold handleSubmit. rewrite H.
    unfold handleAddOrder, bind, Date_now, setOrders, modify, addOrder.
    cbn [fst snd orders update_orders interact update_tick update_trace].
    split; [reflexivity|]. split.
    + unfold trim. rewrite blank_trimEnd, blank_trimStart. exact H.
    + unfold inProgress. rewrite filter_app. cbn. apply app_nil_r.
Qed.

(** The names "   " and "  Pongal ". *)
Lemma submitted_order_is_appended_witness :
  handleSubmit offline "   " initialWorld = (Returned tt, initialWorld)
  /\ map Order.name (orders (snd (handleSubmit offline "  Pongal " initialWorld)))
     = map Order.name EXAMPLE_ORDERS ++ ["Pongal"].
Proof.
  destruct (submitted_order_is_appended offline "   " initialWorld)
    as [Hblank _].
  destruct (submitted_order_is_appended offline "  Pongal " initialWorld)
    as [_ Hadd].
  split.
  - apply Hblank. reflexivity.
  - destruct Hadd as (Horders & _); [reflexivity|].
    rewrite Horders. reflexivity.
Defined.

(** X26. The batch selection only gains orders that can still be picked
    up: a click on a card adds the card's id to the selection only in
    selection mode and only when the card's order is [not_started]; every
    other id in the new selection was selected before. *)
Theorem selection_gains_pending_orders (selectionMode : bool)
    (orders : list Order.t) (order : Order.t)
    (batchSelectedOrderIds : list string) (x : string) :
  In x (clickCard selectionMode orders order batchSelectedOrderIds) ->
  In x batchSelectedOrderIds
  \/ (x = Order.id order /\ selectionMode = true
      /\ Order.status order = not_started).
Proof.
  unfold clickCard.
  destruct selectionMode; cbn [andb]; [|left; assumption].
  destruct (Order.status order) eqn:E; cbn [status_eqb andb];
    try (left; assumption).
  destruct (negb (isDisabled true orders order)); [|left; assumption].
  intros H.
  destruct (String.eqb_spec x (Order.id order)) as [->|N].
  - right. repeat split; reflexivity.
  - left.
    apply (proj1 (proj2 (toggle_membership (Order.id order)
                           batchSelectedOrderIds) x N) H).
Qed.

(** In selection mode, a click on the pending "Idly" of the sample ledger
    selects it. *)
Lemma selection_gains_pending_orders_witness :
  In "order-5"
     (clickCard true sampleLedger
        (Order.make "order-5" "Idly" "🥞" difficult not_started None) [])
  /\ (In "order-5" []
      \/ ("order-5" = "order-5" /\ true = true /\ not_started = not_started)).
Proof.
  assert (H : In "order-5"
                (clickCard true sampleLedger
                   (Order.make "order-5" "Idly" "🥞" difficult not_started None)
                   [])) by (left; reflexivity).
  split; [exact H|].
  exact (selection_gains_pending_orders true sampleLedger
           (Order.make "order-5" "Idly" "🥞" difficult not_started None) []
           "order-5" H).
Defined.
